(** * Avro binary I/O (lang/py/src/avro/io.py): a shallow embedding

    The development follows the layout of [io.py]: constants, the binary
    encoder and decoder of leaf values, the exceptions, [validate], schema
    matching with its cache, the schema-directed readers and skippers, the
    schema-directed writers and the [DatumReader]/[DatumWriter] entry points.
    The theorems come after the definitions. *)

From Stdlib Require Import ZArith List Bool Lia String Ascii.
From Stdlib Require Import Init.Byte Strings.Byte.
Import ListNotations.

Local Open Scope Z_scope.

Set Warnings "-register-all".

(** ** Python values

    The generic data representation listed in the module docstring.  [int]
    and [long] are both unbounded integers; a [float] is represented by its
    IEEE-754 binary64 bit pattern; a Python 2 [str] is a byte string and a
    [unicode] object is represented by its UTF-8 encoding; a [dict] is the
    list of its items in iteration order. *)

Inductive pyval : Type :=
| PNone
| PBool (b : bool)
| PInt (n : Z)
| PFloat (bits : Z)
| PStr (s : string)
| PUnicode (s : string)
| PList (l : list pyval)
| PTuple (l : list pyval)
| PDict (d : list (pyval * pyval)).

(** ** Schemas

    [avro.schema] is outside this module; a schema object is what section
    "Schema interface" lists: a type tag and the attributes of that tag.
    Schemas are immutable, so an object is represented by its address [oid]
    together with its contents: [w is r] is equality of representations, and
    two objects with equal contents at different addresses are different. *)

Inductive prim_type : Type :=
| t_null | t_boolean | t_int | t_long | t_float | t_double | t_bytes | t_string.

Inductive union_type : Type := t_union | t_error_union.

Inductive record_type : Type := t_record | t_error | t_request.

Record field_of (S : Type) : Type := Field {
  name : string;
  type : S;
  has_default : bool;
  default : pyval
}.

Arguments Field {S} _ _ _ _.
Arguments name {S} _.
Arguments type {S} _.
Arguments has_default {S} _.
Arguments default {S} _.

Inductive schema : Type :=
| PrimitiveSchema (oid : nat) (t : prim_type)
| FixedSchema (oid : nat) (fullname : string) (size : Z)
| EnumSchema (oid : nat) (fullname : string) (symbols : list string)
| ArraySchema (oid : nat) (items : schema)
| MapSchema (oid : nat) (values : schema)
| UnionSchema (oid : nat) (t : union_type) (schemas : list schema)
| RecordSchema (oid : nat) (t : record_type) (fullname : string)
               (fields : list (field_of schema)).

Definition field : Type := field_of schema.

(** The closed set of type tags, the value of [schema.type]. *)
Inductive type_tag : Type :=
| tag_null | tag_boolean | tag_int | tag_long | tag_float | tag_double
| tag_bytes | tag_string | tag_fixed | tag_enum | tag_array | tag_map
| tag_union | tag_error_union | tag_record | tag_error | tag_request.

Definition prim_tag (t : prim_type) : type_tag :=
  match t with
  | t_null => tag_null | t_boolean => tag_boolean | t_int => tag_int
  | t_long => tag_long | t_float => tag_float | t_double => tag_double
  | t_bytes => tag_bytes | t_string => tag_string
  end.

Definition union_tag (t : union_type) : type_tag :=
  match t with t_union => tag_union | t_error_union => tag_error_union end.

Definition record_tag (t : record_type) : type_tag :=
  match t with
  | t_record => tag_record | t_error => tag_error | t_request => tag_request
  end.

Definition schema_type (s : schema) : type_tag :=
  match s with
  | PrimitiveSchema _ t => prim_tag t
  | FixedSchema _ _ _ => tag_fixed
  | EnumSchema _ _ _ => tag_enum
  | ArraySchema _ _ => tag_array
  | MapSchema _ _ => tag_map
  | UnionSchema _ t _ => union_tag t
  | RecordSchema _ t _ _ => record_tag t
  end.

Definition type_tag_eqb (a b : type_tag) : bool :=
  match a, b with
  | tag_null, tag_null | tag_boolean, tag_boolean | tag_int, tag_int
  | tag_long, tag_long | tag_float, tag_float | tag_double, tag_double
  | tag_bytes, tag_bytes | tag_string, tag_string | tag_fixed, tag_fixed
  | tag_enum, tag_enum | tag_array, tag_array | tag_map, tag_map
  | tag_union, tag_union | tag_error_union, tag_error_union
  | tag_record, tag_record | tag_error, tag_error
  | tag_request, tag_request => true
  | _, _ => false
  end.

(** ** Exceptions

    The messages are kept in structured form.  [PyError] stands for the
    built-in exceptions of the interpreter. *)

Inductive fail_msg : Type :=
| msg_checksum_failure
| msg_unknown_schema_type (t : type_tag)
| msg_cannot_read_unknown_schema_type (t : type_tag)
| msg_unknown_type (t : type_tag)
| msg_cant_access_enum_index (index : Z) (n : Z)
| msg_symbol_not_present (symbol : string)
| msg_cant_access_branch_index (index : Z) (n : Z)
| msg_no_default_value (field_name : string)
| msg_schemas_do_not_match.

Inductive py_error : Type :=
| TypeError | ValueError | IndexError | KeyError | AttributeError
| OverflowError | UnicodeError | StructError | IOError.

Inductive exn : Type :=
| AvroException (m : fail_msg)
| AvroTypeException (expected_schema : schema) (datum : pyval)
| SchemaResolutionException (m : fail_msg)
                            (writers_schema readers_schema : schema)
| Truncated
| PyError (e : py_error).

(** The outcome of a call: a value, an exception, or no answer at all (a
    loop that does not end). *)
Inductive outcome (A : Type) : Type :=
| Ok (a : A)
| Raise (e : exn)
| Diverge.

Arguments Ok {A} _.
Arguments Raise {A} _.
Arguments Diverge {A}.

(** ** Constants *)

Definition INT_MIN_VALUE : Z := - Z.shiftl 1 31.
Definition INT_MAX_VALUE : Z := Z.shiftl 1 31 - 1.
Definition LONG_MIN_VALUE : Z := - Z.shiftl 1 63.
Definition LONG_MAX_VALUE : Z := Z.shiftl 1 63 - 1.

(** ** The interpreter's conversions

    [struct], the codecs and the numeric constructors are not part of the
    module; what [io.py] uses of them is collected here.  Bit patterns are
    unsigned integers.  [utf8_valid] says which byte strings the "utf-8"
    codec decodes; ASCII text is among them.  The writer that a
    [BinaryEncoder] is built on is the caller's as well: a [str] that it is
    given is appended to the output, and [writer_write] is what its
    [write] does with any other object (a file or an [io.BytesIO] raises
    a [TypeError], a [StringIO.StringIO] writes [str(datum)]). *)

Definition is_ascii (s : string) : bool :=
  forallb (fun b => N.ltb (Byte.to_N b) 128) (list_byte_of_string s).

Record Builtins : Type := {
  (* the C conversion of an integer to a double, as a bit pattern *)
  double_of_int : Z -> outcome Z;
  (* [STRUCT_FLOAT.pack] on a double: the binary32 bit pattern *)
  single_of_double : Z -> outcome Z;
  (* [STRUCT_FLOAT.unpack]: the double equal to a binary32 bit pattern *)
  double_of_single : Z -> Z;
  py_int : pyval -> outcome pyval;
  py_long : pyval -> outcome pyval;
  py_float : pyval -> outcome pyval;
  (* the characters of a unicode object, each as a unicode object *)
  unicode_chars : string -> list string;
  utf8_valid : string -> bool;
  utf8_valid_ascii : forall s, is_ascii s = true -> utf8_valid s = true;
  (* [writer.write(datum)] for a datum that is not a [str]: the outcome
     and the bytes written *)
  writer_write : pyval -> outcome unit * list byte
}.

(** ** The byte sink

    An encoder appends to its writer: a computation yields its outcome and
    the bytes written, which stay written when an exception is raised. *)

Definition Enc (A : Type) : Type := (outcome A * list byte)%type.

Definition enc_ret {A} (a : A) : Enc A := (Ok a, []).

Definition enc_raise {A} (e : exn) : Enc A := (Raise e, []).

Definition enc_bind {A B} (m : Enc A) (k : A -> Enc B) : Enc B :=
  match m with
  | (Ok a, out) => let (r, out') := k a in (r, out ++ out')
  | (Raise e, out) => (Raise e, out)
  | (Diverge, out) => (Diverge, out)
  end.

Definition enc_lift {A} (o : outcome A) : Enc A := (o, []).

Declare Scope enc_scope.
Delimit Scope enc_scope with enc.
Notation "x <- m ;; k" := (enc_bind m (fun x => k))
  (at level 61, m at next level, right associativity) : enc_scope.
Notation "m ;; k" := (enc_bind m (fun _ => k))
  (at level 61, right associativity) : enc_scope.

(** [chr]: a one-byte string, [ValueError] outside [range(256)]. *)
Definition chr (n : Z) : outcome byte :=
  if n <? 0 then Raise (PyError ValueError)
  else match Byte.of_N (Z.to_N n) with
       | Some b => Ok b
       | None => Raise (PyError ValueError)
       end.

Definition ord (b : byte) : Z := Z.of_N (Byte.to_N b).

Module BinaryEncoder.

Local Open Scope enc_scope.

Definition write (datum : list byte) : Enc unit := (Ok tt, datum).

Definition write_chr (n : Z) : Enc unit :=
  b <- enc_lift (chr n) ;; write [b].

Definition write_null (datum : pyval) : Enc unit := enc_ret tt.

(** The truth value of [if datum:]. *)
Definition truthy (datum : pyval) : bool :=
  match datum with
  | PNone => false
  | PBool b => b
  | PInt n => negb (n =? 0)
  | PFloat bits => negb (Z.land bits (Z.ones 63) =? 0)
  | PStr s | PUnicode s => negb (String.eqb s EmptyString)
  | PList l | PTuple l => match l with [] => false | _ => true end
  | PDict d => match d with [] => false | _ => true end
  end.

Definition write_boolean (datum : pyval) : Enc unit :=
  if truthy datum then write_chr 1 else write_chr 0.

(** The loop of [write_long]; it ends when [datum] is not negative, in
    one step for each group of seven bits. *)
Fixpoint write_long_loop (fuel : nat) (datum : Z) : Enc unit :=
  match fuel with
  | O => (Diverge, [])
  | S fuel' =>
      if negb (Z.land datum (Z.lnot 127) =? 0) then
        write_chr (Z.lor (Z.land datum 127) 128) ;;
        write_long_loop fuel' (Z.shiftr datum 7)
      else write_chr datum
  end.

Definition zigzag (datum : Z) : Z :=
  Z.lxor (Z.shiftl datum 1) (Z.shiftr datum 63).

Definition write_long (datum : Z) : Enc unit :=
  let datum := zigzag datum in
  write_long_loop (S (Z.to_nat (Z.log2 datum))) datum.

Definition write_int (datum : Z) : Enc unit := write_long datum.

(** [results = [((bits >> operand) & 0xFF) for operand in shift_list]]
    written as one string, for [n] bytes. *)
Fixpoint little_endian (n : nat) (bits : Z) : Enc unit :=
  match n with
  | O => enc_ret tt
  | S n' => write_chr (Z.land bits 255) ;;
            little_endian n' (Z.shiftr bits 8)
  end.

(** The integer operand of [<<], [>>] and [^]: an [int], a [long] or a
    [bool]; anything else is a [TypeError]. *)
Definition int_operand (datum : pyval) : outcome Z :=
  match datum with
  | PInt n => Ok n
  | PBool b => Ok (if b then 1 else 0)
  | _ => Raise (PyError TypeError)
  end.

(** [STRUCT_LONG.unpack(STRUCT_DOUBLE.pack(datum))[0]] *)
Definition double_bits (py : Builtins) (datum : pyval) : outcome Z :=
  match datum with
  | PFloat bits => Ok bits
  | PInt n => double_of_int py n
  | PBool b => double_of_int py (if b then 1 else 0)
  | _ => Raise (PyError StructError)
  end.

(** [STRUCT_INT.unpack(STRUCT_FLOAT.pack(datum))[0]] *)
Definition float_bits (py : Builtins) (datum : pyval) : outcome Z :=
  match double_bits py datum with
  | Ok bits => single_of_double py bits
  | r => r
  end.

Definition write_float (py : Builtins) (datum : pyval) : Enc unit :=
  bits <- enc_lift (float_bits py datum) ;; little_endian 4 bits.

Definition write_double (py : Builtins) (datum : pyval) : Enc unit :=
  bits <- enc_lift (double_bits py datum) ;; little_endian 8 bits.

(** [len(datum)] *)
Definition len (py : Builtins) (datum : pyval) : outcome Z :=
  match datum with
  | PStr s => Ok (Z.of_nat (String.length s))
  | PUnicode s => Ok (Z.of_nat (List.length (unicode_chars py s)))
  | PList l | PTuple l => Ok (Z.of_nat (List.length l))
  | PDict d => Ok (Z.of_nat (List.length d))
  | _ => Raise (PyError TypeError)
  end.

(** [struct.pack('%ds' % length, datum)] takes a [str]. *)
Definition write_bytes (py : Builtins) (datum : pyval) : Enc unit :=
  length <- enc_lift (len py datum) ;;
  write_long length ;;
  match datum with
  | PStr s => write (list_byte_of_string s)
  | _ => enc_raise (PyError StructError)
  end.

(** [datum.encode("utf-8")]: a [str] goes through the default (ASCII)
    codec first. *)
Definition encode_utf8 (datum : pyval) : outcome pyval :=
  match datum with
  | PUnicode s => Ok (PStr s)
  | PStr s => if is_ascii s then Ok (PStr s)
              else Raise (PyError UnicodeError)
  | _ => Raise (PyError AttributeError)
  end.

Definition write_utf8 (py : Builtins) (datum : pyval) : Enc unit :=
  s <- enc_lift (encode_utf8 datum) ;; write_bytes py s.

(** [STRUCT_CRC32.pack(v)]: an unsigned integer of 32 bits, the most
    significant byte first; a [struct.error] when [v] does not fit. *)
Fixpoint big_endian (n : nat) (v : Z) : Enc unit :=
  match n with
  | O => enc_ret tt
  | S n' => write_chr (Z.land (Z.shiftr v (8 * Z.of_nat n')) 255) ;;
            big_endian n' v
  end.

Definition pack_unsigned (v : Z) : Enc unit :=
  if (v <? 0) || (Z.shiftl 1 32 <=? v) then enc_raise (PyError StructError)
  else big_endian 4 v.

(** [crc32] is [binascii.crc32]. *)
Definition write_crc32 (crc32 : list byte -> Z) (bytes : list byte)
  : Enc unit :=
  pack_unsigned (Z.land (crc32 bytes) 4294967295).

End BinaryEncoder.

(** ** The byte source and the process-wide state

    Modelled from the spec: the byte source is an external collaborator with
    [read(n)], [seek(offset)] and [tell()]; [read(n)] delivers exactly [n]
    bytes or signals the end of the input ([Truncated]).  Seeking past the
    end is allowed (the next read is truncated), seeking before the start is
    an [IOError]. *)

Record reader : Type := { buf : list byte; pos : nat }.

Definition remaining (r : reader) : list byte := skipn (pos r) (buf r).

(** [__match_schema_cache__]: the items of the dictionary, newest first; a
    key is a pair of schema objects. *)
Definition match_cache : Type := list ((schema * schema) * bool).

Record state : Type := { source : reader; cache : match_cache }.

Definition Dec (A : Type) : Type := state -> outcome A * state.

Definition ret {A} (a : A) : Dec A := fun st => (Ok a, st).

Definition raise {A} (e : exn) : Dec A := fun st => (Raise e, st).

Definition bind {A B} (m : Dec A) (k : A -> Dec B) : Dec B :=
  fun st =>
    match m st with
    | (Ok a, st') => k a st'
    | (Raise e, st') => (Raise e, st')
    | (Diverge, st') => (Diverge, st')
    end.

Definition lift {A} (o : outcome A) : Dec A := fun st => (o, st).

(** [try: m  except E: h] for a built-in exception class [E]. *)
Definition try_except {A} (m : Dec A) (E : py_error -> bool) (h : Dec A)
  : Dec A :=
  fun st =>
    match m st with
    | (Raise (PyError e), st') =>
        if E e then h st' else (Raise (PyError e), st')
    | r => r
    end.

Declare Scope dec_scope.
Delimit Scope dec_scope with dec.
Notation "x <- m ;; k" := (bind m (fun x => k))
  (at level 61, m at next level, right associativity) : dec_scope.
Notation "m ;; k" := (bind m (fun _ => k))
  (at level 61, right associativity) : dec_scope.

(** [for i in range(n)]: the values of the body, in order. *)
Fixpoint repeat_dec {A} (n : nat) (m : Dec A) : Dec (list A) :=
  match n with
  | O => ret []
  | S n' => (x <- m ;; xs <- repeat_dec n' m ;; ret (x :: xs))%dec
  end.

(** [for x in l]: the values of the body, in order. *)
Fixpoint for_each {A B} (l : list A) (body : A -> Dec B) : Dec (list B) :=
  match l with
  | [] => ret []
  | x :: l' => (y <- body x ;; ys <- for_each l' body ;; ret (y :: ys))%dec
  end.

Module BinaryDecoder.

Local Open Scope dec_scope.

Definition read (n : Z) : Dec (list byte) :=
  fun st =>
    let r := source st in
    if (n <? 0) || (Z.of_nat (List.length (remaining r)) <? n)
    then (Raise Truncated, st)
    else (Ok (firstn (Z.to_nat n) (remaining r)),
          {| source := {| buf := buf r; pos := pos r + Z.to_nat n |};
             cache := cache st |}).

Definition tell : Dec Z := fun st => (Ok (Z.of_nat (pos (source st))), st).

Definition seek (offset : Z) : Dec unit :=
  fun st =>
    if offset <? 0 then (Raise (PyError IOError), st)
    else (Ok tt,
          {| source := {| buf := buf (source st); pos := Z.to_nat offset |};
             cache := cache st |}).

(** [ord(self._reader.read(1))] *)
Definition read_ord : Dec Z :=
  s <- read 1 ;;
  match s with
  | [b] => ret (ord b)
  | _ => raise (PyError TypeError)
  end.

Definition read_null : Dec pyval := ret PNone.

Definition read_boolean : Dec pyval :=
  b <- read_ord ;; ret (PBool (b =? 1)).

(** The loop of [read_long]; every turn reads a byte, so the bytes left
    in the source bound the number of turns. *)
Fixpoint read_long_loop (fuel : nat) (b n shift : Z) : Dec Z :=
  match fuel with
  | O => fun st => (Diverge, st)
  | S fuel' =>
      if negb (Z.land b 128 =? 0) then
        b <- read_ord ;;
        read_long_loop fuel' b
          (Z.lor n (Z.shiftl (Z.land b 127) shift)) (shift + 7)
      else ret (Z.lxor (Z.shiftr n 1) (- Z.land n 1))
  end.

Definition read_long : Dec Z :=
  b <- read_ord ;;
  fun st =>
    read_long_loop (S (List.length (remaining (source st))))
      b (Z.land b 127) 7 st.

Definition read_int : Dec Z := read_long.

(** [reduce(operator.or_, [bit << places ...], 0)] over the bytes read,
    least significant first. *)
Fixpoint or_shifted (bytes : list byte) (places : Z) : Z :=
  match bytes with
  | [] => 0
  | b :: bytes' =>
      Z.lor (Z.shiftl (ord b) places) (or_shifted bytes' (places + 8))
  end.

Definition read_float (py : Builtins) : Dec pyval :=
  s <- read 4 ;;
  ret (PFloat (double_of_single py (or_shifted s 0))).

Definition read_double : Dec pyval :=
  s <- read 8 ;; ret (PFloat (or_shifted s 0)).

Definition read_bytes : Dec pyval :=
  n <- read_long ;; s <- read n ;; ret (PStr (string_of_list_byte s)).

(** [unicode(self.read_bytes(), "utf-8")] *)
Definition read_utf8 (py : Builtins) : Dec pyval :=
  b <- read_bytes ;;
  match b with
  | PStr s => if utf8_valid py s then ret (PUnicode s)
              else raise (PyError UnicodeError)
  | _ => raise (PyError TypeError)
  end.

Definition skip (n : Z) : Dec unit :=
  p <- tell ;; seek (p + n).

Definition skip_null : Dec unit := ret tt.

Definition skip_boolean : Dec unit := skip 1.

Fixpoint skip_long_loop (fuel : nat) (b : Z) : Dec unit :=
  match fuel with
  | O => fun st => (Diverge, st)
  | S fuel' =>
      if negb (Z.land b 128 =? 0) then
        b <- read_ord ;; skip_long_loop fuel' b
      else ret tt
  end.

Definition skip_long : Dec unit :=
  b <- read_ord ;;
  fun st =>
    skip_long_loop (S (List.length (remaining (source st)))) b st.

Definition skip_int : Dec unit := skip_long.

Definition skip_float : Dec unit := skip 4.

Definition skip_double : Dec unit := skip 8.

Definition skip_bytes : Dec unit := n <- read_long ;; skip n.

Definition skip_utf8 : Dec unit := skip_bytes.

(** [STRUCT_CRC32.unpack]: the bytes as an unsigned integer, the most
    significant byte first. *)
Fixpoint unpack_unsigned (bytes : list byte) (acc : Z) : Z :=
  match bytes with
  | [] => acc
  | b :: bytes' => unpack_unsigned bytes' (Z.lor (Z.shiftl acc 8) (ord b))
  end.

Definition check_crc32 (crc32 : list byte -> Z) (bytes : list byte)
  : Dec unit :=
  s <- read 4 ;;
  let checksum := unpack_unsigned s 0 in
  if negb (Z.land (crc32 bytes) 4294967295 =? checksum)
  then raise (AvroException msg_checksum_failure)
  else ret tt.

End BinaryDecoder.

(** ** Dictionaries and text

    A schema carries its names as [unicode] objects.  [key_is k name] is
    [k == name] for such a name: a [unicode] with the same text, or a [str]
    of the same ASCII text (a [str] that is not ASCII never equals a
    [unicode]). *)

Definition key_is (k : pyval) (name : string) : bool :=
  match k with
  | PUnicode s => String.eqb s name
  | PStr s => is_ascii s && String.eqb s name
  | _ => false
  end.

(** [datum.get(name)] on a [dict] *)
Definition dict_get (d : list (pyval * pyval)) (name : string) : pyval :=
  match find (fun kv => key_is (fst kv) name) d with
  | Some kv => snd kv
  | None => PNone
  end.

(** A dictionary keyed by names: [d[name] = v], [d.has_key(name)],
    [d[name]]. *)
Fixpoint dict_set {V} (d : list (string * V)) (name : string) (v : V)
  : list (string * V) :=
  match d with
  | [] => [(name, v)]
  | (k, x) :: d' =>
      if String.eqb k name then (k, v) :: d'
      else (k, x) :: dict_set d' name v
  end.

Definition dict_lookup {V} (d : list (string * V)) (name : string)
  : option V :=
  match find (fun kv => String.eqb (fst kv) name) d with
  | Some kv => Some (snd kv)
  | None => None
  end.

Definition has_key {V} (d : list (string * V)) (name : string) : bool :=
  match dict_lookup d name with Some _ => true | None => false end.

(** The record datum a reader returns: a [dict] keyed by the field names. *)
Definition record_datum (d : list (string * pyval)) : pyval :=
  PDict (map (fun kv => (PUnicode (fst kv), snd kv)) d).

(** Modelled from the spec: [fields_dict], the by-name index of the fields
    of a record schema (part of [avro.schema]). *)
Definition fields_dict (fields : list field) : list (string * field) :=
  fold_left (fun d f => dict_set d (name f) f) fields [].

(** ** Validation *)

Definition is_dict (datum : pyval) : bool :=
  match datum with PDict _ => true | _ => false end.

Definition is_basestring (datum : pyval) : bool :=
  match datum with PStr _ | PUnicode _ => true | _ => false end.

(** [isinstance(datum, (int, long))]; [bool] is a subclass of [int]. *)
Definition is_int_or_long (datum : pyval) : bool :=
  match datum with PInt _ | PBool _ => true | _ => false end.

Definition int_value (datum : pyval) : Z :=
  match datum with
  | PInt n => n
  | PBool true => 1
  | _ => 0
  end.

Fixpoint validate (expected_schema : schema) (datum : pyval) {struct expected_schema}
  : bool :=
  match expected_schema with
  | PrimitiveSchema _ t_null =>
      match datum with PNone => true | _ => false end
  | PrimitiveSchema _ t_boolean =>
      match datum with PBool _ => true | _ => false end
  | PrimitiveSchema _ t_string => is_basestring datum
  | PrimitiveSchema _ t_bytes =>
      match datum with PStr _ => true | _ => false end
  | PrimitiveSchema _ t_int =>
      is_int_or_long datum
      && (INT_MIN_VALUE <=? int_value datum)
      && (int_value datum <=? INT_MAX_VALUE)
  | PrimitiveSchema _ t_long =>
      is_int_or_long datum
      && (LONG_MIN_VALUE <=? int_value datum)
      && (int_value datum <=? LONG_MAX_VALUE)
  | PrimitiveSchema _ t_float | PrimitiveSchema _ t_double =>
      is_int_or_long datum
      || match datum with PFloat _ => true | _ => false end
  | FixedSchema _ _ size =>
      match datum with
      | PStr s => Z.of_nat (String.length s) =? size
      | _ => false
      end
  | EnumSchema _ _ symbols => existsb (key_is datum) symbols
  | ArraySchema _ items =>
      match datum with
      | PList l | PTuple l => forallb (validate items) l
      | _ => false
      end
  | MapSchema _ values =>
      match datum with
      | PDict d =>
          forallb (fun kv => is_basestring (fst kv)) d
          && forallb (fun kv => validate values (snd kv)) d
      | _ => false
      end
  | UnionSchema _ _ schemas => existsb (fun s => validate s datum) schemas
  | RecordSchema _ _ _ fields =>
      match datum with
      | PDict d =>
          forallb (fun f => validate (type f) (dict_get d (name f))) fields
      | _ => false
      end
  end.

(** ** Object identity *)

Definition list_eqb {A} (eqb : A -> A -> bool) : list A -> list A -> bool :=
  fix go (l l' : list A) : bool :=
    match l, l' with
    | [], [] => true
    | x :: l, y :: l' => eqb x y && go l l'
    | _, _ => false
    end.

Fixpoint pyval_eqb (a b : pyval) {struct a} : bool :=
  match a, b with
  | PNone, PNone => true
  | PBool x, PBool y => Bool.eqb x y
  | PInt x, PInt y => x =? y
  | PFloat x, PFloat y => x =? y
  | PStr x, PStr y => String.eqb x y
  | PUnicode x, PUnicode y => String.eqb x y
  | PList l, PList l' => list_eqb pyval_eqb l l'
  | PTuple l, PTuple l' => list_eqb pyval_eqb l l'
  | PDict d, PDict d' =>
      list_eqb (fun p q => pyval_eqb (fst p) (fst q)
                           && pyval_eqb (snd p) (snd q)) d d'
  | _, _ => false
  end.

Definition prim_type_eqb (a b : prim_type) : bool :=
  type_tag_eqb (prim_tag a) (prim_tag b).

Definition union_type_eqb (a b : union_type) : bool :=
  type_tag_eqb (union_tag a) (union_tag b).

Definition record_type_eqb (a b : record_type) : bool :=
  type_tag_eqb (record_tag a) (record_tag b).

Fixpoint schema_eqb (a b : schema) {struct a} : bool :=
  match a, b with
  | PrimitiveSchema i t, PrimitiveSchema j u =>
      Nat.eqb i j && prim_type_eqb t u
  | FixedSchema i n z, FixedSchema j m y =>
      Nat.eqb i j && String.eqb n m && (z =? y)
  | EnumSchema i n l, EnumSchema j m l' =>
      Nat.eqb i j && String.eqb n m && list_eqb String.eqb l l'
  | ArraySchema i x, ArraySchema j y => Nat.eqb i j && schema_eqb x y
  | MapSchema i x, MapSchema j y => Nat.eqb i j && schema_eqb x y
  | UnionSchema i t l, UnionSchema j u l' =>
      Nat.eqb i j && union_type_eqb t u && list_eqb schema_eqb l l'
  | RecordSchema i t n l, RecordSchema j u m l' =>
      Nat.eqb i j && record_type_eqb t u && String.eqb n m
      && list_eqb (fun f g => String.eqb (name f) (name g)
                              && schema_eqb (type f) (type g)
                              && Bool.eqb (has_default f) (has_default g)
                              && pyval_eqb (default f) (default g)) l l'
  | _, _ => false
  end.

(** [a is b] *)
Definition same_object (a b : schema) : bool := schema_eqb a b.

(** ** Schema matching *)

Definition fullname (s : schema) : string :=
  match s with
  | FixedSchema _ n _ | EnumSchema _ n _ | RecordSchema _ _ n _ => n
  | _ => EmptyString
  end.

(** [__same_type_to_match_schema__[w_type]], called when both schemas have
    the type [w_type]. *)
Definition same_type_to_match_schema (writers_schema readers_schema : schema)
  : bool :=
  match writers_schema, readers_schema with
  | RecordSchema _ t_record n _, RecordSchema _ _ m _ => String.eqb n m
  | RecordSchema _ t_error n _, RecordSchema _ _ m _ => String.eqb n m
  | RecordSchema _ t_request _ _, _ => true
  | FixedSchema _ n z, FixedSchema _ m y => String.eqb n m && (z =? y)
  | EnumSchema _ n _, EnumSchema _ m _ => String.eqb n m
  | MapSchema _ x, MapSchema _ y =>
      type_tag_eqb (schema_type x) (schema_type y)
  | ArraySchema _ x, ArraySchema _ y =>
      type_tag_eqb (schema_type x) (schema_type y)
  | PrimitiveSchema _ _, _ => true
  | UnionSchema _ _ _, _ => true
  | _, _ => false
  end.

Definition __valid_schema_promotion__ : list (type_tag * type_tag) :=
  [ (tag_int, tag_long);
    (tag_int, tag_float);
    (tag_int, tag_double);
    (tag_long, tag_float);
    (tag_long, tag_double);
    (tag_float, tag_double) ].

Definition is_union_tag (t : type_tag) : bool :=
  type_tag_eqb t tag_union || type_tag_eqb t tag_error_union.

Definition __match_schema__ (writers_schema readers_schema : schema) : bool :=
  let w_type := schema_type writers_schema in
  let r_type := schema_type readers_schema in
  if type_tag_eqb w_type r_type then
    same_type_to_match_schema writers_schema readers_schema
  else if is_union_tag w_type || is_union_tag r_type then true
  else existsb (fun p => type_tag_eqb (fst p) w_type
                         && type_tag_eqb (snd p) r_type)
         __valid_schema_promotion__.

Definition MATCH_SCHEMA_CACHE_MAX_LENGTH : Z := 20.

(** [__match_schema_cache__[key]] *)
Definition cache_get (c : match_cache) (w r : schema) : option bool :=
  match find (fun e => same_object (fst (fst e)) w
                       && same_object (snd (fst e)) r) c with
  | Some e => Some (snd e)
  | None => None
  end.

(** [match_schema] on the cache: the value returned and the cache left. *)
Definition match_schema (writers_schema readers_schema : schema)
  (c : match_cache) : bool * match_cache :=
  if same_object writers_schema readers_schema then (true, c)
  else
    match cache_get c writers_schema readers_schema with
    | Some value => (value, c)
    | None =>
        let c' := if Z.of_nat (List.length c) >? MATCH_SCHEMA_CACHE_MAX_LENGTH
                  then [] else c in
        let value := __match_schema__ writers_schema readers_schema in
        (value, ((writers_schema, readers_schema), value) :: c')
    end.

(** [__match_schema_cache__.clear()] *)
Definition cache_clear (c : match_cache) : match_cache := [].

(** ** Raising the module's exceptions

    [SchemaResolutionException.__init__] formats both schemas before it
    looks at them: [json.loads(str(None))] is a [ValueError], so the
    exception object exists only when both schemas are given. *)

Definition new_SchemaResolutionException (m : fail_msg)
  (writers_schema readers_schema : option schema) : exn :=
  match writers_schema, readers_schema with
  | Some w, Some r => SchemaResolutionException m w r
  | _, _ => PyError ValueError
  end.

(** ** Attribute access and indexing *)

Definition obind {A B} (o : outcome A) (k : A -> outcome B) : outcome B :=
  match o with
  | Ok a => k a
  | Raise e => Raise e
  | Diverge => Diverge
  end.

Definition omap_list {A B} (f : A -> outcome B) : list A -> outcome (list B) :=
  fix go (l : list A) : outcome (list B) :=
    match l with
    | [] => Ok []
    | x :: l' => obind (f x) (fun y => obind (go l') (fun ys => Ok (y :: ys)))
    end.

Definition attribute_error {A} : outcome A := Raise (PyError AttributeError).

Definition size_of (s : schema) : outcome Z :=
  match s with FixedSchema _ _ z => Ok z | _ => attribute_error end.

Definition symbols_of (s : schema) : outcome (list string) :=
  match s with EnumSchema _ _ l => Ok l | _ => attribute_error end.

Definition items_of (s : schema) : outcome schema :=
  match s with ArraySchema _ x => Ok x | _ => attribute_error end.

Definition values_of (s : schema) : outcome schema :=
  match s with MapSchema _ x => Ok x | _ => attribute_error end.

Definition schemas_of (s : schema) : outcome (list schema) :=
  match s with UnionSchema _ _ l => Ok l | _ => attribute_error end.

Definition fields_of (s : schema) : outcome (list field) :=
  match s with RecordSchema _ _ _ l => Ok l | _ => attribute_error end.

(** [l[i]]: a negative index counts from the end. *)
Definition py_index {A} (l : list A) (i : Z) : outcome A :=
  let n := Z.of_nat (List.length l) in
  let j := if i <? 0 then i + n else i in
  if (j <? 0) || (n <=? j) then Raise (PyError IndexError)
  else match nth_error l (Z.to_nat j) with
       | Some x => Ok x
       | None => Raise (PyError IndexError)
       end.

(** The items of [for x in v]. *)
Definition iterate (py : Builtins) (v : pyval) : outcome (list pyval) :=
  match v with
  | PList l | PTuple l => Ok l
  | PDict d => Ok (map fst d)
  | PStr s =>
      Ok (map (fun b => PStr (string_of_list_byte [b])) (list_byte_of_string s))
  | PUnicode s => Ok (map PUnicode (unicode_chars py s))
  | _ => Raise (PyError TypeError)
  end.

(** [dict(pairs)] and [d.update(pairs)] for text keys. *)
Definition dict_update {V} (d : list (string * V)) (pairs : list (string * V))
  : list (string * V) :=
  fold_left (fun d kv => dict_set d (fst kv) (snd kv)) pairs d.

(** ** Default values *)

Fixpoint read_default_value (py : Builtins) (field_schema : schema)
  (default_value : pyval) {struct field_schema} : outcome pyval :=
  match field_schema with
  | PrimitiveSchema _ t_null => Ok PNone
  | PrimitiveSchema _ t_boolean =>
      Ok (PBool (BinaryEncoder.truthy default_value))
  | PrimitiveSchema _ t_int => py_int py default_value
  | PrimitiveSchema _ t_long => py_long py default_value
  | PrimitiveSchema _ t_float | PrimitiveSchema _ t_double =>
      py_float py default_value
  | EnumSchema _ _ _ | FixedSchema _ _ _
  | PrimitiveSchema _ t_string | PrimitiveSchema _ t_bytes =>
      Ok default_value
  | ArraySchema _ items =>
      obind (iterate py default_value) (fun l =>
      obind (omap_list (read_default_value py items) l) (fun l' =>
      Ok (PList l')))
  | MapSchema _ values =>
      match default_value with
      | PDict d =>
          obind (omap_list
                   (fun kv => obind (read_default_value py values (snd kv))
                                (fun v => Ok (fst kv, v))) d)
            (fun d' => Ok (PDict d'))
      | _ => attribute_error
      end
  | UnionSchema _ _ schemas =>
      match schemas with
      | s :: _ => read_default_value py s default_value
      | [] => Raise (PyError IndexError)
      end
  | RecordSchema _ t_record _ fields =>
      obind (omap_list
               (fun f : field =>
                  match default_value with
                  | PDict d =>
                      let json_val := dict_get d (name f) in
                      let json_val :=
                        match json_val with
                        | PNone => default f
                        | _ => json_val
                        end in
                      obind (read_default_value py (type f) json_val)
                        (fun field_val => Ok (name f, field_val))
                  | _ => attribute_error
                  end) fields)
        (fun pairs => Ok (record_datum (dict_update [] pairs)))
  | RecordSchema _ t _ _ =>
      Raise (AvroException (msg_unknown_type (record_tag t)))
  end.

(** ** Skipping and reading

    The functions below call each other through the dispatch tables; the
    argument [fuel] bounds the depth of these calls and the turns of the
    [while] loops of the skippers (a negative block size can seek
    backwards, so such a loop need not end).  The [while] loops of the
    readers read at least one byte in each turn and are bounded by the
    bytes left in the source. *)

Definition diverge {A} : Dec A := fun st => (Diverge, st).

Definition bytes_left : Dec nat :=
  fun st => (Ok (List.length (remaining (source st))), st).

Definition match_schema_dec (writers_schema readers_schema : schema)
  : Dec bool :=
  fun st =>
    let (value, c) := match_schema writers_schema readers_schema (cache st) in
    (Ok value, {| source := source st; cache := c |}).

Section Skippers.

Local Open Scope dec_scope.

(** [skip_data] at the nested calls *)
Variable skip_data : schema -> Dec unit.

Definition skip_fixed (writers_schema : schema) : Dec unit :=
  size <- lift (size_of writers_schema) ;;
  BinaryDecoder.skip size.

Definition skip_enum (writers_schema : schema) : Dec unit :=
  BinaryDecoder.skip_int.

(** The [while block_count != 0] loop of [skip_array] and [skip_map];
    [skip_item] skips one item. *)
Fixpoint skip_blocks (fuel : nat) (skip_item : Dec unit) (block_count : Z)
  : Dec unit :=
  match fuel with
  | O => diverge
  | S fuel' =>
      if negb (block_count =? 0) then
        (if block_count <? 0 then
           block_size <- BinaryDecoder.read_long ;;
           BinaryDecoder.skip block_size
         else
           repeat_dec (Z.to_nat block_count) skip_item ;; ret tt) ;;
        block_count <- BinaryDecoder.read_long ;;
        skip_blocks fuel' skip_item block_count
      else ret tt
  end.

Definition skip_array (fuel : nat) (writers_schema : schema) : Dec unit :=
  items <- lift (items_of writers_schema) ;;
  block_count <- BinaryDecoder.read_long ;;
  skip_blocks fuel (skip_data items) block_count.

Definition skip_map (fuel : nat) (writers_schema : schema) : Dec unit :=
  block_count <- BinaryDecoder.read_long ;;
  skip_blocks fuel
    (BinaryDecoder.skip_utf8 ;;
     values <- lift (values_of writers_schema) ;;
     skip_data values)
    block_count.

Definition skip_union (writers_schema : schema) : Dec unit :=
  index_of_schema <- BinaryDecoder.read_long ;;
  schemas <- lift (schemas_of writers_schema) ;;
  match py_index schemas index_of_schema with
  | Raise (PyError IndexError) =>
      raise (new_SchemaResolutionException
               (msg_cant_access_branch_index index_of_schema
                  (Z.of_nat (List.length schemas)))
               (Some writers_schema) None)
  | Ok selected_writers_schema => skip_data selected_writers_schema
  | Raise e => raise e
  | Diverge => diverge
  end.

Definition skip_record (writers_schema : schema) : Dec unit :=
  fields <- lift (fields_of writers_schema) ;;
  for_each fields (fun f => skip_data (type f)) ;; ret tt.

(** [__type_to_skipper__[writers_schema.type](writers_schema, decoder)] *)
Definition type_to_skipper (fuel : nat) (writers_schema : schema)
  : Dec unit :=
  match writers_schema with
  | PrimitiveSchema _ t_null => BinaryDecoder.skip_null
  | PrimitiveSchema _ t_boolean => BinaryDecoder.skip_boolean
  | PrimitiveSchema _ t_string => BinaryDecoder.skip_utf8
  | PrimitiveSchema _ t_int => BinaryDecoder.skip_int
  | PrimitiveSchema _ t_long => BinaryDecoder.skip_long
  | PrimitiveSchema _ t_float => BinaryDecoder.skip_float
  | PrimitiveSchema _ t_double => BinaryDecoder.skip_double
  | PrimitiveSchema _ t_bytes => BinaryDecoder.skip_bytes
  | FixedSchema _ _ _ => skip_fixed writers_schema
  | EnumSchema _ _ _ => skip_enum writers_schema
  | ArraySchema _ _ => skip_array fuel writers_schema
  | MapSchema _ _ => skip_map fuel writers_schema
  | UnionSchema _ _ _ => skip_union writers_schema
  | RecordSchema _ _ _ _ => skip_record writers_schema
  end.

End Skippers.

(** [skip_data]; the [KeyError] of an unknown type tag becomes an
    [AvroException]. *)
Fixpoint skip_data (fuel : nat) (writers_schema : schema) : Dec unit :=
  match fuel with
  | O => diverge
  | S fuel' =>
      try_except
        (type_to_skipper (skip_data fuel') fuel' writers_schema)
        (fun e => match e with KeyError => true | _ => false end)
        (raise (AvroException
                  (msg_unknown_schema_type (schema_type writers_schema))))
  end.

(** The text of a string object. *)
Definition unicode_text (v : pyval) : string :=
  match v with PUnicode s | PStr s => s | _ => EmptyString end.

Section Readers.

Local Open Scope dec_scope.

Variable py : Builtins.

(** [read_data] and [skip_data] at the nested calls *)
Variable read_data : schema -> schema -> Dec pyval.
Variable skip_data : schema -> Dec unit.

Definition read_fixed (writers_schema readers_schema : schema)
  : Dec pyval :=
  size <- lift (size_of writers_schema) ;;
  s <- BinaryDecoder.read size ;;
  ret (PStr (string_of_list_byte s)).

Definition read_enum (writers_schema readers_schema : schema)
  : Dec pyval :=
  index_of_symbol <- BinaryDecoder.read_int ;;
  symbols <- lift (symbols_of writers_schema) ;;
  if Z.of_nat (List.length symbols) <=? index_of_symbol then
    raise (new_SchemaResolutionException
             (msg_cant_access_enum_index index_of_symbol
                (Z.of_nat (List.length symbols)))
             (Some writers_schema) (Some readers_schema))
  else
    read_symbol <- lift (py_index symbols index_of_symbol) ;;
    readers_symbols <- lift (symbols_of readers_schema) ;;
    if negb (existsb (String.eqb read_symbol) readers_symbols) then
      raise (new_SchemaResolutionException
               (msg_symbol_not_present read_symbol)
               (Some writers_schema) (Some readers_schema))
    else ret (PUnicode read_symbol).

(** The [while block_count != 0] loop of [read_array] and [read_map]:
    the items read, in order. *)
Fixpoint read_blocks {A} (turns : nat) (read_item : Dec A) (block_count : Z)
  : Dec (list A) :=
  match turns with
  | O => diverge
  | S turns' =>
      if negb (block_count =? 0) then
        block_count <-
          (if block_count <? 0 then
             block_size <- BinaryDecoder.read_long ;; ret (- block_count)
           else ret block_count) ;;
        block <- repeat_dec (Z.to_nat block_count) read_item ;;
        block_count <- BinaryDecoder.read_long ;;
        rest <- read_blocks turns' read_item block_count ;;
        ret (block ++ rest)
      else ret []
  end.

Definition read_array (writers_schema readers_schema : schema)
  : Dec pyval :=
  writers_items <- lift (items_of writers_schema) ;;
  readers_items <- lift (items_of readers_schema) ;;
  block_count <- BinaryDecoder.read_long ;;
  turns <- bytes_left ;;
  read_items <- read_blocks (S turns)
                  (read_data writers_items readers_items) block_count ;;
  ret (PList read_items).

Definition read_map (writers_schema readers_schema : schema)
  : Dec pyval :=
  block_count <- BinaryDecoder.read_long ;;
  turns <- bytes_left ;;
  pairs <- read_blocks (S turns)
             (key <- BinaryDecoder.read_utf8 py ;;
              writers_values <- lift (values_of writers_schema) ;;
              readers_values <- lift (values_of readers_schema) ;;
              value <- read_data writers_values readers_values ;;
              ret (unicode_text key, value))
             block_count ;;
  ret (record_datum (dict_update [] pairs)).

Definition read_union (writers_schema readers_schema : schema)
  : Dec pyval :=
  index_of_schema <- BinaryDecoder.read_long ;;
  schemas <- lift (schemas_of writers_schema) ;;
  match py_index schemas index_of_schema with
  | Raise (PyError IndexError) =>
      raise (new_SchemaResolutionException
               (msg_cant_access_branch_index index_of_schema
                  (Z.of_nat (List.length schemas)))
               (Some writers_schema) (Some readers_schema))
  | Ok selected_writers_schema =>
      read_data selected_writers_schema readers_schema
  | Raise e => raise e
  | Diverge => diverge
  end.

(** The first loop of the resolving [read_record]: the fields of the
    writer in order, [read_record] being the dictionary filled so far. *)
Fixpoint read_writers_fields (readers_fields_dict : list (string * field))
  (fields : list field) (read_record : list (string * pyval))
  : Dec (list (string * pyval)) :=
  match fields with
  | [] => ret read_record
  | f :: fields' =>
      read_record <-
        try_except
          (readers_field <-
             lift (match dict_lookup readers_fields_dict (name f) with
                   | Some x => Ok x
                   | None => Raise (PyError KeyError)
                   end) ;;
           field_val <- read_data (type f) (type readers_field) ;;
           ret (dict_set read_record (name f) field_val))
          (fun e => match e with KeyError => true | _ => false end)
          (skip_data (type f) ;; ret read_record) ;;
      read_writers_fields readers_fields_dict fields' read_record
  end.

(** The second loop: the items of [readers_fields_dict]. *)
Fixpoint fill_in_defaults (writers_schema readers_schema : schema)
  (writers_fields_dict : list (string * field))
  (items : list (string * field)) (read_record : list (string * pyval))
  : Dec (list (string * pyval)) :=
  match items with
  | [] => ret read_record
  | (field_name, f) :: items' =>
      read_record <-
        (if negb (has_key writers_fields_dict field_name) then
           if has_default f then
             field_val <- lift (read_default_value py (type f) (default f)) ;;
             ret (dict_set read_record (name f) field_val)
           else
             raise (new_SchemaResolutionException
                      (msg_no_default_value field_name)
                      (Some writers_schema) (Some readers_schema))
         else ret read_record) ;;
      fill_in_defaults writers_schema readers_schema writers_fields_dict
        items' read_record
  end.

Definition read_record (writers_schema readers_schema : schema)
  : Dec pyval :=
  if same_object readers_schema writers_schema then
    fields <- lift (fields_of writers_schema) ;;
    pairs <- for_each fields
               (fun f => v <- read_data (type f) (type f) ;;
                         ret (name f, v)) ;;
    ret (record_datum (dict_update [] pairs))
  else
    readers_fields <- lift (fields_of readers_schema) ;;
    let readers_fields_dict := fields_dict readers_fields in
    writers_fields <- lift (fields_of writers_schema) ;;
    read_record <- read_writers_fields readers_fields_dict
                     writers_fields [] ;;
    read_record <-
      (if (List.length read_record <? List.length readers_fields_dict)%nat
       then
         fill_in_defaults writers_schema readers_schema
           (fields_dict writers_fields) readers_fields_dict read_record
       else ret read_record) ;;
    ret (record_datum read_record).

(** [__type_to_decoder__[writers_schema.type]] *)
Definition type_to_decoder (writers_schema readers_schema : schema)
  : Dec pyval :=
  match writers_schema with
  | PrimitiveSchema _ t_null => BinaryDecoder.read_null
  | PrimitiveSchema _ t_boolean => BinaryDecoder.read_boolean
  | PrimitiveSchema _ t_string => BinaryDecoder.read_utf8 py
  | PrimitiveSchema _ t_int => n <- BinaryDecoder.read_int ;; ret (PInt n)
  | PrimitiveSchema _ t_long => n <- BinaryDecoder.read_long ;; ret (PInt n)
  | PrimitiveSchema _ t_float => BinaryDecoder.read_float py
  | PrimitiveSchema _ t_double => BinaryDecoder.read_double
  | PrimitiveSchema _ t_bytes => BinaryDecoder.read_bytes
  | FixedSchema _ _ _ => read_fixed writers_schema readers_schema
  | EnumSchema _ _ _ => read_enum writers_schema readers_schema
  | ArraySchema _ _ => read_array writers_schema readers_schema
  | MapSchema _ _ => read_map writers_schema readers_schema
  | UnionSchema _ _ _ => read_union writers_schema readers_schema
  | RecordSchema _ _ _ _ => read_record writers_schema readers_schema
  end.

(** The loop [for s in readers_schema.schemas] of [read_data]. *)
Fixpoint resolve_readers_union (writers_schema readers_schema : schema)
  (schemas : list schema) : Dec pyval :=
  match schemas with
  | [] =>
      raise (new_SchemaResolutionException msg_schemas_do_not_match
               (Some writers_schema) (Some readers_schema))
  | s :: schemas' =>
      m <- match_schema_dec writers_schema s ;;
      if m then read_data writers_schema s
      else resolve_readers_union writers_schema readers_schema schemas'
  end.

Definition read_data_body (writers_schema readers_schema : schema)
  : Dec pyval :=
  let dispatch :=
    try_except
      (type_to_decoder writers_schema readers_schema)
      (fun e => match e with KeyError => true | _ => false end)
      (raise (AvroException
                (msg_cannot_read_unknown_schema_type
                   (schema_type writers_schema)))) in
  if negb (same_object readers_schema writers_schema) then
    m <- match_schema_dec writers_schema readers_schema ;;
    if negb m then
      raise (new_SchemaResolutionException msg_schemas_do_not_match
               (Some writers_schema) (Some readers_schema))
    else if negb (is_union_tag (schema_type writers_schema))
            && is_union_tag (schema_type readers_schema) then
      schemas <- lift (schemas_of readers_schema) ;;
      resolve_readers_union writers_schema readers_schema schemas
    else dispatch
  else dispatch.

End Readers.

Fixpoint read_data (py : Builtins) (fuel : nat)
  (writers_schema readers_schema : schema) : Dec pyval :=
  match fuel with
  | O => diverge
  | S fuel' =>
      read_data_body py (read_data py fuel') (skip_data fuel')
        writers_schema readers_schema
  end.

(** ** Writing *)

(** [for x in l] on the encoder. *)
Definition enc_for_each {A} (body : A -> Enc unit) : list A -> Enc unit :=
  fix go (l : list A) : Enc unit :=
    match l with
    | [] => enc_ret tt
    | x :: l' => enc_bind (body x) (fun _ => go l')
    end.

(** [for i, candidate_schema in enumerate(schemas)] up to the [break],
    and what follows the loop: [selected i s] when the candidate [s] at
    index [i] is the first that holds, [unselected] when none does. *)
Definition resolve_union {A} (holds : schema -> bool)
  (selected : Z -> schema -> A) (unselected : A) : list schema -> Z -> A :=
  fix go (l : list schema) (i : Z) : A :=
    match l with
    | [] => unselected
    | candidate_schema :: l' =>
        if holds candidate_schema then selected i candidate_schema
        else go l' (i + 1)
    end.

(** [symbols.index(datum)] *)
Fixpoint list_index (datum : pyval) (symbols : list string) (i : Z)
  : outcome Z :=
  match symbols with
  | [] => Raise (PyError ValueError)
  | symbol :: symbols' =>
      if key_is datum symbol then Ok i else list_index datum symbols' (i + 1)
  end.

Section Writers.

Local Open Scope enc_scope.

Variable py : Builtins.

(** [write_data] at the nested calls *)
Variable write_data : schema -> pyval -> Enc unit.

(** [encoder.write(datum)]: the datum goes to the writer as it is. *)
Definition write_fixed (writers_schema : schema) (datum : pyval)
  : Enc unit :=
  match datum with
  | PStr s => BinaryEncoder.write (list_byte_of_string s)
  | _ => writer_write py datum
  end.

Definition write_enum (symbols : list string) (datum : pyval) : Enc unit :=
  index_of_datum <- enc_lift (list_index datum symbols 0) ;;
  BinaryEncoder.write_int index_of_datum.

Definition write_array (items : schema) (datum : pyval) : Enc unit :=
  length <- enc_lift (BinaryEncoder.len py datum) ;;
  (if length >? 0 then
     BinaryEncoder.write_long length ;;
     l <- enc_lift (iterate py datum) ;;
     enc_for_each (fun item => write_data items item) l
   else enc_ret tt) ;;
  BinaryEncoder.write_long 0.

Definition write_map (values : schema) (datum : pyval) : Enc unit :=
  length <- enc_lift (BinaryEncoder.len py datum) ;;
  (if length >? 0 then
     BinaryEncoder.write_long length ;;
     match datum with
     | PDict d =>
         enc_for_each
           (fun kv => BinaryEncoder.write_utf8 py (fst kv) ;;
                      write_data values (snd kv)) d
     | _ => enc_raise (PyError AttributeError)
     end
   else enc_ret tt) ;;
  BinaryEncoder.write_long 0.

Definition write_union (writers_schema : schema) (schemas : list schema)
  (datum : pyval) : Enc unit :=
  resolve_union (fun candidate_schema => validate candidate_schema datum)
    (fun index_of_schema selected_schema =>
       BinaryEncoder.write_long index_of_schema ;;
       write_data selected_schema datum)
    (enc_raise (AvroTypeException writers_schema datum))
    schemas 0.

Definition write_record (fields : list field) (datum : pyval) : Enc unit :=
  enc_for_each
    (fun f : field =>
       match datum with
       | PDict d => write_data (type f) (dict_get d (name f))
       | _ => enc_raise (PyError AttributeError)
       end) fields.

(** [__datum_to_encoder__[writers_schema.type]] *)
Definition datum_to_encoder (writers_schema : schema) (datum : pyval)
  : Enc unit :=
  match writers_schema with
  | PrimitiveSchema _ t_null => BinaryEncoder.write_null datum
  | PrimitiveSchema _ t_boolean => BinaryEncoder.write_boolean datum
  | PrimitiveSchema _ t_string => BinaryEncoder.write_utf8 py datum
  | PrimitiveSchema _ t_int | PrimitiveSchema _ t_long =>
      n <- enc_lift (BinaryEncoder.int_operand datum) ;;
      BinaryEncoder.write_long n
  | PrimitiveSchema _ t_float => BinaryEncoder.write_float py datum
  | PrimitiveSchema _ t_double => BinaryEncoder.write_double py datum
  | PrimitiveSchema _ t_bytes => BinaryEncoder.write_bytes py datum
  | FixedSchema _ _ _ => write_fixed writers_schema datum
  | EnumSchema _ _ symbols => write_enum symbols datum
  | ArraySchema _ items => write_array items datum
  | MapSchema _ values => write_map values datum
  | UnionSchema _ _ schemas => write_union writers_schema schemas datum
  | RecordSchema _ _ _ fields => write_record fields datum
  end.

(** [try: ... except Exception:], every exception becomes an
    [AvroException]. *)
Definition unknown_type_on_exception (writers_schema : schema)
  (m : Enc unit) : Enc unit :=
  match m with
  | (Raise _, out) =>
      (Raise (AvroException (msg_unknown_type (schema_type writers_schema))),
       out)
  | r => r
  end.

End Writers.

Fixpoint write_data (py : Builtins) (writers_schema : schema) (datum : pyval)
  {struct writers_schema} : Enc unit :=
  unknown_type_on_exception writers_schema
    (datum_to_encoder py (write_data py) writers_schema datum).

(** ** Induction over values and schemas

    The principles that reach below the lists of the nested types. *)

Section PyvalInduction.

Variable P : pyval -> Prop.

Hypothesis HNone : P PNone.
Hypothesis HBool : forall b, P (PBool b).
Hypothesis HInt : forall n, P (PInt n).
Hypothesis HFloat : forall bits, P (PFloat bits).
Hypothesis HStr : forall s, P (PStr s).
Hypothesis HUnicode : forall s, P (PUnicode s).
Hypothesis HList : forall l, Forall P l -> P (PList l).
Hypothesis HTuple : forall l, Forall P l -> P (PTuple l).
Hypothesis HDict :
  forall d, Forall (fun kv => P (fst kv) /\ P (snd kv)) d -> P (PDict d).

Fixpoint pyval_induction (v : pyval) : P v :=
  match v with
  | PNone => HNone
  | PBool b => HBool b
  | PInt n => HInt n
  | PFloat bits => HFloat bits
  | PStr s => HStr s
  | PUnicode s => HUnicode s
  | PList l =>
      HList l
        ((fix go (l : list pyval) : Forall P l :=
            match l with
            | [] => Forall_nil P
            | x :: l' => Forall_cons x (pyval_induction x) (go l')
            end) l)
  | PTuple l =>
      HTuple l
        ((fix go (l : list pyval) : Forall P l :=
            match l with
            | [] => Forall_nil P
            | x :: l' => Forall_cons x (pyval_induction x) (go l')
            end) l)
  | PDict d =>
      HDict d
        ((fix go (d : list (pyval * pyval))
            : Forall (fun kv => P (fst kv) /\ P (snd kv)) d :=
            match d with
            | [] => Forall_nil _
            | kv :: d' =>
                Forall_cons kv
                  (conj (pyval_induction (fst kv))
                        (pyval_induction (snd kv)))
                  (go d')
            end) d)
  end.

End PyvalInduction.

Section SchemaInduction.

Variable P : schema -> Prop.

Hypothesis HPrimitive : forall oid t, P (PrimitiveSchema oid t).
Hypothesis HFixed : forall oid n z, P (FixedSchema oid n z).
Hypothesis HEnum : forall oid n l, P (EnumSchema oid n l).
Hypothesis HArray : forall oid x, P x -> P (ArraySchema oid x).
Hypothesis HMap : forall oid x, P x -> P (MapSchema oid x).
Hypothesis HUnion :
  forall oid t l, Forall P l -> P (UnionSchema oid t l).
Hypothesis HRecord :
  forall oid t n l,
    Forall (fun f : field => P (type f)) l -> P (RecordSchema oid t n l).

Fixpoint schema_induction (s : schema) : P s :=
  match s with
  | PrimitiveSchema oid t => HPrimitive oid t
  | FixedSchema oid n z => HFixed oid n z
  | EnumSchema oid n l => HEnum oid n l
  | ArraySchema oid x => HArray oid x (schema_induction x)
  | MapSchema oid x => HMap oid x (schema_induction x)
  | UnionSchema oid t l =>
      HUnion oid t l
        ((fix go (l : list schema) : Forall P l :=
            match l with
            | [] => Forall_nil P
            | x :: l' => Forall_cons x (schema_induction x) (go l')
            end) l)
  | RecordSchema oid t n l =>
      HRecord oid t n l
        ((fix go (l : list field)
            : Forall (fun f : field => P (type f)) l :=
            match l with
            | [] => Forall_nil _
            | f :: l' => Forall_cons f (schema_induction (type f)) (go l')
            end) l)
  end.

End SchemaInduction.

(** ** Vocabulary of the statements *)

(** A decoder that has consumed [consumed] and has [rest] before it. *)
Definition decoding (consumed rest : list byte) (c : match_cache) : state :=
  {| source := {| buf := consumed ++ rest; pos := List.length consumed |};
     cache := c |}.

(** The predicate of section 4.3 without its cache: the same object
    matches, otherwise the rules are computed. *)
Definition uncached_match (writers_schema readers_schema : schema) : bool :=
  if same_object writers_schema readers_schema then true
  else __match_schema__ writers_schema readers_schema.

(** The states of [__match_schema_cache__]: empty when the module is
    loaded, then changed by [match_schema] and by clearing. *)
Inductive cache_state : match_cache -> Prop :=
| cache_initial : cache_state []
| cache_after_match (w r : schema) (c : match_cache) :
    cache_state c -> cache_state (snd (match_schema w r c))
| cache_after_clear (c : match_cache) :
    cache_state c -> cache_state (cache_clear c).

(** Every entry holds what [__match_schema__] computes for its key. *)
Definition cache_sound (c : match_cache) : Prop :=
  Forall (fun e => snd e = __match_schema__ (fst (fst e)) (snd (fst e))) c.

(** The pairs of type tags of the permitted promotions. *)
Definition is_promotion (w_type r_type : type_tag) : Prop :=
  In (w_type, r_type) __valid_schema_promotion__.

(** ** The entry points *)

Module DatumReader.

(** [read]: an unset reader's schema is the writer's schema. *)
Definition read (py : Builtins) (fuel : nat) (writers_schema : schema)
  (readers_schema : option schema) : Dec pyval :=
  let readers_schema :=
    match readers_schema with
    | None => writers_schema
    | Some r => r
    end in
  read_data py fuel writers_schema readers_schema.

End DatumReader.

Module DatumWriter.

Definition write (py : Builtins) (writers_schema : schema) (datum : pyval)
  : Enc unit :=
  if negb (validate writers_schema datum) then
    enc_raise (AvroTypeException writers_schema datum)
  else write_data py writers_schema datum.

End DatumWriter.

(** ** An instance of the interpreter's conversions

    IEEE-754 conversions with rounding to nearest, ties to even, and
    overflow as an error; [int], [long] and [float] of numbers and of text
    that is a decimal integer; UTF-8 as in RFC 3629 with the surrogates
    allowed.  The examples are evaluated with it. *)

Module Reference.

(** [m / 2 ^ sh] rounded to nearest, ties to even. *)
Definition round_shift (m sh : Z) : Z :=
  if sh <=? 0 then Z.shiftl m (- sh)
  else
    let q := Z.shiftr m sh in
    let r := Z.land m (Z.ones sh) in
    let half := Z.shiftl 1 (sh - 1) in
    if (r >? half) || ((r =? half) && Z.odd q) then q + 1 else q.

(** The bit pattern of [(-1)^sign * m * 2^e] in the format with [p] bits
    of precision and [w] bits of exponent, [None] when it overflows. *)
Definition ieee_encode (p w : Z) (sign : bool) (m e : Z) : option Z :=
  let sign_bit := if sign then Z.shiftl 1 (p - 1 + w) else 0 in
  let emin := 3 - 2 ^ (w - 1) - p in
  if m =? 0 then Some sign_bit
  else
    let sh := Z.max (Z.log2 m - (p - 1)) (emin - e) in
    let q := round_shift m sh in
    let carry := q =? 2 ^ p in
    let biased :=
      if q <? 2 ^ (p - 1) then 0
      else e + sh - emin + 1 + (if carry then 1 else 0) in
    let frac :=
      if carry then 0
      else if q <? 2 ^ (p - 1) then q else q - 2 ^ (p - 1) in
    if 2 ^ w - 1 <=? biased then None
    else Some (sign_bit + biased * 2 ^ (p - 1) + frac).

Definition overflow_error {A} (o : option A) : outcome A :=
  match o with
  | Some x => Ok x
  | None => Raise (PyError OverflowError)
  end.

Definition double_of_int (n : Z) : outcome Z :=
  overflow_error (ieee_encode 53 11 (n <? 0) (Z.abs n) 0).

Definition single_of_double (bits : Z) : outcome Z :=
  let sign := Z.testbit bits 63 in
  let E := Z.land (Z.shiftr bits 52) 2047 in
  let M := Z.land bits (Z.ones 52) in
  let sign_bit := if sign then Z.shiftl 1 31 else 0 in
  if E =? 2047 then
    if M =? 0 then Ok (sign_bit + 2139095040)
    else Ok (sign_bit + 2143289344 + Z.land (Z.shiftr M 29) (Z.ones 22))
  else
    overflow_error
      (ieee_encode 24 8 sign (if E =? 0 then M else M + 2 ^ 52)
         (Z.max E 1 - 1075)).

Definition double_of_single (bits : Z) : Z :=
  let sign := Z.testbit bits 31 in
  let E := Z.land (Z.shiftr bits 23) 255 in
  let M := Z.land bits (Z.ones 23) in
  let sign_bit := if sign then Z.shiftl 1 63 else 0 in
  if E =? 255 then sign_bit + Z.shiftl 2047 52 + Z.shiftl M 29
  else
    match ieee_encode 53 11 sign (if E =? 0 then M else M + 2 ^ 23)
            (Z.max E 1 - 150) with
    | Some b => b
    | None => 0
    end.

(** The digits of a decimal integer, most significant first. *)
Fixpoint decimal (digits : list byte) (acc : Z) : option Z :=
  match digits with
  | [] => Some acc
  | d :: digits' =>
      let v := ord d - 48 in
      if (0 <=? v) && (v <=? 9) then decimal digits' (10 * acc + v)
      else None
  end.

Definition int_of_text (s : string) : outcome Z :=
  let parse digits :=
    match digits with
    | [] => None
    | _ => decimal digits 0
    end in
  let r :=
    match list_byte_of_string s with
    | sign :: digits =>
        if ord sign =? 45 then option_map Z.opp (parse digits)
        else if ord sign =? 43 then parse digits
        else parse (sign :: digits)
    | [] => None
    end in
  match r with
  | Some n => Ok n
  | None => Raise (PyError ValueError)
  end.

(** The integer part of a double, towards zero. *)
Definition int_of_double (bits : Z) : outcome Z :=
  let E := Z.land (Z.shiftr bits 52) 2047 in
  let M := Z.land bits (Z.ones 52) in
  if E =? 2047 then
    Raise (PyError (if M =? 0 then OverflowError else ValueError))
  else
    let m := if E =? 0 then M else M + 2 ^ 52 in
    let e := Z.max E 1 - 1075 in
    let a := if e <? 0 then Z.shiftr m (- e) else Z.shiftl m e in
    Ok (if Z.testbit bits 63 then - a else a).

Definition py_int (v : pyval) : outcome pyval :=
  match v with
  | PInt n => Ok (PInt n)
  | PBool b => Ok (PInt (if b then 1 else 0))
  | PFloat bits => obind (int_of_double bits) (fun n => Ok (PInt n))
  | PStr s | PUnicode s => obind (int_of_text s) (fun n => Ok (PInt n))
  | _ => Raise (PyError TypeError)
  end.

Definition py_float (v : pyval) : outcome pyval :=
  match v with
  | PFloat bits => Ok (PFloat bits)
  | PInt n => obind (double_of_int n) (fun b => Ok (PFloat b))
  | PBool b =>
      obind (double_of_int (if b then 1 else 0)) (fun b => Ok (PFloat b))
  | PStr s | PUnicode s =>
      obind (int_of_text s) (fun n =>
      obind (double_of_int n) (fun b => Ok (PFloat b)))
  | _ => Raise (PyError TypeError)
  end.

Definition is_continuation (b : byte) : bool :=
  (128 <=? ord b) && (ord b <? 192).

Fixpoint utf8_ok (l : list byte) : bool :=
  match l with
  | [] => true
  | b :: l1 =>
      let n := ord b in
      if n <? 128 then utf8_ok l1
      else if (194 <=? n) && (n <=? 223) then
        match l1 with
        | c1 :: l2 => is_continuation c1 && utf8_ok l2
        | _ => false
        end
      else if (224 <=? n) && (n <=? 239) then
        match l1 with
        | c1 :: c2 :: l3 =>
            is_continuation c1 && is_continuation c2
            && (negb (n =? 224) || (160 <=? ord c1))
            && utf8_ok l3
        | _ => false
        end
      else if (240 <=? n) && (n <=? 244) then
        match l1 with
        | c1 :: c2 :: c3 :: l4 =>
            is_continuation c1 && is_continuation c2 && is_continuation c3
            && (negb (n =? 240) || (144 <=? ord c1))
            && (negb (n =? 244) || (ord c1 <? 144))
            && utf8_ok l4
        | _ => false
        end
      else false
  end.

(** A byte that starts a character and the continuation bytes after
    it. *)
Fixpoint characters (l : list byte) (current : list byte)
  : list (list byte) :=
  match l with
  | [] => match current with [] => [] | _ => [rev current] end
  | b :: l' =>
      if is_continuation b then characters l' (b :: current)
      else
        match current with
        | [] => characters l' [b]
        | _ => rev current :: characters l' [b]
        end
  end.

Definition unicode_chars (s : string) : list string :=
  map string_of_list_byte (characters (list_byte_of_string s) []).

Definition utf8_valid (s : string) : bool :=
  utf8_ok (list_byte_of_string s).

(** The writer is an [io.BytesIO]: it takes a [str] and nothing else. *)
Definition writer_write (datum : pyval) : outcome unit * list byte :=
  (Raise (PyError TypeError), []).

Definition builtins : Builtins.
Proof.
  refine (Build_Builtins double_of_int single_of_double double_of_single
            py_int py_int py_float unicode_chars utf8_valid _ writer_write).
  intros s. unfold is_ascii, utf8_valid.
  induction (list_byte_of_string s) as [| b l IH]; simpl;
    [reflexivity |].
  intros H. apply andb_true_iff in H. destruct H as [Hb Hl].
  unfold ord. apply N.ltb_lt in Hb.
  destruct (Z.ltb_spec (Z.of_N (Byte.to_N b)) 128) as [_ | Hge];
    [exact (IH Hl) | lia].
Defined.

(** [binascii.crc32]: the CRC-32 of ISO 3309, bit by bit with the
    reflected polynomial, as a signed integer of 32 bits. *)
Fixpoint crc32_bits (n : nat) (crc : Z) : Z :=
  match n with
  | O => crc
  | S n' =>
      crc32_bits n'
        (if Z.odd crc then Z.lxor (Z.shiftr crc 1) 3988292384
         else Z.shiftr crc 1)
  end.

Definition crc32_update (crc : Z) (b : byte) : Z :=
  crc32_bits 8 (Z.lxor crc (ord b)).

Definition crc32 (bytes : list byte) : Z :=
  let crc := Z.lxor (fold_left crc32_update bytes 4294967295) 4294967295 in
  if crc <? 2147483648 then crc else crc - 4294967296.

End Reference.

(** ** Round trips: well-formed schemas, Python objects, normal forms *)

(** No later branch of a union matches an earlier one by the rules for
    equal type tags: Avro allows one branch for each unnamed type and
    distinct full names for the named ones. *)
Fixpoint distinct_branches (schemas : list schema) : bool :=
  match schemas with
  | [] => true
  | s :: schemas' =>
      forallb (fun b => negb (type_tag_eqb (schema_type b) (schema_type s)
                              && same_type_to_match_schema b s)) schemas'
      && distinct_branches schemas'
  end.

Fixpoint distinct_names (names : list string) : bool :=
  match names with
  | [] => true
  | n :: names' =>
      negb (existsb (String.eqb n) names') && distinct_names names'
  end.

Definition countable (n : nat) : bool := Z.of_nat n <? 2 ^ 63.

(** The schemas that [avro.schema] builds: a union holds no union and no
    two branches that match as equals, the fields of a record have
    different names, and the lists are shorter than [2 ^ 63]. *)
Fixpoint well_formed (s : schema) : bool :=
  match s with
  | PrimitiveSchema _ _ | FixedSchema _ _ _ => true
  | EnumSchema _ _ symbols => countable (List.length symbols)
  | ArraySchema _ items => well_formed items
  | MapSchema _ values => well_formed values
  | UnionSchema _ _ schemas =>
      forallb well_formed schemas
      && forallb (fun b => negb (is_union_tag (schema_type b))) schemas
      && distinct_branches schemas
      && countable (List.length schemas)
  | RecordSchema _ _ _ fields =>
      forallb (fun f => well_formed (type f)) fields
      && distinct_names (map name fields)
  end.

(** The values that are Python objects: a [unicode] holds text, and
    lengths are below [2 ^ 63]. *)
Fixpoint python_object (py : Builtins) (v : pyval) : bool :=
  match v with
  | PStr s => countable (String.length s)
  | PUnicode s => countable (String.length s) && utf8_valid py s
  | PList l | PTuple l =>
      countable (List.length l) && forallb (python_object py) l
  | PDict d =>
      countable (List.length d)
      && forallb (fun kv => python_object py (fst kv)
                            && python_object py (snd kv)) d
  | _ => true
  end.

(** The number of nested calls of [read_data] that reading under the one
    schema [s] takes. *)
Fixpoint schema_depth (s : schema) : nat :=
  match s with
  | PrimitiveSchema _ _ | FixedSchema _ _ _ | EnumSchema _ _ _ => 1
  | ArraySchema _ items => S (schema_depth items)
  | MapSchema _ values => S (schema_depth values)
  | UnionSchema _ _ schemas =>
      S (S (fold_right (fun b acc => Nat.max (schema_depth b) acc) 0%nat
              schemas))
  | RecordSchema _ _ _ fields =>
      S (fold_right (fun f acc => Nat.max (schema_depth (type f)) acc) 0%nat
           fields)
  end.

(** The normal form of a datum under a schema, the value that the datum
    stands for: integers for booleans where an integer is meant, text as
    [unicode], a float at the precision of the schema, sequences as lists,
    a record as the dictionary of its fields (an absent field is [None]),
    the symbol of the schema for an enum, and the first valid branch for a
    union. *)
Fixpoint normalize (py : Builtins) (s : schema) (datum : pyval) {struct s}
  : pyval :=
  match s with
  | PrimitiveSchema _ t_null => PNone
  | PrimitiveSchema _ t_boolean => datum
  | PrimitiveSchema _ t_int | PrimitiveSchema _ t_long =>
      PInt (int_value datum)
  | PrimitiveSchema _ t_float =>
      match BinaryEncoder.float_bits py datum with
      | Ok bits => PFloat (double_of_single py (Z.land bits (Z.ones 32)))
      | _ => datum
      end
  | PrimitiveSchema _ t_double =>
      match BinaryEncoder.double_bits py datum with
      | Ok bits => PFloat (Z.land bits (Z.ones 64))
      | _ => datum
      end
  | PrimitiveSchema _ t_bytes => datum
  | PrimitiveSchema _ t_string => PUnicode (unicode_text datum)
  | FixedSchema _ _ _ => datum
  | EnumSchema _ _ symbols =>
      match find (key_is datum) symbols with
      | Some symbol => PUnicode symbol
      | None => datum
      end
  | ArraySchema _ items =>
      match datum with
      | PList l | PTuple l => PList (map (normalize py items) l)
      | _ => datum
      end
  | MapSchema _ values =>
      match datum with
      | PDict d =>
          record_datum
            (dict_update []
               (map (fun kv => (unicode_text (fst kv),
                                normalize py values (snd kv))) d))
      | _ => datum
      end
  | UnionSchema _ _ schemas =>
      resolve_union (fun b => validate b datum)
        (fun _ b => normalize py b datum) datum schemas 0
  | RecordSchema _ _ _ fields =>
      match datum with
      | PDict d =>
          record_datum
            (dict_update []
               (map (fun f : field =>
                       (name f, normalize py (type f) (dict_get d (name f))))
                  fields))
      | _ => datum
      end
  end.


(** [reads_back m out a]: wherever the bytes [out] stand in the source,
    and whatever the cache holds of right, [m] returns [a], has then
    consumed exactly [out], and leaves the cache right. *)
Definition reads_back {A} (m : Dec A) (out : list byte) (a : A) : Prop :=
  forall consumed rest c,
    cache_sound c ->
    exists c',
      m (decoding consumed (out ++ rest) c)
      = (Ok a, decoding (consumed ++ out) rest c')
      /\ cache_sound c'.

(** [passes m out a]: wherever the bytes [out] stand in the source, [m]
    returns [a], has then consumed exactly [out], and has left the cache
    as it was. *)
Definition passes {A} (m : Dec A) (out : list byte) (a : A) : Prop :=
  forall consumed rest c,
    m (decoding consumed (out ++ rest) c)
    = (Ok a, decoding (consumed ++ out) rest c).

(** [with_cache st c]: the state [st] with the cache [c]. *)
Definition with_cache (st : state) (c : match_cache) : state :=
  {| source := source st; cache := c |}.

(** [cache_blind m]: [m] neither looks at the match cache nor changes
    it. *)
Definition cache_blind {A} (m : Dec A) : Prop :=
  forall st c, m (with_cache st c) = (fst (m st), with_cache (snd (m st)) c).

(** ** Example schemas and data *)

Module Examples.

Local Open Scope string_scope.

Definition null_schema : schema := PrimitiveSchema 1 t_null.
Definition int_schema : schema := PrimitiveSchema 2 t_int.
Definition long_schema : schema := PrimitiveSchema 3 t_long.
Definition string_schema : schema := PrimitiveSchema 4 t_string.

(** [array<int>] *)
Definition array_of_int : schema := ArraySchema 5 int_schema.

(** [union[null, string]] *)
Definition null_or_string : schema :=
  UnionSchema 6 t_union [null_schema; string_schema].

(** [enum E {A, B, C}], a reader's [enum E {A, C}] and a reader's
    [enum E {A, B}] *)
Definition enum_abc : schema := EnumSchema 7 "E" ["A"; "B"; "C"].
Definition enum_ac : schema := EnumSchema 8 "E" ["A"; "C"].
Definition enum_ab : schema := EnumSchema 23 "E" ["A"; "B"].

(** writer [record R {a: int}], reader
    [record R {a: int, b: string default "x"}] and a reader whose [b] has
    no default *)
Definition record_a : schema :=
  RecordSchema 9 t_record "R" [Field "a" int_schema false PNone].
Definition record_a_b_default : schema :=
  RecordSchema 12 t_record "R"
    [Field "a" (PrimitiveSchema 10 t_int) false PNone;
     Field "b" (PrimitiveSchema 11 t_string) true (PUnicode "x")].
Definition record_a_b : schema :=
  RecordSchema 15 t_record "R"
    [Field "a" (PrimitiveSchema 13 t_int) false PNone;
     Field "b" (PrimitiveSchema 14 t_string) false PNone].

(** A union of two array schemas (not one that [avro.schema] builds) and a
    datum of its second branch *)
Definition arrays_of_int : schema :=
  ArraySchema 18 (ArraySchema 17 (PrimitiveSchema 16 t_int)).
Definition arrays_of_string : schema :=
  ArraySchema 21 (ArraySchema 20 (PrimitiveSchema 19 t_string)).
Definition two_arrays : schema :=
  UnionSchema 22 t_union [arrays_of_int; arrays_of_string].
Definition array_of_a : pyval := PList [PList [PUnicode "a"]].

End Examples.

(* ================================================================== *)
(** * Theorems *)

(** ** Bytes and bits *)

Lemma chr_ok (v : Z) :
  0 <= v < 256 -> exists b, chr v = Ok b /\ ord b = v.
Proof.
  intros Hv. unfold chr.
  destruct (Z.ltb_spec v 0) as [Hneg | _]; [lia |].
  destruct (Byte.of_N (Z.to_N v)) as [b |] eqn:E.
  - exists b. split; [reflexivity |].
    unfold ord. apply Byte.to_of_N in E. rewrite E. lia.
  - apply Byte.of_N_None_iff in E. lia.
Qed.

Lemma ord_range (b : byte) : 0 <= ord b < 256.
Proof.
  unfold ord. pose proof (Byte.to_N_bounded b). lia.
Qed.

Lemma land_127_range (z : Z) : 0 <= Z.land z 127 < 128.
Proof.
  change 127 with (Z.ones 7). rewrite Z.land_ones by lia.
  change (2 ^ 7) with 128. apply Z.mod_pos_bound. lia.
Qed.

Lemma small_iff_no_high_bits (z : Z) :
  0 <= z -> (Z.land z (Z.lnot 127) =? 0) = (z <? 128).
Proof.
  intros Hz.
  assert (Hsplit : Z.land z (Z.lnot 127) = Z.shiftl (Z.shiftr z 7) 7).
  { apply Z.bits_inj'. intros k Hk.
    rewrite Z.land_spec, Z.lnot_spec by lia.
    change 127 with (Z.ones 7).
    destruct (Z.ltb_spec k 7) as [Hlt | Hge].
    - rewrite Z.ones_spec_low by lia.
      rewrite Z.shiftl_spec_low by lia. simpl. apply andb_false_r.
    - rewrite Z.ones_spec_high by lia.
      rewrite Z.shiftl_spec by lia. rewrite Z.shiftr_spec by lia.
      simpl. rewrite andb_true_r. f_equal. lia. }
  rewrite Hsplit, Z.shiftl_mul_pow2, Z.shiftr_div_pow2 by lia.
  change (2 ^ 7) with 128.
  destruct (Z.ltb_spec z 128) as [Hlt | Hge].
  - rewrite Z.div_small by lia. reflexivity.
  - apply Z.eqb_neq.
    assert (1 <= z / 128) by (apply Z.div_le_lower_bound; lia). lia.
Qed.

Lemma continuation_byte (z : Z) :
  Z.lor (Z.land z 127) 128 = Z.land z 127 + 128.
Proof.
  assert (H : Z.land (Z.land z 127) 128 = 0).
  { apply Z.bits_inj'. intros k Hk. rewrite Z.land_spec, Z.bits_0.
    change 128 with (2 ^ 7). rewrite Z.pow2_bits_eqb by lia.
    destruct (Z.eqb_spec 7 k) as [<- | Hne]; [| apply andb_false_r].
    rewrite andb_true_r. change 127 with (Z.ones 7).
    rewrite Z.land_spec, Z.ones_spec_high by lia. apply andb_false_r. }
  rewrite <- Z.lxor_lor by exact H.
  symmetry. apply Z.add_nocarry_lxor. exact H.
Qed.

(** ** The byte source *)

Lemma remaining_decoding (pre rest : list byte) (c : match_cache) :
  remaining (source (decoding pre rest c)) = rest.
Proof.
  unfold remaining, decoding. simpl.
  rewrite skipn_app, skipn_all, Nat.sub_diag. reflexivity.
Qed.

Lemma decoding_app (pre bs rest : list byte) (c : match_cache) :
  {| source := {| buf := pre ++ bs ++ rest;
                  pos := List.length pre + List.length bs |};
     cache := c |} = decoding (pre ++ bs) rest c.
Proof.
  unfold decoding. rewrite <- app_assoc, length_app. reflexivity.
Qed.

Lemma read_decoding (n : Z) (pre bs rest : list byte) (c : match_cache) :
  n = Z.of_nat (List.length bs) ->
  BinaryDecoder.read n (decoding pre (bs ++ rest) c)
  = (Ok bs, decoding (pre ++ bs) rest c).
Proof.
  intros ->. unfold BinaryDecoder.read.
  rewrite remaining_decoding.
  destruct (Z.ltb_spec (Z.of_nat (List.length bs)) 0) as [H | _]; [lia |].
  destruct (Z.ltb_spec (Z.of_nat (List.length (bs ++ rest)))
              (Z.of_nat (List.length bs))) as [H | _].
  { rewrite length_app in H. lia. }
  simpl orb. cbv iota.
  rewrite Nat2Z.id, firstn_app, firstn_all, Nat.sub_diag, app_nil_r.
  simpl. rewrite decoding_app. reflexivity.
Qed.

Lemma read_ord_decoding (pre : list byte) (b : byte) (rest : list byte)
  (c : match_cache) :
  BinaryDecoder.read_ord (decoding pre (b :: rest) c)
  = (Ok (ord b), decoding (pre ++ [b]) rest c).
Proof.
  unfold BinaryDecoder.read_ord, bind.
  change (b :: rest) with ([b] ++ rest).
  rewrite (read_decoding 1 pre [b] rest c) by reflexivity.
  reflexivity.
Qed.

(** ** Zig-zag and the variable-length code *)

Lemma split_low_group (z shift : Z) :
  0 <= shift ->
  Z.lor (Z.shiftl (Z.land z 127) shift) (Z.shiftl (Z.shiftr z 7) (shift + 7))
  = Z.shiftl z shift.
Proof.
  intros Hs. apply Z.bits_inj'. intros k Hk.
  rewrite Z.lor_spec, !Z.shiftl_spec by lia.
  destruct (Z.ltb_spec k shift) as [Hlow | Hhigh].
  - rewrite !Z.testbit_neg_r by lia. reflexivity.
  - rewrite Z.land_spec. change 127 with (Z.ones 7).
    destruct (Z.ltb_spec (k - shift) 7) as [Hin | Hout].
    + rewrite Z.ones_spec_low by lia.
      rewrite (Z.testbit_neg_r _ (k - (shift + 7))) by lia.
      rewrite andb_true_r, orb_false_r. reflexivity.
    + rewrite Z.ones_spec_high by lia.
      rewrite Z.shiftr_spec by lia. rewrite andb_false_r. simpl.
      f_equal. lia.
Qed.

Lemma shiftr_7_bound (z : Z) (k : nat) :
  0 <= z < 2 ^ (7 * Z.of_nat (S k)) ->
  0 <= Z.shiftr z 7 < 2 ^ (7 * Z.of_nat k).
Proof.
  intros [Hz Hlt]. rewrite Z.shiftr_div_pow2 by lia. split.
  - apply Z.div_pos; lia.
  - apply Z.div_lt_upper_bound; [lia |].
    rewrite <- Z.pow_add_r by lia.
    replace (7 + 7 * Z.of_nat k) with (7 * Z.of_nat (S k)) by lia.
    exact Hlt.
Qed.

(** What the loop of [write_long] writes for [z], the loop of [read_long]
    reads back as [z], whatever it has accumulated below [shift]. *)
Lemma write_long_loop_read_back (fuel : nat) :
  forall z, 0 <= z < 2 ^ (7 * Z.of_nat (S fuel)) ->
  exists b bs,
    BinaryEncoder.write_long_loop (S fuel) z = (Ok tt, b :: bs)
    /\ forall fuel_d acc shift pre rest c,
        (List.length (b :: bs) <= fuel_d)%nat -> 0 <= shift ->
        BinaryDecoder.read_long_loop fuel_d (ord b)
          (Z.lor acc (Z.shiftl (Z.land (ord b) 127) shift)) (shift + 7)
          (decoding (pre ++ [b]) (bs ++ rest) c)
        = (Ok (Z.lxor (Z.shiftr (Z.lor acc (Z.shiftl z shift)) 1)
                 (- Z.land (Z.lor acc (Z.shiftl z shift)) 1)),
           decoding (pre ++ b :: bs) rest c).
Proof.
  induction fuel as [| fuel IH]; intros z Hz.
  - (* one group *)
    change (2 ^ (7 * Z.of_nat 1)) with 128 in Hz.
    destruct (chr_ok z) as [b [Hchr Hord]]; [lia |].
    exists b, []. split.
    + simpl. rewrite small_iff_no_high_bits by lia.
      destruct (Z.ltb_spec z 128) as [_ | H]; [| lia]. simpl.
      unfold BinaryEncoder.write_chr, enc_bind, enc_lift. rewrite Hchr.
      reflexivity.
    + intros fuel_d acc shift pre rest c Hfuel Hs.
      destruct fuel_d as [| fuel_d]; [simpl in Hfuel; lia |].
      simpl. rewrite Hord.
      assert (Hb : Z.land z 128 = 0).
      { change 128 with (2 ^ 7). apply Z.bits_inj'. intros k Hk.
        rewrite Z.land_spec, Z.bits_0, Z.pow2_bits_eqb by lia.
        destruct (Z.eqb_spec 7 k) as [<- | Hne]; [| apply andb_false_r].
        rewrite andb_true_r. apply Z.bits_above_log2; [lia |].
        destruct (Z.eq_dec z 0) as [-> | Hnz]; [simpl; lia |].
        apply Z.log2_lt_pow2; lia. }
      rewrite Hb. simpl.
      assert (Hlow : Z.land z 127 = z).
      { change 127 with (Z.ones 7). rewrite Z.land_ones by lia.
        apply Z.mod_small. change (2 ^ 7) with 128. lia. }
      rewrite Hlow. reflexivity.
  - (* a group and the rest *)
    destruct (Z.ltb_spec z 128) as [Hsmall | Hbig].
    + (* the value fits one group *)
      destruct (IH z) as [b [bs [Hw Hr]]].
      { split; [lia |]. eapply Z.lt_le_trans; [apply Hsmall |].
        change 128 with (2 ^ 7). apply Z.pow_le_mono_r; lia. }
      exists b, bs. split; [| exact Hr].
      simpl in Hw |- *. rewrite small_iff_no_high_bits in Hw |- * by lia.
      destruct (Z.ltb_spec z 128) as [_ | H]; [| lia]. simpl in Hw |- *.
      exact Hw.
    + destruct (IH (Z.shiftr z 7)) as [b' [bs' [Hw Hr]]].
      { apply shiftr_7_bound. exact Hz. }
      pose proof (land_127_range z) as Hrange.
      destruct (chr_ok (Z.lor (Z.land z 127) 128)) as [b [Hchr Hord]].
      { rewrite continuation_byte. lia. }
      exists b, (b' :: bs'). split.
      * change (BinaryEncoder.write_long_loop (S (S fuel)) z)
          with (if negb (Z.land z (Z.lnot 127) =? 0)
                then enc_bind (BinaryEncoder.write_chr
                                 (Z.lor (Z.land z 127) 128))
                       (fun _ => BinaryEncoder.write_long_loop (S fuel)
                                   (Z.shiftr z 7))
                else BinaryEncoder.write_chr z).
        rewrite small_iff_no_high_bits by lia.
        destruct (Z.ltb_spec z 128) as [H | _]; [lia |]. simpl negb.
        cbv iota. rewrite Hw.
        unfold BinaryEncoder.write_chr, enc_bind, enc_lift. rewrite Hchr.
        reflexivity.
      * intros fuel_d acc shift pre rest c Hfuel Hs.
        destruct fuel_d as [| fuel_d]; [simpl in Hfuel; lia |].
        assert (Hhigh : Z.land (ord b) 128 = 128).
        { rewrite Hord. rewrite Z.land_lor_distr_l.
          change (Z.land 128 128) with 128.
          replace (Z.land (Z.land z 127) 128) with 0; [reflexivity |].
          rewrite <- Z.land_assoc. change (Z.land 127 128) with 0.
          rewrite Z.land_0_r. reflexivity. }
        assert (Hlow : Z.land (ord b) 127 = Z.land z 127).
        { rewrite Hord. rewrite Z.land_lor_distr_l.
          change (Z.land 128 127) with 0. rewrite Z.lor_0_r.
          rewrite <- Z.land_assoc. reflexivity. }
        change (BinaryDecoder.read_long_loop (S fuel_d) (ord b) ?n ?s)
          with (if negb (Z.land (ord b) 128 =? 0)
                then bind BinaryDecoder.read_ord
                       (fun b0 => BinaryDecoder.read_long_loop fuel_d b0
                                    (Z.lor n (Z.shiftl (Z.land b0 127) s))
                                    (s + 7))
                else ret (Z.lxor (Z.shiftr n 1) (- Z.land n 1))).
        rewrite Hhigh. change (negb (128 =? 0)) with true. cbv iota.
        unfold bind. simpl app.
        rewrite read_ord_decoding.
        rewrite Hr; [| simpl in Hfuel |- *; lia | lia].
        rewrite Hlow, <- Z.lor_assoc, split_low_group by lia.
        rewrite <- app_assoc. reflexivity.
Qed.

Lemma zigzag_nonneg (n : Z) :
  0 <= n < 2 ^ 63 -> BinaryEncoder.zigzag n = 2 * n.
Proof.
  intros Hn. unfold BinaryEncoder.zigzag.
  rewrite Z.shiftr_div_pow2, Z.div_small, Z.lxor_0_r by lia.
  rewrite Z.shiftl_mul_pow2 by lia. lia.
Qed.

Lemma zigzag_neg (n : Z) :
  - 2 ^ 63 <= n < 0 -> BinaryEncoder.zigzag n = - 2 * n - 1.
Proof.
  intros Hn. unfold BinaryEncoder.zigzag.
  assert (Hs : Z.shiftr n 63 = -1).
  { rewrite Z.shiftr_div_pow2 by lia.
    symmetry. apply (Z.div_unique_pos n (2 ^ 63) (-1) (n + 2 ^ 63)); lia. }
  rewrite Hs, Z.lxor_m1_r, Z.shiftl_mul_pow2 by lia.
  unfold Z.lnot. lia.
Qed.

Lemma long_range (n : Z) :
  LONG_MIN_VALUE <= n <= LONG_MAX_VALUE <-> - 2 ^ 63 <= n < 2 ^ 63.
Proof.
  unfold LONG_MIN_VALUE, LONG_MAX_VALUE. rewrite Z.shiftl_1_l. lia.
Qed.

Lemma zigzag_range (n : Z) :
  - 2 ^ 63 <= n < 2 ^ 63 -> 0 <= BinaryEncoder.zigzag n < 2 ^ 64.
Proof.
  intros Hn. destruct (Z.ltb_spec n 0) as [Hneg | Hpos].
  - rewrite zigzag_neg by lia. lia.
  - rewrite zigzag_nonneg by lia. lia.
Qed.

Lemma unzigzag_zigzag (n : Z) :
  - 2 ^ 63 <= n < 2 ^ 63 ->
  Z.lxor (Z.shiftr (BinaryEncoder.zigzag n) 1)
    (- Z.land (BinaryEncoder.zigzag n) 1) = n.
Proof.
  intros Hn. change 1 with (Z.ones 1) at 2. rewrite Z.land_ones by lia.
  rewrite Z.shiftr_div_pow2 by lia. change (2 ^ 1) with 2.
  destruct (Z.ltb_spec n 0) as [Hneg | Hpos].
  - rewrite zigzag_neg by lia.
    replace (- 2 * n - 1) with (1 + (- n - 1) * 2) by lia.
    rewrite Z.div_add, Z.mod_add by lia.
    change (1 / 2) with 0. change (1 mod 2) with 1.
    change (- (1)) with (-1). rewrite Z.lxor_m1_r. unfold Z.lnot. lia.
  - rewrite zigzag_nonneg by lia.
    replace (2 * n) with (0 + n * 2) by lia.
    rewrite Z.div_add, Z.mod_add by lia.
    change (0 / 2) with 0. change (0 mod 2) with 0.
    change (- 0) with 0. rewrite Z.lxor_0_r. lia.
Qed.

Lemma fuel_of_log2 (z : Z) :
  0 <= z -> z < 2 ^ (7 * Z.of_nat (S (Z.to_nat (Z.log2 z)))).
Proof.
  intros Hz. pose proof (Z.log2_nonneg z) as Hl.
  destruct (Z.eq_dec z 0) as [-> | Hnz].
  - apply Z.pow_pos_nonneg; lia.
  - destruct (Z.log2_spec z) as [_ Hlt]; [lia |].
    eapply Z.lt_le_trans; [exact Hlt |].
    apply Z.pow_le_mono_r; lia.
Qed.

(** [read_long] reads back what [write_long] writes for a 64-bit integer,
    and stops at its end. *)
Lemma write_long_read_long (n : Z) :
  - 2 ^ 63 <= n < 2 ^ 63 ->
  exists b bs,
    BinaryEncoder.write_long n = (Ok tt, b :: bs)
    /\ forall pre rest c,
        BinaryDecoder.read_long (decoding pre ((b :: bs) ++ rest) c)
        = (Ok n, decoding (pre ++ b :: bs) rest c).
Proof.
  intros Hn. pose proof (zigzag_range n Hn) as Hzz.
  unfold BinaryEncoder.write_long.
  destruct (write_long_loop_read_back
              (Z.to_nat (Z.log2 (BinaryEncoder.zigzag n)))
              (BinaryEncoder.zigzag n)) as [b [bs [Hw Hr]]].
  { split; [lia | apply fuel_of_log2; lia]. }
  exists b, bs. split; [exact Hw |].
  intros pre rest c. unfold BinaryDecoder.read_long, bind.
  simpl app. rewrite read_ord_decoding. rewrite remaining_decoding.
  specialize (Hr (S (List.length (bs ++ rest))) 0 0 pre rest c).
  rewrite Z.lor_0_l, Z.shiftl_0_r, Z.lor_0_l, Z.shiftl_0_r in Hr.
  change (0 + 7) with 7 in Hr.
  rewrite Hr; [| simpl; rewrite length_app; lia | lia].
  rewrite unzigzag_zigzag by lia. reflexivity.
Qed.

(** The loop of [write_long] writes at most [k] bytes for a value below
    [2 ^ (7 k)]. *)
Lemma write_long_loop_length (k : nat) :
  forall fuel z, 0 <= z < 2 ^ (7 * Z.of_nat (S k)) ->
  (List.length (snd (BinaryEncoder.write_long_loop fuel z)) <= S k)%nat.
Proof.
  induction k as [| k IH]; intros fuel z Hz;
    (destruct fuel as [| fuel]; [simpl; lia |]);
    simpl BinaryEncoder.write_long_loop;
    rewrite small_iff_no_high_bits by lia;
    unfold BinaryEncoder.write_chr, enc_bind, enc_lift;
    destruct (Z.ltb_spec z 128) as [Hsmall | Hbig]; simpl negb; cbv iota.
  - destruct (chr z); simpl; lia.
  - change (2 ^ (7 * Z.of_nat 1)) with 128 in Hz. lia.
  - destruct (chr z); simpl; lia.
  - destruct (chr (Z.lor (Z.land z 127) 128)); simpl; try lia.
    specialize (IH fuel (Z.shiftr z 7) (shiftr_7_bound z (S k) Hz)).
    destruct (BinaryEncoder.write_long_loop fuel (Z.shiftr z 7))
      as [r out]. simpl in IH |- *. lia.
Qed.

(** C2.  Zig-zag round trip: for every 64-bit signed integer [n],
    [BinaryEncoder.write_long n] succeeds and [BinaryDecoder.read_long],
    applied to a source that holds the bytes written (after any bytes
    already consumed and before any others), returns exactly [n] and has
    then consumed exactly these bytes. *)
Theorem zigzag_round_trip (n : Z) :
  LONG_MIN_VALUE <= n <= LONG_MAX_VALUE ->
  exists bs,
    BinaryEncoder.write_long n = (Ok tt, bs)
    /\ forall consumed rest c,
        BinaryDecoder.read_long (decoding consumed (bs ++ rest) c)
        = (Ok n, decoding (consumed ++ bs) rest c).
Proof.
  intros Hn. apply long_range in Hn.
  destruct (write_long_read_long n Hn) as [b [bs [Hw Hr]]].
  exists (b :: bs). split; [exact Hw | exact Hr].
Qed.

Lemma zigzag_round_trip_witness :
  LONG_MIN_VALUE <= -1 <= LONG_MAX_VALUE
  /\ exists bs,
      BinaryEncoder.write_long (-1) = (Ok tt, bs)
      /\ forall consumed rest c,
          BinaryDecoder.read_long (decoding consumed (bs ++ rest) c)
          = (Ok (-1), decoding (consumed ++ bs) rest c).
Proof.
  split; [vm_compute; split; discriminate |].
  apply (zigzag_round_trip (-1)). vm_compute. split; discriminate.
Defined.

(** C9.  Varint length bound: for every integer [n] in the signed 64-bit
    range, [BinaryEncoder.write_long n] succeeds and writes at least 1 and
    at most 10 bytes. *)
Theorem write_long_length_bound (n : Z) :
  LONG_MIN_VALUE <= n <= LONG_MAX_VALUE ->
  exists bs,
    BinaryEncoder.write_long n = (Ok tt, bs)
    /\ (1 <= List.length bs <= 10)%nat.
Proof.
  intros Hn. apply long_range in Hn.
  destruct (write_long_read_long n Hn) as [b [bs [Hw _]]].
  exists (b :: bs). split; [exact Hw |]. split; [simpl; lia |].
  pose proof (write_long_loop_length 9
                (S (Z.to_nat (Z.log2 (BinaryEncoder.zigzag n))))
                (BinaryEncoder.zigzag n)) as Hlen.
  unfold BinaryEncoder.write_long in Hw. rewrite Hw in Hlen.
  apply Hlen. pose proof (zigzag_range n Hn) as Hzz.
  change (2 ^ (7 * Z.of_nat 10)) with (2 ^ 70).
  assert (2 ^ 64 < 2 ^ 70) by (apply Z.pow_lt_mono_r; lia). lia.
Qed.

Lemma write_long_length_bound_witness :
  LONG_MIN_VALUE <= LONG_MIN_VALUE <= LONG_MAX_VALUE
  /\ exists bs,
      BinaryEncoder.write_long LONG_MIN_VALUE = (Ok tt, bs)
      /\ (1 <= List.length bs <= 10)%nat.
Proof.
  split; [vm_compute; split; discriminate |].
  apply (write_long_length_bound LONG_MIN_VALUE).
  vm_compute. split; discriminate.
Defined.

(** ** Object identity is decidable equality *)

Lemma list_eqb_refl {A} (eqb : A -> A -> bool) (l : list A) :
  Forall (fun x => eqb x x = true) l -> list_eqb eqb l l = true.
Proof.
  induction 1 as [| x l Hx _ IH]; simpl; [reflexivity |].
  rewrite Hx, IH. reflexivity.
Qed.

Lemma list_eqb_eq {A} (eqb : A -> A -> bool) (l : list A) :
  Forall (fun x => forall y, eqb x y = true -> x = y) l ->
  forall l', list_eqb eqb l l' = true -> l = l'.
Proof.
  induction 1 as [| x l Hx _ IH]; intros [| y l'] H; simpl in H;
    try discriminate; [reflexivity |].
  apply andb_true_iff in H. destruct H as [Hxy Hl].
  f_equal; [apply Hx; exact Hxy | apply IH; exact Hl].
Qed.

Lemma pyval_eqb_refl (v : pyval) : pyval_eqb v v = true.
Proof.
  induction v using pyval_induction; simpl;
    try reflexivity;
    try apply Z.eqb_refl; try apply String.eqb_refl;
    try (apply list_eqb_refl; assumption).
  - destruct b; reflexivity.
  - apply list_eqb_refl. eapply Forall_impl; [| exact H].
    intros kv [H1 H2]. rewrite H1, H2. reflexivity.
Qed.

Lemma pyval_eqb_eq (v : pyval) : forall v', pyval_eqb v v' = true -> v = v'.
Proof.
  induction v using pyval_induction; intros [] Heq; simpl in Heq;
    try discriminate; try reflexivity.
  - f_equal. apply Bool.eqb_prop. exact Heq.
  - f_equal. apply Z.eqb_eq. exact Heq.
  - f_equal. apply Z.eqb_eq. exact Heq.
  - f_equal. apply String.eqb_eq. exact Heq.
  - f_equal. apply String.eqb_eq. exact Heq.
  - f_equal. eapply list_eqb_eq; [exact H | exact Heq].
  - f_equal. eapply list_eqb_eq; [exact H | exact Heq].
  - f_equal. eapply list_eqb_eq; [| exact Heq].
    eapply Forall_impl; [| exact H].
    intros [k v] [H1 H2] [k' v'] Hkv. simpl in *.
    apply andb_true_iff in Hkv. destruct Hkv as [Hk Hv].
    f_equal; [apply H1 | apply H2]; assumption.
Qed.

Lemma type_tag_eqb_eq (a b : type_tag) : type_tag_eqb a b = true <-> a = b.
Proof.
  split; [destruct a, b; simpl; congruence | intros ->; destruct b; reflexivity].
Qed.

Lemma schema_eqb_refl (s : schema) : schema_eqb s s = true.
Proof.
  induction s using schema_induction; simpl;
    rewrite ?Nat.eqb_refl, ?String.eqb_refl, ?Z.eqb_refl; simpl;
    try assumption; try reflexivity.
  - destruct t; reflexivity.
  - apply list_eqb_refl. clear. induction l; constructor; auto.
    apply String.eqb_refl.
  - replace (union_type_eqb t t) with true by (destruct t; reflexivity).
    simpl. apply list_eqb_refl. exact H.
  - replace (record_type_eqb t t) with true by (destruct t; reflexivity).
    simpl. apply list_eqb_refl. eapply Forall_impl; [| exact H].
    intros f Hf. simpl in Hf.
    rewrite String.eqb_refl, Hf, Bool.eqb_reflx, pyval_eqb_refl.
    reflexivity.
Qed.

Lemma schema_eqb_eq (s : schema) : forall s', schema_eqb s s' = true -> s = s'.
Proof.
  induction s using schema_induction; intros [] Heq; simpl in Heq;
    try discriminate;
    repeat match goal with
           | H : _ && _ = true |- _ =>
               apply andb_true_iff in H; destruct H
           | H : Nat.eqb _ _ = true |- _ => apply Nat.eqb_eq in H; subst
           | H : String.eqb _ _ = true |- _ => apply String.eqb_eq in H; subst
           | H : Z.eqb _ _ = true |- _ => apply Z.eqb_eq in H; subst
           end.
  - f_equal. destruct t, t0; first [reflexivity | discriminate].
  - reflexivity.
  - f_equal. eapply list_eqb_eq; [| eassumption].
    clear. induction l; constructor; auto.
    intros y Hy. apply String.eqb_eq. exact Hy.
  - f_equal. apply IHs. assumption.
  - f_equal. apply IHs. assumption.
  - f_equal; [destruct t, t0; first [reflexivity | discriminate] |].
    eapply list_eqb_eq; [exact H | eassumption].
  - f_equal; [destruct t, t0; first [reflexivity | discriminate] |].
    eapply list_eqb_eq; [| eassumption].
    eapply Forall_impl; [| exact H].
    intros [n1 t1 h1 d1] Hf [n2 t2 h2 d2] Hfg. simpl in *.
    repeat match goal with
           | H : _ && _ = true |- _ =>
               apply andb_true_iff in H; destruct H
           end.
    f_equal.
    + apply String.eqb_eq. assumption.
    + apply Hf. assumption.
    + apply Bool.eqb_prop. assumption.
    + apply pyval_eqb_eq. assumption.
Qed.

Lemma same_object_iff (a b : schema) : same_object a b = true <-> a = b.
Proof.
  split; [apply schema_eqb_eq | intros ->; apply schema_eqb_refl].
Qed.

(** ** Schema matching and its cache *)

Lemma cache_get_sound (c : match_cache) (w r : schema) (v : bool) :
  cache_sound c -> cache_get c w r = Some v -> v = __match_schema__ w r.
Proof.
  intros Hc Hget. unfold cache_get in Hget.
  destruct (find _ c) as [[[w' r'] v'] |] eqn:Hfind; [| discriminate].
  injection Hget as <-.
  apply find_some in Hfind. destruct Hfind as [Hin Hkey]. simpl in Hkey.
  apply andb_true_iff in Hkey. destruct Hkey as [Hw Hr].
  apply same_object_iff in Hw, Hr. subst w' r'.
  unfold cache_sound in Hc. rewrite Forall_forall in Hc.
  exact (Hc _ Hin).
Qed.

Lemma match_schema_sound (w r : schema) (c : match_cache) :
  cache_sound c ->
  fst (match_schema w r c) = uncached_match w r
  /\ cache_sound (snd (match_schema w r c)).
Proof.
  intros Hc. unfold match_schema, uncached_match.
  destruct (same_object w r); [split; [reflexivity | exact Hc] |].
  destruct (cache_get c w r) as [v |] eqn:Hget; simpl.
  - split; [eapply cache_get_sound; eassumption | exact Hc].
  - split; [reflexivity |]. constructor; [reflexivity |].
    destruct (Z.of_nat (List.length c) >? MATCH_SCHEMA_CACHE_MAX_LENGTH);
      [constructor | exact Hc].
Qed.

Lemma cache_state_sound (c : match_cache) : cache_state c -> cache_sound c.
Proof.
  induction 1 as [| w r c _ IH | c _ IH].
  - constructor.
  - apply match_schema_sound. exact IH.
  - constructor.
Qed.

Lemma match_schema_same_object (w : schema) : __match_schema__ w w = true.
Proof.
  unfold __match_schema__.
  replace (type_tag_eqb (schema_type w) (schema_type w)) with true
    by (symmetry; apply type_tag_eqb_eq; reflexivity).
  destruct w as [? [] | | | | | |? [] ]; simpl;
    rewrite ?String.eqb_refl, ?Z.eqb_refl; try reflexivity;
    apply type_tag_eqb_eq; reflexivity.
Qed.

(** C8.  Match-cache transparency: in every state of the cache (as the
    module leaves it: empty at first, then changed only by [match_schema]
    and by clearing), [match_schema W R] returns the boolean of the
    uncached predicate, identical schema objects matching; this boolean is
    also what [__match_schema__] computes, and the call returns the same
    after the cache has been cleared. *)
Theorem match_cache_transparent (c : match_cache) (W R : schema) :
  cache_state c ->
  fst (match_schema W R c) = uncached_match W R
  /\ (W = R -> fst (match_schema W R c) = true)
  /\ fst (match_schema W R c) = __match_schema__ W R
  /\ fst (match_schema W R (cache_clear c)) = fst (match_schema W R c).
Proof.
  intros Hc. apply cache_state_sound in Hc.
  destruct (match_schema_sound W R c Hc) as [Hv _].
  destruct (match_schema_sound W R (cache_clear c)) as [Hv' _];
    [constructor |].
  assert (Hu : uncached_match W R = __match_schema__ W R).
  { unfold uncached_match. destruct (same_object W R) eqn:E; [| reflexivity].
    apply same_object_iff in E. subst R.
    symmetry. apply match_schema_same_object. }
  repeat split.
  - exact Hv.
  - intros ->. rewrite Hv. unfold uncached_match.
    replace (same_object R R) with true; [reflexivity |].
    symmetry. apply same_object_iff. reflexivity.
  - rewrite Hv. exact Hu.
  - rewrite Hv, Hv'. reflexivity.
Qed.

Lemma match_cache_transparent_witness :
  cache_state (snd (match_schema Examples.int_schema Examples.long_schema []))
  /\ fst (match_schema Examples.int_schema Examples.long_schema
            (snd (match_schema Examples.int_schema Examples.long_schema [])))
     = uncached_match Examples.int_schema Examples.long_schema.
Proof.
  split.
  - apply cache_after_match, cache_initial.
  - apply (match_cache_transparent
             (snd (match_schema Examples.int_schema Examples.long_schema []))
             Examples.int_schema Examples.long_schema).
    apply cache_after_match, cache_initial.
Defined.

Lemma is_promotion_iff (a b : type_tag) :
  is_promotion a b
  <-> existsb (fun p => type_tag_eqb (fst p) a && type_tag_eqb (snd p) b)
        __valid_schema_promotion__ = true.
Proof.
  unfold is_promotion. rewrite existsb_exists. split.
  - intros Hin. exists (a, b). split; [exact Hin |]. simpl.
    apply andb_true_iff. split; apply type_tag_eqb_eq; reflexivity.
  - intros [[a' b'] [Hin Heq]]. simpl in Heq.
    apply andb_true_iff in Heq. destruct Heq as [Ha Hb].
    apply type_tag_eqb_eq in Ha, Hb. subst. exact Hin.
Qed.

Lemma promotion_not_reversed (a b : type_tag) :
  is_promotion a b -> ~ is_promotion b a.
Proof.
  unfold is_promotion. simpl. intros H H'.
  repeat (destruct H as [H | H]; [injection H as <- <- |]);
    try contradiction;
    repeat (destruct H' as [H' | H']; [discriminate H' |]);
    contradiction.
Qed.

Lemma cross_tag_match (W R : schema) :
  schema_type W <> schema_type R ->
  is_union_tag (schema_type W) = false ->
  is_union_tag (schema_type R) = false ->
  __match_schema__ W R
  = existsb (fun p => type_tag_eqb (fst p) (schema_type W)
                      && type_tag_eqb (snd p) (schema_type R))
      __valid_schema_promotion__.
Proof.
  intros Hne HW HR. unfold __match_schema__.
  destruct (type_tag_eqb (schema_type W) (schema_type R)) eqn:E.
  - apply type_tag_eqb_eq in E. contradiction.
  - rewrite HW, HR. reflexivity.
Qed.

(** C5.  Cross-tag schema matching: for schemas [W] and [R] with different
    type tags, neither a union nor an error_union, the match is true if and
    only if the pair of tags is one of the six promotions int->long,
    int->float, int->double, long->float, long->double, float->double; a
    reversed pair is false.  This holds of [__match_schema__] and of
    [match_schema] in every state of the cache. *)
Theorem cross_tag_matching (W R : schema) :
  schema_type W <> schema_type R ->
  is_union_tag (schema_type W) = false ->
  is_union_tag (schema_type R) = false ->
  (__match_schema__ W R = true
   <-> (schema_type W, schema_type R)
       = (tag_int, tag_long)
       \/ (schema_type W, schema_type R) = (tag_int, tag_float)
       \/ (schema_type W, schema_type R) = (tag_int, tag_double)
       \/ (schema_type W, schema_type R) = (tag_long, tag_float)
       \/ (schema_type W, schema_type R) = (tag_long, tag_double)
       \/ (schema_type W, schema_type R) = (tag_float, tag_double))
  /\ (is_promotion (schema_type R) (schema_type W) ->
      __match_schema__ W R = false)
  /\ (forall c, cache_state c ->
      fst (match_schema W R c) = __match_schema__ W R).
Proof.
  intros Hne HW HR. rewrite (cross_tag_match W R Hne HW HR).
  repeat split.
  - intros H. apply is_promotion_iff in H. unfold is_promotion in H.
    simpl in H.
    repeat (destruct H as [H | H]; [rewrite <- H; tauto |]).
    contradiction.
  - intros H. apply is_promotion_iff. unfold is_promotion. simpl.
    repeat (destruct H as [H | H]; [rewrite H; tauto |]).
    rewrite H. tauto.
  - intros Hrev.
    destruct (existsb _ __valid_schema_promotion__) eqn:E; [| reflexivity].
    apply is_promotion_iff in E.
    exfalso. exact (promotion_not_reversed _ _ Hrev E).
  - intros c Hc. apply cache_state_sound in Hc.
    destruct (match_schema_sound W R c Hc) as [Hv _]. rewrite Hv.
    unfold uncached_match.
    destruct (same_object W R) eqn:E.
    + apply same_object_iff in E. subst R. contradiction.
    + apply cross_tag_match; assumption.
Qed.

Lemma cross_tag_matching_witness :
  schema_type Examples.int_schema <> schema_type Examples.long_schema
  /\ __match_schema__ Examples.int_schema Examples.long_schema = true
  /\ __match_schema__ Examples.long_schema Examples.int_schema = false.
Proof.
  split; [discriminate |].
  split.
  - apply (cross_tag_matching Examples.int_schema Examples.long_schema);
      [discriminate | reflexivity | reflexivity |].
    left. reflexivity.
  - apply (cross_tag_matching Examples.long_schema Examples.int_schema);
      [discriminate | reflexivity | reflexivity |].
    unfold is_promotion. simpl. left. reflexivity.
Defined.

(** ** Writing *)

Lemma write_data_unfold (py : Builtins) (s : schema) (datum : pyval) :
  write_data py s datum
  = unknown_type_on_exception s (datum_to_encoder py (write_data py) s datum).
Proof.
  destruct s; reflexivity.
Qed.

Lemma zigzag_sign (n : Z) : 0 <= BinaryEncoder.zigzag n.
Proof.
  unfold BinaryEncoder.zigzag. apply Z.lxor_nonneg.
  rewrite Z.shiftl_nonneg, Z.shiftr_nonneg. tauto.
Qed.

(** [write_long] writes at least one byte and never fails. *)
Lemma write_long_total (n : Z) :
  exists b bs, BinaryEncoder.write_long n = (Ok tt, b :: bs).
Proof.
  pose proof (zigzag_sign n) as Hzz.
  destruct (write_long_loop_read_back
              (Z.to_nat (Z.log2 (BinaryEncoder.zigzag n)))
              (BinaryEncoder.zigzag n)) as [b [bs [Hw _]]].
  { split; [lia | apply fuel_of_log2; lia]. }
  exists b, bs. exact Hw.
Qed.

Lemma enc_bind_lift_ok {A B} (a : A) (k : A -> Enc B) :
  enc_bind (enc_lift (Ok a)) k = k a.
Proof.
  unfold enc_bind, enc_lift. destruct (k a). reflexivity.
Qed.

Lemma enc_bind_ok {A B} (a : A) (out : list byte) (k : A -> Enc B) :
  enc_bind (Ok a, out) k = (fst (k a), out ++ snd (k a)).
Proof.
  unfold enc_bind. destruct (k a). reflexivity.
Qed.

Lemma enc_for_each_ok {A} (body : A -> Enc unit) (l : list A)
  (outs : list (list byte)) :
  Forall2 (fun x out => body x = (Ok tt, out)) l outs ->
  enc_for_each body l = (Ok tt, List.concat outs).
Proof.
  induction 1 as [| x out l outs Hx _ IH]; simpl; [reflexivity |].
  rewrite Hx. unfold enc_bind. rewrite IH. reflexivity.
Qed.

(** C6.  Array encoding: against an array schema, [write_data] writes for
    an empty sequence the single byte 0x00 and nothing else; for a
    sequence of [L > 0] items that are each written successfully, it
    writes the code of [L], then the items' encodings in order, then the
    byte 0x00. *)
Theorem array_encoding (py : Builtins) (oid : nat) (items : schema)
  (datum : pyval) (l : list pyval) (outs : list (list byte)) :
  datum = PList l \/ datum = PTuple l ->
  Forall2 (fun item out => write_data py items item = (Ok tt, out)) l outs ->
  (l = [] ->
   write_data py (ArraySchema oid items) datum = (Ok tt, [Byte.x00]))
  /\ (l <> [] ->
      exists count,
        BinaryEncoder.write_long (Z.of_nat (List.length l)) = (Ok tt, count)
        /\ write_data py (ArraySchema oid items) datum
           = (Ok tt, count ++ List.concat outs ++ [Byte.x00])).
Proof.
  intros Hseq Hitems. split.
  - intros ->. destruct Hseq as [-> | ->]; reflexivity.
  - intros Hne.
    destruct (write_long_total (Z.of_nat (List.length l)))
      as [b [bs Hcount]].
    exists (b :: bs). split; [exact Hcount |].
    rewrite write_data_unfold.
    assert (Hlen : BinaryEncoder.len py datum
                   = Ok (Z.of_nat (List.length l))).
    { destruct Hseq as [-> | ->]; reflexivity. }
    assert (Hiter : iterate py datum = Ok l).
    { destruct Hseq as [-> | ->]; reflexivity. }
    unfold datum_to_encoder, write_array.
    rewrite Hlen, enc_bind_lift_ok.
    destruct (Z.gtb_spec (Z.of_nat (List.length l)) 0) as [_ | Hle].
    + rewrite Hiter, Hcount, enc_bind_lift_ok.
      rewrite (enc_for_each_ok (fun item => write_data py items item)
                 l outs Hitems).
      rewrite !enc_bind_ok. simpl. rewrite <- app_assoc. reflexivity.
    + destruct l; [contradiction | simpl in Hle; lia].
Qed.

Lemma array_encoding_witness :
  write_data Reference.builtins Examples.array_of_int
    (PList [PInt 1; PInt 2])
  = (Ok tt, [Byte.x04; Byte.x02; Byte.x04; Byte.x00]).
Proof.
  destruct (array_encoding Reference.builtins 5 Examples.int_schema
              (PList [PInt 1; PInt 2]) [PInt 1; PInt 2]
              [[Byte.x02]; [Byte.x04]]) as [_ H].
  - left. reflexivity.
  - repeat constructor.
  - destruct H as [count [Hcount Hw]]; [discriminate |].
    vm_compute in Hcount. injection Hcount as <-. exact Hw.
Defined.

(** The loop of [write_union] stops at the first branch that validates. *)
Lemma resolve_union_selected {A} (holds : schema -> bool)
  (selected : Z -> schema -> A) (unselected : A) (schemas : list schema) :
  forall (i : nat) (B : schema) (start : Z),
    nth_error schemas i = Some B ->
    holds B = true ->
    (forall j B', (j < i)%nat -> nth_error schemas j = Some B' ->
                  holds B' = false) ->
    resolve_union holds selected unselected schemas start
    = selected (start + Z.of_nat i) B.
Proof.
  induction schemas as [| s schemas IH]; intros i B start Hnth HB Hbefore.
  - destruct i; discriminate.
  - destruct i as [| i]; simpl in Hnth |- *.
    + injection Hnth as ->. rewrite HB. f_equal. lia.
    + rewrite (Hbefore 0%nat s) by (simpl; (lia || reflexivity)).
      rewrite (IH i B (start + 1)); [f_equal; lia | exact Hnth | exact HB |].
      intros j B' Hj Hj'. apply (Hbefore (S j) B'); [lia | exact Hj'].
Qed.

Lemma resolve_union_unselected {A} (holds : schema -> bool)
  (selected : Z -> schema -> A) (unselected : A) (schemas : list schema) :
  forall start,
    (forall B, In B schemas -> holds B = false) ->
    resolve_union holds selected unselected schemas start = unselected.
Proof.
  induction schemas as [| s schemas IH]; intros start Hnone; simpl.
  - reflexivity.
  - rewrite (Hnone s) by (left; reflexivity).
    apply IH. intros B HB. apply Hnone. right. exact HB.
Qed.

Lemma validate_union (oid : nat) (t : union_type) (schemas : list schema)
  (datum : pyval) :
  validate (UnionSchema oid t schemas) datum
  = existsb (fun s => validate s datum) schemas.
Proof.
  reflexivity.
Qed.

(** C4.  Union write selection: for a union or error_union schema [W] and
    a datum, the writer takes the first branch [B] of [W.schemas], at index
    [i], with [validate B datum] true; it writes the code of [i] and then
    the datum under [B], so that when the datum is written successfully
    under [B] the output is the code of [i] followed by that encoding.
    When no branch validates, [write_union] raises [AvroTypeException] and
    writes nothing, and so does [DatumWriter.write], which has validated
    the datum itself.  [write_data] does not: it calls [write_union]
    inside [try: ... except Exception:] and raises
    [AvroException("Unknown type: union")] in the place of the
    [AvroTypeException]. *)
Theorem union_write_selection (py : Builtins) (oid : nat) (t : union_type)
  (schemas : list schema) (datum : pyval) :
  let W := UnionSchema oid t schemas in
  (forall (i : nat) (B : schema),
      nth_error schemas i = Some B ->
      validate B datum = true ->
      (forall j B', (j < i)%nat -> nth_error schemas j = Some B' ->
                    validate B' datum = false) ->
      write_union (write_data py) W schemas datum
      = enc_bind (BinaryEncoder.write_long (Z.of_nat i))
          (fun _ => write_data py B datum)
      /\ forall out,
          write_data py B datum = (Ok tt, out) ->
          exists index,
            BinaryEncoder.write_long (Z.of_nat i) = (Ok tt, index)
            /\ write_data py W datum = (Ok tt, index ++ out)
            /\ DatumWriter.write py W datum = (Ok tt, index ++ out))
  /\ ((forall B, In B schemas -> validate B datum = false) ->
      write_union (write_data py) W schemas datum
      = (Raise (AvroTypeException W datum), [])
      /\ DatumWriter.write py W datum
         = (Raise (AvroTypeException W datum), [])
      /\ write_data py W datum
         = (Raise (AvroException (msg_unknown_type (union_tag t))), [])).
Proof.
  intros W. split.
  - intros i B Hnth HB Hbefore.
    assert (Hsel : write_union (write_data py) W schemas datum
                   = enc_bind (BinaryEncoder.write_long (Z.of_nat i))
                       (fun _ => write_data py B datum)).
    { unfold write_union.
      rewrite (resolve_union_selected _ _ _ schemas i B 0 Hnth HB Hbefore).
      reflexivity. }
    split; [exact Hsel |].
    intros out Hout.
    destruct (write_long_total (Z.of_nat i)) as [b [bs Hindex]].
    exists (b :: bs). split; [exact Hindex |].
    assert (Hw : write_data py W datum = (Ok tt, (b :: bs) ++ out)).
    { rewrite write_data_unfold. unfold W at 2, datum_to_encoder.
      fold W. rewrite Hsel, Hindex, enc_bind_ok, Hout. reflexivity. }
    split; [exact Hw |].
    unfold DatumWriter.write. unfold W at 1. rewrite validate_union.
    replace (existsb (fun s => validate s datum) schemas) with true;
      [exact Hw |].
    symmetry. apply existsb_exists. exists B. split; [| exact HB].
    eapply nth_error_In. exact Hnth.
  - intros Hnone.
    assert (Hunion : write_union (write_data py) W schemas datum
                     = (Raise (AvroTypeException W datum), [])).
    { unfold write_union. apply resolve_union_unselected. exact Hnone. }
    split; [exact Hunion | split].
    + unfold DatumWriter.write. unfold W at 1. rewrite validate_union.
      replace (existsb (fun s => validate s datum) schemas) with false;
        [reflexivity |].
      symmetry. apply not_true_is_false. intros H.
      apply existsb_exists in H. destruct H as [B [HIn HB]].
      rewrite (Hnone B HIn) in HB. discriminate.
    + rewrite write_data_unfold. unfold W at 2, datum_to_encoder.
      fold W. rewrite Hunion. reflexivity.
Qed.

Lemma union_write_selection_witness :
  write_data Reference.builtins Examples.null_or_string (PUnicode "hi")
  = (Ok tt, [Byte.x02; Byte.x04; Byte.x68; Byte.x69])
  /\ write_union (write_data Reference.builtins) Examples.null_or_string
       [Examples.null_schema; Examples.string_schema] (PInt 7)
     = (Raise (AvroTypeException Examples.null_or_string (PInt 7)), [])
  /\ DatumWriter.write Reference.builtins Examples.null_or_string (PInt 7)
     = (Raise (AvroTypeException Examples.null_or_string (PInt 7)), [])
  /\ write_data Reference.builtins Examples.null_or_string (PInt 7)
     = (Raise (AvroException (msg_unknown_type tag_union)), []).
Proof.
  destruct (union_write_selection Reference.builtins 6 t_union
              [Examples.null_schema; Examples.string_schema])
    with (datum := PUnicode "hi") as [Hsel _].
  destruct (union_write_selection Reference.builtins 6 t_union
              [Examples.null_schema; Examples.string_schema])
    with (datum := PInt 7) as [_ Hnone].
  split.
  - destruct (Hsel 1%nat Examples.string_schema) as [_ Hout].
    + reflexivity.
    + reflexivity.
    + intros [| j] B' Hj Hnth; [| lia].
      injection Hnth as <-. reflexivity.
    + destruct (Hout [Byte.x04; Byte.x68; Byte.x69])
        as [index [Hindex [Hw _]]]; [reflexivity |].
      vm_compute in Hindex. injection Hindex as <-. exact Hw.
  - apply Hnone. intros B [<- | [<- | []]]; reflexivity.
Defined.

(** ** Indexing *)

Lemma py_index_negative {A} (l : list A) (i : Z) :
  - Z.of_nat (List.length l) <= i < 0 ->
  exists x,
    nth_error l (Z.to_nat (Z.of_nat (List.length l) + i)) = Some x
    /\ py_index l i = Ok x.
Proof.
  intros Hi. unfold py_index.
  destruct (Z.ltb_spec i 0) as [_ | H]; [| lia].
  rewrite (Z.add_comm i).
  destruct (Z.ltb_spec (Z.of_nat (List.length l) + i) 0) as [H | _]; [lia |].
  destruct (Z.leb_spec (Z.of_nat (List.length l))
              (Z.of_nat (List.length l) + i)) as [H | _]; [lia |].
  simpl.
  destruct (nth_error l (Z.to_nat (Z.of_nat (List.length l) + i)))
    as [x |] eqn:E.
  - exists x. split; reflexivity.
  - apply nth_error_None in E. lia.
Qed.

Lemma py_index_out_of_range {A} (l : list A) (i : Z) :
  Z.of_nat (List.length l) <= i \/ i < - Z.of_nat (List.length l) ->
  py_index l i = Raise (PyError IndexError).
Proof.
  intros Hi. unfold py_index.
  destruct (Z.ltb_spec i 0) as [Hneg | Hpos].
  - destruct (Z.ltb_spec (i + Z.of_nat (List.length l)) 0) as [_ | H];
      [reflexivity | lia].
  - destruct (Z.ltb_spec i 0) as [H | _]; [lia |].
    destruct (Z.leb_spec (Z.of_nat (List.length l)) i) as [_ | H];
      [reflexivity | lia].
Qed.

(** ** Errors of schema resolution *)

(** C7 fails on the code.  On a branch index outside the writer's branch
    list [read_union] raises a [SchemaResolutionException] with both
    schemas, but [skip_union] gives the exception no reader's schema: the
    constructor is then interrupted by a [ValueError], and no
    [SchemaResolutionException] is raised at all.  The same holds through
    [skip_data]. *)
Theorem skip_union_out_of_range (oid : nat) (t : union_type)
  (schemas : list schema) (R : schema) (read : schema -> schema -> Dec pyval)
  (skip : schema -> Dec unit) (fuel : nat) (index : Z) (st st' : state) :
  let W := UnionSchema oid t schemas in
  BinaryDecoder.read_long st = (Ok index, st') ->
  Z.of_nat (List.length schemas) <= index
  \/ index < - Z.of_nat (List.length schemas) ->
  read_union read W R st
  = (Raise (SchemaResolutionException
              (msg_cant_access_branch_index index
                 (Z.of_nat (List.length schemas))) W R), st')
  /\ skip_union skip W st = (Raise (PyError ValueError), st')
  /\ skip_data (S fuel) W st = (Raise (PyError ValueError), st').
Proof.
  intros W Hread Hrange.
  pose proof (py_index_out_of_range schemas index Hrange) as Hidx.
  assert (Hskip : forall skip,
             skip_union skip W st = (Raise (PyError ValueError), st')).
  { intros skip0. unfold skip_union, bind. rewrite Hread.
    unfold W, schemas_of, lift. rewrite Hidx. reflexivity. }
  repeat split.
  - unfold read_union, bind. rewrite Hread.
    unfold W, schemas_of, lift. rewrite Hidx. reflexivity.
  - apply Hskip.
  - simpl. unfold try_except.
    change (type_to_skipper (skip_data fuel) fuel W)
      with (skip_union (skip_data fuel) W).
    rewrite Hskip. reflexivity.
Qed.

Lemma skip_union_out_of_range_witness :
  skip_data 1 Examples.null_or_string (decoding [] [Byte.x04] [])
  = (Raise (PyError ValueError), decoding [Byte.x04] [] []).
Proof.
  apply (skip_union_out_of_range 6 t_union
           [Examples.null_schema; Examples.string_schema]
           Examples.null_or_string
           (fun _ _ => ret PNone) (fun _ => ret tt) 0 2
           (decoding [] [Byte.x04] []) (decoding [Byte.x04] [] [])).
  - reflexivity.
  - left. simpl. lia.
Defined.

(** ** Negative indices *)

(** C10, amended.  Negative wire indices do not fail as indices: when the
    decoded index [i] has [-n <= i < 0], [n] being the number of the
    writer's symbols or branches, neither the range check nor the indexing
    raises; element [n + i] is selected.  [read_enum] returns that symbol
    when the reader's schema has it (always so when the reader's symbols
    are the writer's) and otherwise raises the
    [SchemaResolutionException] for a symbol that the reader lacks, not
    the one for the index; [read_union] goes on to decode with that
    branch against the reader's schema, and returns or raises what that
    does. *)
Theorem negative_wire_index (read : schema -> schema -> Dec pyval)
  (W R : schema) (i : Z) (st st' : state) :
  (forall symbols readers_symbols,
      symbols_of W = Ok symbols ->
      symbols_of R = Ok readers_symbols ->
      BinaryDecoder.read_int st = (Ok i, st') ->
      - Z.of_nat (List.length symbols) <= i < 0 ->
      exists symbol,
        nth_error symbols (Z.to_nat (Z.of_nat (List.length symbols) + i))
        = Some symbol
        /\ read_enum W R st
           = (if existsb (String.eqb symbol) readers_symbols
              then Ok (PUnicode symbol)
              else Raise (SchemaResolutionException
                            (msg_symbol_not_present symbol) W R), st')
        /\ (readers_symbols = symbols ->
            read_enum W R st = (Ok (PUnicode symbol), st')))
  /\ (forall schemas,
         schemas_of W = Ok schemas ->
         BinaryDecoder.read_long st = (Ok i, st') ->
         - Z.of_nat (List.length schemas) <= i < 0 ->
         exists branch,
           nth_error schemas (Z.to_nat (Z.of_nat (List.length schemas) + i))
           = Some branch
           /\ read_union read W R st = read branch R st').
Proof.
  split.
  - intros symbols readers_symbols HW HR Hread Hi.
    destruct (py_index_negative symbols i Hi) as [symbol [Hnth Hidx]].
    exists symbol. split; [exact Hnth |].
    assert (Hres : read_enum W R st
                   = (if existsb (String.eqb symbol) readers_symbols
                      then Ok (PUnicode symbol)
                      else Raise (SchemaResolutionException
                                    (msg_symbol_not_present symbol) W R),
                      st')).
    { unfold read_enum, bind. rewrite Hread. unfold lift. rewrite HW.
      destruct (Z.leb_spec (Z.of_nat (List.length symbols)) i) as [H | _];
        [lia |].
      rewrite Hidx, HR.
      destruct (existsb (String.eqb symbol) readers_symbols); reflexivity. }
    split; [exact Hres |].
    intros ->. rewrite Hres.
    replace (existsb (String.eqb symbol) symbols) with true; [reflexivity |].
    symmetry. apply existsb_exists. exists symbol.
    split; [eapply nth_error_In; exact Hnth | apply String.eqb_refl].
  - intros schemas HW Hread Hi.
    destruct (py_index_negative schemas i Hi) as [branch [Hnth Hidx]].
    exists branch. split; [exact Hnth |].
    unfold read_union, bind. rewrite Hread. unfold lift. rewrite HW, Hidx.
    reflexivity.
Qed.

Lemma negative_wire_index_witness :
  read_enum Examples.enum_abc Examples.enum_ac
    (decoding [] [Byte.x01] [])
  = (Ok (PUnicode "C"), decoding [Byte.x01] [] []).
Proof.
  destruct (negative_wire_index (fun _ _ => ret PNone)
              Examples.enum_abc Examples.enum_ac (-1)
              (decoding [] [Byte.x01] []) (decoding [Byte.x01] [] []))
    as [Henum _].
  destruct (Henum ["A"; "B"; "C"]%string ["A"; "C"]%string)
    as [symbol [Hnth [Hres _]]].
  - reflexivity.
  - reflexivity.
  - reflexivity.
  - simpl. lia.
  - vm_compute in Hnth. injection Hnth as <-. exact Hres.
Defined.

(** A negative index can still end in a [SchemaResolutionException]: with
    the writer's symbols A, B, C and the reader's symbols A, B, the byte 01
    is the index -1 and selects the symbol C, which the reader lacks;
    [read_enum] raises, and so does [read_data]. *)
Lemma negative_index_symbol_not_in_reader :
  BinaryDecoder.read_int (decoding [] [Byte.x01] [])
  = (Ok (-1), decoding [Byte.x01] [] [])
  /\ - 3 <= -1 < 0
  /\ read_enum Examples.enum_abc Examples.enum_ab (decoding [] [Byte.x01] [])
     = (Raise (SchemaResolutionException (msg_symbol_not_present "C")
                 Examples.enum_abc Examples.enum_ab),
        decoding [Byte.x01] [] [])
  /\ fst (read_data Reference.builtins 1 Examples.enum_abc Examples.enum_ab
            (decoding [] [Byte.x01] []))
     = Raise (SchemaResolutionException (msg_symbol_not_present "C")
                Examples.enum_abc Examples.enum_ab).
Proof.
  repeat split; try lia; vm_compute; reflexivity.
Qed.

(** ** Dictionaries keyed by names *)

Lemma dict_lookup_set_same {V} (d : list (string * V)) (k : string) (v : V) :
  dict_lookup (dict_set d k v) k = Some v.
Proof.
  unfold dict_lookup.
  induction d as [| [k' x] d IH]; simpl.
  - rewrite String.eqb_refl. reflexivity.
  - destruct (String.eqb k' k) eqn:E; simpl; rewrite E; [reflexivity |].
    exact IH.
Qed.

Lemma dict_lookup_set_other {V} (d : list (string * V)) (k k' : string)
  (v : V) :
  k <> k' -> dict_lookup (dict_set d k v) k' = dict_lookup d k'.
Proof.
  intros Hne. unfold dict_lookup.
  induction d as [| [k0 x] d IH]; simpl.
  - replace (String.eqb k k') with false; [reflexivity |].
    symmetry. apply String.eqb_neq. exact Hne.
  - destruct (String.eqb k0 k) eqn:E; simpl.
    + apply String.eqb_eq in E. subst k0.
      replace (String.eqb k k') with false; [reflexivity |].
      symmetry. apply String.eqb_neq. exact Hne.
    + destruct (String.eqb k0 k'); [reflexivity | exact IH].
Qed.

Lemma has_key_In {V} (d : list (string * V)) (k : string) :
  has_key d k = true <-> In k (map fst d).
Proof.
  unfold has_key, dict_lookup.
  induction d as [| [k' x] d IH]; simpl.
  - split; [discriminate | contradiction].
  - destruct (String.eqb k' k) eqn:E.
    + apply String.eqb_eq in E. split; [intros _; left; exact E | reflexivity].
    + apply String.eqb_neq in E. rewrite IH.
      split; [intros H; right; exact H | intros [H | H]; [contradiction | exact H]].
Qed.

Lemma dict_set_keys {V} (d : list (string * V)) (k : string) (v : V) :
  forall k', In k' (map fst (dict_set d k v)) <-> k' = k \/ In k' (map fst d).
Proof.
  intros k'. induction d as [| [k0 x] d IH]; simpl.
  - intuition.
  - destruct (String.eqb k0 k) eqn:E; simpl.
    + apply String.eqb_eq in E. subst k0. intuition.
    + rewrite IH. intuition.
Qed.

Lemma dict_set_NoDup {V} (d : list (string * V)) (k : string) (v : V) :
  NoDup (map fst d) -> NoDup (map fst (dict_set d k v)).
Proof.
  induction d as [| [k0 x] d IH]; simpl; intros Hnd.
  - constructor; [intros [] | constructor].
  - inversion Hnd as [| ? ? Hnotin Hnd']; subst.
    destruct (String.eqb k0 k) eqn:E; simpl.
    + constructor; assumption.
    + constructor; [| apply IH; exact Hnd'].
      rewrite dict_set_keys. intros [H | H]; [| contradiction].
      apply String.eqb_neq in E. congruence.
Qed.

Lemma dict_set_named {V} (key_of : V -> string) (d : list (string * V))
  (v : V) :
  Forall (fun kv => fst kv = key_of (snd kv)) d ->
  Forall (fun kv => fst kv = key_of (snd kv)) (dict_set d (key_of v) v).
Proof.
  induction 1 as [| [k0 x] d Hx Hd IH]; simpl.
  - constructor; [reflexivity | constructor].
  - destruct (String.eqb k0 (key_of v)) eqn:E.
    + apply String.eqb_eq in E. constructor; [exact E | exact Hd].
    + constructor; [exact Hx | exact IH].
Qed.

(** [fields_dict] holds a field under its own name, once. *)
Lemma fields_dict_spec (fields : list field) :
  NoDup (map fst (fields_dict fields))
  /\ Forall (fun kv => fst kv = name (snd kv)) (fields_dict fields)
  /\ forall k, In k (map fst (fields_dict fields)) <-> In k (map name fields).
Proof.
  unfold fields_dict.
  assert (H : forall (d : list (string * field)),
             NoDup (map fst d) ->
             Forall (fun kv => fst kv = name (snd kv)) d ->
             let d' := fold_left (fun d f => dict_set d (name f) f) fields d in
             NoDup (map fst d')
             /\ Forall (fun kv => fst kv = name (snd kv)) d'
             /\ forall k, In k (map fst d')
                          <-> In k (map fst d) \/ In k (map name fields)).
  { induction fields as [| f fields IH]; intros d Hnd Hnamed; simpl.
    - repeat split; try assumption; intuition.
    - destruct (IH (dict_set d (name f) f)) as [H1 [H2 H3]].
      + apply dict_set_NoDup. exact Hnd.
      + apply (dict_set_named name). exact Hnamed.
      + repeat split; try assumption.
        * intros Hk. apply H3 in Hk. rewrite dict_set_keys in Hk.
          intuition.
        * intros Hk. apply H3. rewrite dict_set_keys. intuition. }
  destruct (H [] (NoDup_nil _) (Forall_nil _)) as [H1 [H2 H3]].
  repeat split; try assumption.
  - intros Hk. apply H3 in Hk. destruct Hk as [[] | Hk]. exact Hk.
  - intros Hk. apply H3. right. exact Hk.
Qed.

(** ** Records *)

(** The first loop of [read_record] binds only names that are fields of
    both schemas. *)
Lemma read_writers_fields_keys (read : schema -> schema -> Dec pyval)
  (skip : schema -> Dec unit) (readers_fields_dict : list (string * field))
  (fields : list field) :
  forall record st record' st',
    read_writers_fields read skip readers_fields_dict fields record st
    = (Ok record', st') ->
    NoDup (map fst record) ->
    NoDup (map fst record')
    /\ forall k, In k (map fst record') ->
                 In k (map fst record)
                 \/ (In k (map name fields)
                     /\ has_key readers_fields_dict k = true).
Proof.
  induction fields as [| f fields IH]; intros record st record' st' Hrun Hnd.
  - simpl in Hrun. injection Hrun as <- <-. split; [exact Hnd | tauto].
  - simpl in Hrun. unfold bind at 1 in Hrun.
    destruct (try_except _ _ _ st) as [[record1 | e |] st1] eqn:Hstep;
      try discriminate.
    assert (Hrec1 : NoDup (map fst record1)
                    /\ forall k, In k (map fst record1) ->
                                 In k (map fst record)
                                 \/ (k = name f
                                     /\ has_key readers_fields_dict k = true)).
    { unfold try_except, bind, lift, ret in Hstep.
      unfold has_key.
      destruct (dict_lookup readers_fields_dict (name f)) as [rf |] eqn:Hl.
      - destruct (read (type f) (type rf) st) as [[v | e |] st2] eqn:Hv.
        + injection Hstep as <- <-. split.
          * apply dict_set_NoDup. exact Hnd.
          * intros k Hk. apply dict_set_keys in Hk.
            destruct Hk as [-> | Hk]; [right | left; exact Hk].
            rewrite Hl. split; reflexivity.
        + destruct e as [| | | | []]; try discriminate;
            destruct (skip (type f) st2) as [[[] | e' |] st3];
            try discriminate;
            injection Hstep as <- <-; split; [exact Hnd | tauto].
        + discriminate.
      - destruct (skip (type f) st) as [[[] | e' |] st3]; try discriminate.
        injection Hstep as <- <-. split; [exact Hnd | tauto]. }
    destruct Hrec1 as [Hnd1 Hkeys1].
    destruct (IH record1 st1 record' st' Hrun Hnd1) as [Hnd' Hkeys'].
    split; [exact Hnd' |].
    intros k Hk. destruct (Hkeys' k Hk) as [Hk1 | [Hk1 Hk2]].
    + destruct (Hkeys1 k Hk1) as [H | [-> H]]; [left; exact H |].
      right. split; [left; reflexivity | exact H].
    + right. split; [right; exact Hk1 | exact Hk2].
Qed.

(** The second loop leaves the names of other fields as they are. *)
Lemma fill_in_defaults_other (py : Builtins) (W R : schema)
  (writers_fields_dict : list (string * field))
  (items : list (string * field)) :
  forall record st record' st',
    fill_in_defaults py W R writers_fields_dict items record st
    = (Ok record', st') ->
    st' = st
    /\ forall k, ~ In k (map (fun kv => name (snd kv)) items) ->
                 dict_lookup record' k = dict_lookup record k.
Proof.
  induction items as [| [k0 f] items IH]; intros record st record' st' Hrun.
  - simpl in Hrun. injection Hrun as <- <-. split; reflexivity.
  - simpl in Hrun. unfold bind at 1 in Hrun.
    destruct (negb (has_key writers_fields_dict k0)).
    + destruct (has_default f); [| discriminate].
      unfold bind, lift, ret in Hrun.
      destruct (read_default_value py (type f) (default f)) as [v | e |];
        try discriminate.
      fold (@bind (list (string * pyval)) (list (string * pyval))) in Hrun.
      destruct (IH _ _ _ _ Hrun) as [-> Hother]. split; [reflexivity |].
      intros k Hk. simpl in Hk. rewrite (Hother k) by tauto.
      apply dict_lookup_set_other. intros Heq. apply Hk. left. exact Heq.
    + unfold ret in Hrun.
      destruct (IH _ _ _ _ Hrun) as [-> Hother]. split; [reflexivity |].
      intros k Hk. simpl in Hk. apply Hother. tauto.
Qed.

Lemma fields_dict_In (fields : list field) :
  Forall (fun kv => In (snd kv) fields) (fields_dict fields).
Proof.
  unfold fields_dict.
  assert (Hset : forall (d : list (string * field)) k f (P : field -> Prop),
             Forall (fun kv => P (snd kv)) d -> P f ->
             Forall (fun kv => P (snd kv)) (dict_set d k f)).
  { intros d k f P Hd Hf.
    induction Hd as [| [k0 x] d Hx Hd IH]; simpl.
    - constructor; [exact Hf | constructor].
    - destruct (String.eqb k0 k); constructor; assumption. }
  assert (H : forall (all : list field) (d : list (string * field)),
             incl fields all ->
             Forall (fun kv => In (snd kv) all) d ->
             Forall (fun kv => In (snd kv) all)
               (fold_left (fun d f => dict_set d (name f) f) fields d)).
  { intros all. induction fields as [| f fields IH]; intros d Hincl Hd; simpl.
    - exact Hd.
    - apply IH.
      + intros x Hx. apply Hincl. right. exact Hx.
      + apply (Hset d (name f) f (fun x => In x all)); [exact Hd |].
        apply Hincl. left. reflexivity. }
  apply H; [apply incl_refl | constructor].
Qed.

Lemma fill_in_defaults_ok (py : Builtins) (W R : schema)
  (writers_fields_dict : list (string * field))
  (items : list (string * field)) :
  forall record st,
    (forall k f, In (k, f) items ->
                 has_key writers_fields_dict k = false ->
                 has_default f = true
                 /\ exists v,
                     read_default_value py (type f) (default f) = Ok v) ->
    exists record',
      fill_in_defaults py W R writers_fields_dict items record st
      = (Ok record', st).
Proof.
  induction items as [| [k0 f] items IH]; intros record st Hall; simpl.
  - exists record. reflexivity.
  - unfold bind at 1.
    destruct (has_key writers_fields_dict k0) eqn:Hk; simpl negb; cbv iota.
    + unfold ret at 1. apply IH. intros k f' Hin. apply Hall. right. exact Hin.
    + destruct (Hall k0 f (or_introl eq_refl) Hk) as [Hd [v Hv]].
      rewrite Hd. unfold bind at 1, lift, ret. rewrite Hv.
      apply IH. intros k f' Hin. apply Hall. right. exact Hin.
Qed.

Lemma fill_in_defaults_binds (py : Builtins) (W R : schema)
  (writers_fields_dict : list (string * field))
  (items : list (string * field)) :
  forall record st record' st',
    fill_in_defaults py W R writers_fields_dict items record st
    = (Ok record', st') ->
    NoDup (map (fun kv => name (snd kv)) items) ->
    forall k f, In (k, f) items ->
                has_key writers_fields_dict k = false ->
                exists v,
                  read_default_value py (type f) (default f) = Ok v
                  /\ dict_lookup record' (name f) = Some v.
Proof.
  induction items as [| [k0 f0] items IH];
    intros record st record' st' Hrun Hnd k f Hin Hk.
  - contradiction.
  - simpl in Hnd. inversion Hnd as [| ? ? Hnotin Hnd']; subst.
    simpl in Hrun. unfold bind at 1 in Hrun.
    destruct Hin as [Heq | Hin].
    + injection Heq as -> ->. rewrite Hk in Hrun. simpl in Hrun.
      destruct (has_default f); [| discriminate].
      unfold bind, lift, ret in Hrun.
      destruct (read_default_value py (type f) (default f)) as [v | e |];
        try discriminate.
      exists v. split; [reflexivity |].
      fold (@bind (list (string * pyval)) (list (string * pyval))) in Hrun.
      destruct (fill_in_defaults_other _ _ _ _ _ _ _ _ _ Hrun) as [_ Hother].
      rewrite (Hother (name f) Hnotin). apply dict_lookup_set_same.
    + destruct (negb (has_key writers_fields_dict k0)).
      * destruct (has_default f0); [| discriminate].
        unfold bind, lift, ret in Hrun.
        destruct (read_default_value py (type f0) (default f0))
          as [v0 | e |]; try discriminate.
        fold (@bind (list (string * pyval)) (list (string * pyval))) in Hrun.
        exact (IH _ _ _ _ Hrun Hnd' k f Hin Hk).
      * unfold ret in Hrun. exact (IH _ _ _ _ Hrun Hnd' k f Hin Hk).
Qed.

Lemma fill_in_defaults_raise (py : Builtins) (W R : schema)
  (writers_fields_dict : list (string * field))
  (items : list (string * field)) :
  forall record st,
    (forall k f, In (k, f) items ->
                 has_key writers_fields_dict k = false ->
                 has_default f = true ->
                 exists v,
                   read_default_value py (type f) (default f) = Ok v) ->
    (exists k f, In (k, f) items
                 /\ has_key writers_fields_dict k = false
                 /\ has_default f = false) ->
    exists field_name,
      fill_in_defaults py W R writers_fields_dict items record st
      = (Raise (SchemaResolutionException
                  (msg_no_default_value field_name) W R), st).
Proof.
  induction items as [| [k0 f0] items IH];
    intros record st Hreify [k [f [Hin [Hk Hd]]]].
  - contradiction.
  - simpl. unfold bind at 1.
    assert (Hreify' : forall k f, In (k, f) items ->
                        has_key writers_fields_dict k = false ->
                        has_default f = true ->
                        exists v,
                          read_default_value py (type f) (default f) = Ok v).
    { intros k' f' Hin'. apply Hreify. right. exact Hin'. }
    destruct (has_key writers_fields_dict k0) eqn:Hk0; simpl negb; cbv iota.
    + unfold ret at 1. apply IH; [exact Hreify' |].
      destruct Hin as [Heq | Hin]; [injection Heq as -> ->; congruence |].
      exists k, f. tauto.
    + destruct (has_default f0) eqn:Hd0.
      * destruct (Hreify k0 f0 (or_introl eq_refl) Hk0 Hd0) as [v Hv].
        unfold bind at 1, lift, ret. rewrite Hv.
        apply IH; [exact Hreify' |].
        destruct Hin as [Heq | Hin]; [injection Heq as -> ->; congruence |].
        exists k, f. tauto.
      * exists k0. reflexivity.
Qed.

Lemma dict_get_record_datum (d : list (string * pyval)) (k : string) :
  dict_get (map (fun kv => (PUnicode (fst kv), snd kv)) d) k
  = match dict_lookup d k with Some v => v | None => PNone end.
Proof.
  unfold dict_get, dict_lookup.
  induction d as [| [k0 v] d IH]; simpl; [reflexivity |].
  destruct (String.eqb k0 k); [reflexivity | exact IH].
Qed.

(** A reader's field that the writer lacks is not bound by the first loop,
    so the second loop runs. *)
Lemma missing_field_leaves_room (read : schema -> schema -> Dec pyval)
  (skip : schema -> Dec unit) (wfields rfields : list field) (F : field)
  (st st1 : state) (record1 : list (string * pyval)) :
  dict_lookup (fields_dict rfields) (name F) = Some F ->
  has_key (fields_dict wfields) (name F) = false ->
  read_writers_fields read skip (fields_dict rfields) wfields [] st
  = (Ok record1, st1) ->
  (List.length record1 <? List.length (fields_dict rfields))%nat = true.
Proof.
  intros HF Hmissing Hrun.
  destruct (read_writers_fields_keys _ _ _ _ _ _ _ _ Hrun (NoDup_nil _))
    as [Hnd Hkeys].
  destruct (fields_dict_spec wfields) as [_ [_ Hwkeys]].
  assert (HFkey : In (name F) (map fst (fields_dict rfields))).
  { apply has_key_In. unfold has_key. rewrite HF. reflexivity. }
  assert (Hnot : ~ In (name F) (map fst record1)).
  { intros Hin. destruct (Hkeys _ Hin) as [[] | [Hw _]].
    apply Hwkeys, has_key_In in Hw. congruence. }
  assert (Hincl : incl (name F :: map fst record1)
                    (map fst (fields_dict rfields))).
  { intros k [<- | Hk]; [exact HFkey |].
    destruct (Hkeys _ Hk) as [[] | [_ Hr]]. apply has_key_In. exact Hr. }
  pose proof (NoDup_incl_length (NoDup_cons _ Hnot Hnd) Hincl) as Hlen.
  simpl in Hlen. rewrite !length_map in Hlen.
  apply Nat.ltb_lt. lia.
Qed.

(** C3.  Record defaults on decode: let the reader's record schema [R]
    have a field [F] that the writer's schema [W] lacks, let the fields of
    the writer be decoded, and let the defaults of the reader's other
    missing fields be well formed.  If [F] has no default, [read_record]
    fails with a [SchemaResolutionException] that carries [W] and [R].  If
    [F] and the other missing fields have defaults, [read_record] returns
    a record that binds [F]'s name to
    [read_default_value F.type F.default]. *)
Theorem record_defaults (py : Builtins) (read : schema -> schema -> Dec pyval)
  (skip : schema -> Dec unit) (ow or : nat) (tw tr : record_type)
  (nw nr : string) (wfields rfields : list field) (F : field)
  (st st1 : state) (record1 : list (string * pyval)) :
  let W := RecordSchema ow tw nw wfields in
  let R := RecordSchema or tr nr rfields in
  same_object R W = false ->
  dict_lookup (fields_dict rfields) (name F) = Some F ->
  has_key (fields_dict wfields) (name F) = false ->
  read_writers_fields read skip (fields_dict rfields) wfields [] st
  = (Ok record1, st1) ->
  (forall G, In G rfields ->
             has_key (fields_dict wfields) (name G) = false ->
             has_default G = true ->
             exists v, read_default_value py (type G) (default G) = Ok v) ->
  (has_default F = false ->
   exists field_name,
     read_record py read skip W R st
     = (Raise (SchemaResolutionException
                 (msg_no_default_value field_name) W R), st1))
  /\ (has_default F = true ->
      (forall G, In G rfields ->
                 has_key (fields_dict wfields) (name G) = false ->
                 has_default G = true) ->
      exists v d,
        read_default_value py (type F) (default F) = Ok v
        /\ read_record py read skip W R st = (Ok (PDict d), st1)
        /\ dict_get d (name F) = v).
Proof.
  intros W R Hdiff HF Hmissing Hrun Hreify.
  pose proof (missing_field_leaves_room _ _ _ _ _ _ _ _ HF Hmissing Hrun)
    as Hroom.
  destruct (fields_dict_spec rfields) as [Hnd [Hnamed _]].
  pose proof (fields_dict_In rfields) as Hin_fields.
  rewrite Forall_forall in Hnamed, Hin_fields.
  assert (HFin : In (name F, F) (fields_dict rfields)).
  { unfold dict_lookup in HF.
    destruct (find _ (fields_dict rfields)) as [[k f] |] eqn:Hfind;
      [| discriminate].
    injection HF as ->. apply find_some in Hfind.
    destruct Hfind as [Hin Hk]. simpl in Hk. apply String.eqb_eq in Hk.
    subst k. exact Hin. }
  assert (Hstart : read_record py read skip W R st
                   = match fill_in_defaults py W R (fields_dict wfields)
                             (fields_dict rfields) record1 st1 with
                     | (Ok rec, s) => (Ok (record_datum rec), s)
                     | (Raise e, s) => (Raise e, s)
                     | (Diverge, s) => (Diverge, s)
                     end).
  { unfold read_record. rewrite Hdiff. subst W R.
    unfold fields_of, lift, bind at 1 2 3. rewrite Hrun.
    rewrite Hroom. unfold bind.
    destruct (fill_in_defaults py _ _ (fields_dict wfields)
                (fields_dict rfields) record1 st1) as [[rec | e |] s];
      reflexivity. }
  split.
  - intros Hnone.
    destruct (fill_in_defaults_raise py W R (fields_dict wfields)
                (fields_dict rfields) record1 st1) as [field_name Hraise].
    + intros k f Hin Hk Hd. apply Hreify; [| | exact Hd].
      * exact (Hin_fields _ Hin).
      * pose proof (Hnamed _ Hin) as Hn. simpl in Hn.
        rewrite <- Hn. exact Hk.
    + exists (name F), F. tauto.
    + exists field_name. rewrite Hstart, Hraise. reflexivity.
  - intros Hsome Hall.
    destruct (fill_in_defaults_ok py W R (fields_dict wfields)
                (fields_dict rfields) record1 st1) as [record2 Hok].
    + intros k f Hin Hk.
      assert (Hk' : has_key (fields_dict wfields) (name f) = false).
      { pose proof (Hnamed _ Hin) as Hn. simpl in Hn.
        rewrite <- Hn. exact Hk. }
      pose proof (Hall f (Hin_fields _ Hin) Hk') as Hd.
      split; [exact Hd |]. apply Hreify; [exact (Hin_fields _ Hin) | | ];
        assumption.
    + destruct (fill_in_defaults_binds py W R (fields_dict wfields)
                  (fields_dict rfields) record1 st1 record2 st1 Hok)
        with (k := name F) (f := F) as [v [Hv Hbound]].
      * assert (Hnames : map fst (fields_dict rfields)
                         = map (fun kv : string * field => name (snd kv))
                             (fields_dict rfields)).
        { apply map_ext_in. intros kv Hin. exact (Hnamed _ Hin). }
        rewrite Hnames in Hnd. exact Hnd.
      * exact HFin.
      * exact Hmissing.
      * exists v, (map (fun kv => (PUnicode (fst kv), snd kv)) record2).
        split; [exact Hv |]. split.
        -- rewrite Hstart, Hok. reflexivity.
        -- rewrite dict_get_record_datum, Hbound. reflexivity.
Qed.

Lemma record_defaults_witness :
  exists v d,
    read_default_value Reference.builtins (PrimitiveSchema 11 t_string)
      (PUnicode "x") = Ok v
    /\ fst (read_record Reference.builtins (read_data Reference.builtins 5)
              (skip_data 5) Examples.record_a Examples.record_a_b_default
              (decoding [] [Byte.x0e] []))
       = Ok (PDict d)
    /\ dict_get d "b" = v.
Proof.
  pose (F := Field "b"%string (PrimitiveSchema 11 t_string) true
               (PUnicode "x")).
  pose (st := decoding [] [Byte.x0e] []).
  pose (run := read_writers_fields (read_data Reference.builtins 5)
                 (skip_data 5)
                 (fields_dict
                    [Field "a"%string (PrimitiveSchema 10 t_int) false PNone;
                     F])
                 [Field "a"%string Examples.int_schema false PNone] [] st).
  destruct (record_defaults Reference.builtins
              (read_data Reference.builtins 5) (skip_data 5)
              9 12 t_record t_record "R" "R"
              [Field "a"%string Examples.int_schema false PNone]
              [Field "a"%string (PrimitiveSchema 10 t_int) false PNone; F]
              F st (snd run) [("a"%string, PInt 7)]) as [_ Hdefault].
  - reflexivity.
  - reflexivity.
  - reflexivity.
  - reflexivity.
  - intros G [<- | [<- | []]] _ Hd; [discriminate Hd |].
    exists (PUnicode "x"). reflexivity.
  - destruct Hdefault as [v [d [Hv [Hread Hget]]]].
    + reflexivity.
    + intros G [<- | [<- | []]] Hk; [discriminate Hk | reflexivity].
    + exists v, d. split; [exact Hv |]. split; [| exact Hget].
      change Examples.record_a_b_default
        with (RecordSchema 12 t_record "R"
                [Field "a"%string (PrimitiveSchema 10 t_int) false PNone; F]).
      change Examples.record_a
        with (RecordSchema 9 t_record "R"
                [Field "a"%string Examples.int_schema false PNone]).
      fold st. rewrite Hread. reflexivity.
Defined.

(** ** Reading back what was written *)

Lemma reads_back_ret {A} (a : A) : reads_back (ret a) [] a.
Proof.
  intros consumed rest c Hc. exists c. rewrite app_nil_r. split; [reflexivity | exact Hc].
Qed.

Lemma reads_back_bind {A B} (m : Dec A) (k : A -> Dec B)
  (out out' : list byte) (a : A) (b : B) :
  reads_back m out a -> reads_back (k a) out' b ->
  reads_back (bind m k) (out ++ out') b.
Proof.
  intros Hm Hk consumed rest c Hc.
  destruct (Hm consumed (out' ++ rest) c Hc) as [c1 [H1 Hc1]].
  destruct (Hk (consumed ++ out) rest c1 Hc1) as [c2 [H2 Hc2]].
  exists c2. unfold bind. rewrite <- app_assoc, H1, H2.
  rewrite <- app_assoc. split; [reflexivity | exact Hc2].
Qed.

Lemma reads_back_lift {A B} (a : A) (k : A -> Dec B) (out : list byte)
  (b : B) :
  reads_back (k a) out b -> reads_back (bind (lift (Ok a)) k) out b.
Proof.
  intros Hk. exact Hk.
Qed.

Lemma reads_back_try_except {A} (m h : Dec A) (E : py_error -> bool)
  (out : list byte) (a : A) :
  reads_back m out a -> reads_back (try_except m E h) out a.
Proof.
  intros Hm consumed rest c Hc.
  destruct (Hm consumed rest c Hc) as [c' [H Hc']].
  exists c'. unfold try_except. rewrite H. split; [reflexivity | exact Hc'].
Qed.

Lemma reads_back_repeat {A X} (m : Dec A) (f : X -> A) (l : list X)
  (outs : list (list byte)) :
  Forall2 (fun x out => reads_back m out (f x)) l outs ->
  reads_back (repeat_dec (List.length l) m) (List.concat outs) (map f l).
Proof.
  induction 1 as [| x out l outs Hx _ IH]; simpl.
  - apply reads_back_ret.
  - apply reads_back_bind with (a := f x); [exact Hx |].
    rewrite <- (app_nil_r (List.concat outs)).
    apply reads_back_bind with (a := map f l); [exact IH |].
    apply reads_back_ret.
Qed.

Lemma reads_back_for_each {A X} (body : X -> Dec A) (f : X -> A)
  (l : list X) (outs : list (list byte)) :
  Forall2 (fun x out => reads_back (body x) out (f x)) l outs ->
  reads_back (for_each l body) (List.concat outs) (map f l).
Proof.
  induction 1 as [| x out l outs Hx _ IH]; simpl.
  - apply reads_back_ret.
  - apply reads_back_bind with (a := f x); [exact Hx |].
    rewrite <- (app_nil_r (List.concat outs)).
    apply reads_back_bind with (a := map f l); [exact IH |].
    apply reads_back_ret.
Qed.

Lemma reads_back_read (out : list byte) (n : Z) :
  n = Z.of_nat (List.length out) ->
  reads_back (BinaryDecoder.read n) out out.
Proof.
  intros Hn consumed rest c Hc. exists c.
  rewrite (read_decoding n consumed out rest c Hn).
  split; [reflexivity | exact Hc].
Qed.

Lemma reads_back_long (n : Z) (out : list byte) :
  - 2 ^ 63 <= n < 2 ^ 63 ->
  BinaryEncoder.write_long n = (Ok tt, out) ->
  reads_back BinaryDecoder.read_long out n.
Proof.
  intros Hn Hw consumed rest c Hc.
  destruct (write_long_read_long n Hn) as [b [bs [Hw' Hr]]].
  rewrite Hw in Hw'. injection Hw' as ->.
  exists c. rewrite Hr. split; [reflexivity | exact Hc].
Qed.

Lemma countable_range (n : nat) :
  countable n = true -> - 2 ^ 63 <= Z.of_nat n < 2 ^ 63.
Proof.
  unfold countable. intros H. apply Z.ltb_lt in H. lia.
Qed.

(** ** Inverting a successful write *)

Lemma enc_bind_inv {A B} (m : Enc A) (k : A -> Enc B) (b : B)
  (out : list byte) :
  enc_bind m k = (Ok b, out) ->
  exists a out1 out2,
    m = (Ok a, out1) /\ k a = (Ok b, out2) /\ out = out1 ++ out2.
Proof.
  unfold enc_bind. destruct m as [[a | e |] out1]; try discriminate.
  destruct (k a) as [r out2] eqn:Hk. intros H. injection H as -> <-.
  exists a, out1, out2. repeat split. exact Hk.
Qed.

Lemma enc_lift_inv {A} (o : outcome A) (a : A) (out : list byte) :
  enc_lift o = (Ok a, out) -> o = Ok a /\ out = [].
Proof.
  unfold enc_lift. intros H. injection H as -> <-. split; reflexivity.
Qed.

Lemma enc_for_each_inv {A} (body : A -> Enc unit) (l : list A) :
  forall out,
    enc_for_each body l = (Ok tt, out) ->
    exists outs,
      Forall2 (fun x o => body x = (Ok tt, o)) l outs
      /\ out = List.concat outs.
Proof.
  induction l as [| x l IH]; simpl; intros out H.
  - injection H as <-. exists []. split; [constructor | reflexivity].
  - apply enc_bind_inv in H. destruct H as [[] [o1 [o2 [Hx [Hl ->]]]]].
    destruct (IH o2 Hl) as [outs [Hall ->]].
    exists (o1 :: outs). split; [constructor; assumption | reflexivity].
Qed.

Lemma write_data_inv (py : Builtins) (s : schema) (datum : pyval)
  (out : list byte) :
  write_data py s datum = (Ok tt, out) ->
  datum_to_encoder py (write_data py) s datum = (Ok tt, out).
Proof.
  rewrite write_data_unfold. unfold unknown_type_on_exception.
  destruct (datum_to_encoder py (write_data py) s datum) as [[[] | e |] o];
    intros H; try discriminate; exact H.
Qed.

(** ** Leaf values *)

Lemma length_list_byte_of_string (s : string) :
  List.length (list_byte_of_string s) = String.length s.
Proof.
  induction s as [| a s IH]; simpl; [reflexivity |].
  f_equal. exact IH.
Qed.

Lemma testbit_ones (n i : Z) :
  0 <= n -> Z.testbit (Z.ones n) i = (0 <=? i) && (i <? n).
Proof.
  intros Hn. destruct (Z.leb_spec 0 i) as [Hi | Hi]; simpl.
  - apply Z.testbit_ones_nonneg; assumption.
  - apply Z.testbit_neg_r. exact Hi.
Qed.

Lemma little_endian_read_back (n : nat) :
  forall bits,
  exists out,
    BinaryEncoder.little_endian n bits = (Ok tt, out)
    /\ List.length out = n
    /\ forall k, 0 <= k ->
         BinaryDecoder.or_shifted out k
         = Z.shiftl (Z.land bits (Z.ones (8 * Z.of_nat n))) k.
Proof.
  induction n as [| n IH]; intros bits.
  - exists []. repeat split. intros k Hk. simpl.
    rewrite Z.land_0_r, Z.shiftl_0_l. reflexivity.
  - destruct (chr_ok (Z.land bits 255)) as [b [Hchr Hord]].
    { change 255 with (Z.ones 8). rewrite Z.land_ones by lia.
      change (2 ^ 8) with 256. apply Z.mod_pos_bound. lia. }
    destruct (IH (Z.shiftr bits 8)) as [out [Hw [Hlen Hor]]].
    exists (b :: out). split; [| split].
    + simpl. unfold BinaryEncoder.write_chr, enc_lift. rewrite Hchr.
      unfold BinaryEncoder.write. rewrite !enc_bind_ok, Hw. reflexivity.
    + simpl. f_equal. exact Hlen.
    + intros k Hk. simpl BinaryDecoder.or_shifted.
      rewrite Hord, Hor by lia.
      remember (8 * Z.of_nat n) as N eqn:HN.
      replace (8 * Z.of_nat (S n)) with (N + 8) by lia.
      assert (HN0 : 0 <= N) by lia. clear HN.
      apply Z.bits_inj'. intros j Hj.
      rewrite Z.lor_spec, !Z.shiftl_spec, !Z.land_spec by lia.
      change 255 with (Z.ones 8).
      rewrite !testbit_ones by lia.
      destruct (Z.ltb_spec j k) as [Hlow | Hhigh].
      * rewrite !(Z.testbit_neg_r bits) by lia.
        rewrite (Z.testbit_neg_r _ (j - (k + 8))) by lia. reflexivity.
      * destruct (Z.leb_spec 0 (j - k)) as [_ | H]; [| lia].
        destruct (Z.ltb_spec (j - k) 8) as [Hin | Hout].
        -- rewrite (Z.testbit_neg_r _ (j - (k + 8))) by lia.
           destruct (Z.ltb_spec (j - k) (N + 8)) as [_ | H]; [| lia].
           rewrite orb_false_r. reflexivity.
        -- rewrite Z.shiftr_spec by lia.
           replace (j - (k + 8) + 8) with (j - k) by lia.
           destruct (Z.leb_spec 0 (j - (k + 8))) as [_ | H]; [| lia].
           rewrite andb_false_r. cbn [andb orb].
           f_equal.
           destruct (Z.ltb_spec (j - (k + 8)) N);
             destruct (Z.ltb_spec (j - k) (N + 8));
             (reflexivity || lia).
Qed.

Lemma reads_back_bytes (py : Builtins) (s : string) (out : list byte) :
  countable (String.length s) = true ->
  BinaryEncoder.write_bytes py (PStr s) = (Ok tt, out) ->
  reads_back BinaryDecoder.read_bytes out (PStr s).
Proof.
  intros Hlen Hw. unfold BinaryEncoder.write_bytes, BinaryEncoder.len in Hw.
  rewrite enc_bind_lift_ok in Hw.
  apply enc_bind_inv in Hw. destruct Hw as [[] [o1 [o2 [Hcount [Hs ->]]]]].
  unfold BinaryEncoder.write in Hs. injection Hs as <-.
  unfold BinaryDecoder.read_bytes.
  apply reads_back_bind with (a := Z.of_nat (String.length s)).
  - apply reads_back_long; [apply countable_range; exact Hlen | exact Hcount].
  - rewrite <- (app_nil_r (list_byte_of_string s)).
    apply reads_back_bind with (a := list_byte_of_string s).
    + apply reads_back_read. rewrite length_list_byte_of_string. reflexivity.
    + rewrite string_of_list_byte_of_string. apply reads_back_ret.
Qed.

(** Text that is written is read as the [unicode] object of that text. *)
Lemma reads_back_utf8 (py : Builtins) (datum : pyval) (out : list byte) :
  python_object py datum = true ->
  BinaryEncoder.write_utf8 py datum = (Ok tt, out) ->
  reads_back (BinaryDecoder.read_utf8 py) out (PUnicode (unicode_text datum)).
Proof.
  intros Hobj Hw. unfold BinaryEncoder.write_utf8 in Hw.
  apply enc_bind_inv in Hw. destruct Hw as [v [o1 [o2 [Henc [Hs ->]]]]].
  apply enc_lift_inv in Henc. destruct Henc as [Henc ->]. simpl app.
  assert (Htext : v = PStr (unicode_text datum)
                  /\ countable (String.length (unicode_text datum)) = true
                  /\ utf8_valid py (unicode_text datum) = true).
  { destruct datum; simpl in Henc; try discriminate.
    - destruct (is_ascii s) eqn:Ha; [| discriminate].
      injection Henc as <-. simpl in Hobj |- *.
      repeat split; [exact Hobj | apply utf8_valid_ascii; exact Ha].
    - injection Henc as <-. simpl in Hobj |- *.
      apply andb_true_iff in Hobj. destruct Hobj as [H1 H2].
      repeat split; assumption. }
  destruct Htext as [-> [Hlen Hvalid]].
  unfold BinaryDecoder.read_utf8.
  rewrite <- (app_nil_r o2).
  apply reads_back_bind with (a := PStr (unicode_text datum)).
  - eapply reads_back_bytes; eassumption.
  - rewrite Hvalid. apply reads_back_ret.
Qed.

Lemma reads_back_bytes_left {B} (k : nat -> Dec B) (out : list byte) (b : B) :
  (forall turns, (List.length out <= turns)%nat -> reads_back (k turns) out b) ->
  reads_back (bind bytes_left k) out b.
Proof.
  intros Hk consumed rest c Hc. unfold bind, bytes_left.
  rewrite remaining_decoding.
  apply Hk; [rewrite length_app; lia | exact Hc].
Qed.

(** One block with all the items, then the block of count zero. *)
Lemma reads_back_blocks {A X} (item : Dec A) (f : X -> A) (l : list X)
  (outs : list (list byte)) (turns : nat) :
  Forall2 (fun x out => reads_back item out (f x)) l outs ->
  l <> [] ->
  (1 <= turns)%nat ->
  reads_back (read_blocks (S turns) item (Z.of_nat (List.length l)))
    (List.concat outs ++ [Byte.x00]) (map f l).
Proof.
  intros Hitems Hne Hturns.
  destruct turns as [| turns]; [lia |].
  assert (Hpos : 0 < Z.of_nat (List.length l)).
  { destruct l; [contradiction | simpl; lia]. }
  change (read_blocks (S (S turns)) item (Z.of_nat (List.length l)))
    with (if negb (Z.of_nat (List.length l) =? 0)
          then
            bind (if Z.of_nat (List.length l) <? 0
                  then bind BinaryDecoder.read_long
                         (fun _ => ret (- Z.of_nat (List.length l)))
                  else ret (Z.of_nat (List.length l)))
              (fun block_count =>
                 bind (repeat_dec (Z.to_nat block_count) item)
                   (fun block =>
                      bind BinaryDecoder.read_long
                        (fun block_count =>
                           bind (read_blocks (S turns) item block_count)
                             (fun rest => ret (block ++ rest)))))
          else ret []).
  destruct (Z.eqb_spec (Z.of_nat (List.length l)) 0) as [H | _]; [lia |].
  destruct (Z.ltb_spec (Z.of_nat (List.length l)) 0) as [H | _]; [lia |].
  simpl negb. cbv iota.
  change (List.concat outs ++ [Byte.x00])
    with ([] ++ List.concat outs ++ [Byte.x00]).
  apply reads_back_bind with (a := Z.of_nat (List.length l));
    [apply reads_back_ret |].
  rewrite Nat2Z.id.
  apply reads_back_bind with (a := map f l);
    [apply reads_back_repeat; exact Hitems |].
  rewrite <- (app_nil_r [Byte.x00]).
  apply reads_back_bind with (a := 0).
  - apply reads_back_long; [lia | reflexivity].
  - change (read_blocks (S turns) item 0) with (@ret (list A) []).
    apply (reads_back_bind (ret []) (fun rest => ret (map f l ++ rest))
             [] [] [] (map f l)); [apply reads_back_ret |].
    rewrite app_nil_r. apply reads_back_ret.
Qed.

(** The framing of [write_array] and [write_map] and the loop of
    [read_array] and [read_map]. *)
Lemma reads_back_framed {A B X} (item : Dec A) (f : X -> A) (g : list A -> B)
  (l : list X) (outs : list (list byte)) (count : list byte) :
  Forall2 (fun x out => reads_back item out (f x)) l outs ->
  countable (List.length l) = true ->
  (if Z.of_nat (List.length l) >? 0
   then BinaryEncoder.write_long (Z.of_nat (List.length l)) = (Ok tt, count)
   else count = [] /\ l = []) ->
  reads_back
    (bind BinaryDecoder.read_long
       (fun block_count =>
          bind bytes_left
            (fun turns =>
               bind (read_blocks (S turns) item block_count)
                 (fun items => ret (g items)))))
    (count ++ (if Z.of_nat (List.length l) >? 0
               then List.concat outs else [])
           ++ [Byte.x00])
    (g (map f l)).
Proof.
  intros Hitems Hlen Hcount.
  destruct (Z.gtb_spec (Z.of_nat (List.length l)) 0) as [Hpos | Hzero].
  - apply reads_back_bind with (a := Z.of_nat (List.length l)).
    + apply reads_back_long; [apply countable_range; exact Hlen | exact Hcount].
    + apply reads_back_bytes_left. intros turns Hturns.
      rewrite <- (app_nil_r (List.concat outs ++ [Byte.x00])).
      apply reads_back_bind with (a := map f l); [| apply reads_back_ret].
      apply reads_back_blocks; [exact Hitems | |].
      * intros ->. simpl in Hpos. lia.
      * rewrite length_app in Hturns. simpl in Hturns. lia.
  - destruct Hcount as [-> ->]. simpl.
    change [Byte.x00] with ([Byte.x00] ++ []).
    apply reads_back_bind with (a := 0).
    + apply reads_back_long; [lia | reflexivity].
    + apply reads_back_bytes_left. intros turns _.
      apply (reads_back_bind (ret []) (fun items => ret (g items))
               [] [] [] (g [])); apply reads_back_ret.
Qed.

Lemma list_index_find (datum : pyval) (symbols : list string) :
  forall start i,
    list_index datum symbols start = Ok i ->
    exists symbol,
      find (key_is datum) symbols = Some symbol
      /\ nth_error symbols (Z.to_nat (i - start)) = Some symbol
      /\ start <= i < start + Z.of_nat (List.length symbols).
Proof.
  induction symbols as [| s symbols IH]; intros start i H; simpl in H.
  - discriminate.
  - simpl find. destruct (key_is datum s).
    + injection H as <-. exists s. rewrite Z.sub_diag. simpl.
      repeat split; lia.
    + destruct (IH _ _ H) as [symbol [Hfind [Hnth Hrange]]].
      exists symbol. split; [exact Hfind |]. split.
      * replace (Z.to_nat (i - start)) with (S (Z.to_nat (i - (start + 1))))
          by lia. exact Hnth.
      * simpl List.length. lia.
Qed.

Lemma py_index_nonneg {A} (l : list A) (i : Z) (x : A) :
  0 <= i -> nth_error l (Z.to_nat i) = Some x -> py_index l i = Ok x.
Proof.
  intros Hi Hnth. unfold py_index.
  assert (Hlt : (Z.to_nat i < List.length l)%nat).
  { apply nth_error_Some. congruence. }
  destruct (Z.ltb_spec i 0) as [H | _]; [lia |].
  destruct (Z.ltb_spec i 0) as [H | _]; [lia |].
  destruct (Z.leb_spec (Z.of_nat (List.length l)) i) as [H | _]; [lia |].
  simpl. rewrite Hnth. reflexivity.
Qed.

Lemma int_range_long (n : Z) :
  (INT_MIN_VALUE <=? n) && (n <=? INT_MAX_VALUE) = true
  \/ (LONG_MIN_VALUE <=? n) && (n <=? LONG_MAX_VALUE) = true ->
  - 2 ^ 63 <= n < 2 ^ 63.
Proof.
  unfold INT_MIN_VALUE, INT_MAX_VALUE, LONG_MIN_VALUE, LONG_MAX_VALUE.
  rewrite !Z.shiftl_1_l.
  assert (2 ^ 31 < 2 ^ 63) by (apply Z.pow_lt_mono_r; lia).
  intros [H' | H']; apply andb_true_iff in H'; destruct H' as [H1 H2];
    apply Z.leb_le in H1, H2; lia.
Qed.

Lemma int_operand_value (datum : pyval) :
  is_int_or_long datum = true ->
  BinaryEncoder.int_operand datum = Ok (int_value datum).
Proof.
  destruct datum as [| [] | | | | | | |]; simpl; intros H;
    try discriminate; reflexivity.
Qed.

Lemma reads_back_integer (datum : pyval) (out : list byte) :
  is_int_or_long datum = true ->
  - 2 ^ 63 <= int_value datum < 2 ^ 63 ->
  enc_bind (enc_lift (BinaryEncoder.int_operand datum))
    BinaryEncoder.write_long = (Ok tt, out) ->
  reads_back (bind BinaryDecoder.read_long (fun n => ret (PInt n))) out
    (PInt (int_value datum)).
Proof.
  intros Hint Hrange Hw.
  rewrite (int_operand_value datum Hint), enc_bind_lift_ok in Hw.
  rewrite <- (app_nil_r out).
  apply reads_back_bind with (a := int_value datum).
  - apply reads_back_long; assumption.
  - apply reads_back_ret.
Qed.

Lemma reads_back_little_endian {A} (n : nat) (bits : Z) (out : list byte)
  (k : Z -> A) :
  BinaryEncoder.little_endian n bits = (Ok tt, out) ->
  reads_back (bind (BinaryDecoder.read (Z.of_nat n))
                (fun s => ret (k (BinaryDecoder.or_shifted s 0))))
    out (k (Z.land bits (Z.ones (8 * Z.of_nat n)))).
Proof.
  intros Hw.
  destruct (little_endian_read_back n bits) as [out' [Hw' [Hlen Hor]]].
  rewrite Hw in Hw'. injection Hw' as <-.
  rewrite <- (app_nil_r out).
  apply reads_back_bind with (a := out).
  - apply reads_back_read. rewrite Hlen. reflexivity.
  - rewrite Hor, Z.shiftl_0_r by lia. apply reads_back_ret.
Qed.

(** The schemas without nested schemas. *)
Lemma round_trip_leaf (py : Builtins) (read : schema -> schema -> Dec pyval)
  (skip : schema -> Dec unit) (s : schema) (datum : pyval)
  (out : list byte) :
  match s with
  | PrimitiveSchema _ _ | FixedSchema _ _ _ | EnumSchema _ _ _ => True
  | _ => False
  end ->
  well_formed s = true ->
  validate s datum = true ->
  python_object py datum = true ->
  write_data py s datum = (Ok tt, out) ->
  reads_back (type_to_decoder py read skip s s) out (normalize py s datum).
Proof.
  intros Hleaf Hwf Hvalid Hobj Hw. apply write_data_inv in Hw.
  destruct s as [oid t | oid n size | oid n symbols | | | |];
    try contradiction; clear Hleaf.
  - destruct t; simpl in Hvalid, Hw |- *.
    + (* null *)
      unfold BinaryEncoder.write_null, enc_ret in Hw. injection Hw as <-.
      apply reads_back_ret.
    + (* boolean *)
      destruct datum as [| b | | | | | | |]; try discriminate.
      unfold BinaryEncoder.write_boolean in Hw. simpl in Hw.
      intros consumed rest c Hc. exists c. split; [| exact Hc].
      unfold BinaryDecoder.read_boolean, bind.
      destruct b; injection Hw as <-; simpl app;
        rewrite read_ord_decoding; reflexivity.
    + (* int *)
      apply andb_true_iff in Hvalid. destruct Hvalid as [Hvalid H2].
      apply andb_true_iff in Hvalid. destruct Hvalid as [Hint H1].
      apply reads_back_integer; [exact Hint | | exact Hw].
      apply int_range_long. left. rewrite H1, H2. reflexivity.
    + (* long *)
      apply andb_true_iff in Hvalid. destruct Hvalid as [Hvalid H2].
      apply andb_true_iff in Hvalid. destruct Hvalid as [Hint H1].
      apply reads_back_integer; [exact Hint | | exact Hw].
      apply int_range_long. right. rewrite H1, H2. reflexivity.
    + (* float *)
      unfold BinaryEncoder.write_float in Hw.
      apply enc_bind_inv in Hw. destruct Hw as [bits [o1 [o2 [Hb [Hw ->]]]]].
      apply enc_lift_inv in Hb. destruct Hb as [Hb ->]. rewrite Hb.
      apply (reads_back_little_endian 4 bits o2
               (fun b => PFloat (double_of_single py b))). exact Hw.
    + (* double *)
      unfold BinaryEncoder.write_double in Hw.
      apply enc_bind_inv in Hw. destruct Hw as [bits [o1 [o2 [Hb [Hw ->]]]]].
      apply enc_lift_inv in Hb. destruct Hb as [Hb ->]. rewrite Hb.
      apply (reads_back_little_endian 8 bits o2 PFloat). exact Hw.
    + (* bytes *)
      destruct datum; try discriminate. simpl in Hobj.
      eapply reads_back_bytes; eassumption.
    + (* string *)
      apply reads_back_utf8; assumption.
  - (* fixed *)
    simpl in Hvalid, Hw |- *.
    destruct datum as [| | | | s | | | |]; try discriminate.
    apply Z.eqb_eq in Hvalid. unfold write_fixed, BinaryEncoder.write in Hw.
    injection Hw as <-.
    unfold read_fixed. simpl size_of.
    rewrite <- (app_nil_r (list_byte_of_string s)).
    apply reads_back_bind with (a := list_byte_of_string s).
    + apply reads_back_read. rewrite length_list_byte_of_string. lia.
    + rewrite string_of_list_byte_of_string. apply reads_back_ret.
  - (* enum *)
    simpl in Hvalid, Hw, Hwf |- *. unfold write_enum in Hw.
    apply enc_bind_inv in Hw. destruct Hw as [i [o1 [o2 [Hi [Hw ->]]]]].
    apply enc_lift_inv in Hi. destruct Hi as [Hi ->]. simpl app.
    destruct (list_index_find _ _ _ _ Hi) as [symbol [Hfind [Hnth Hrange]]].
    rewrite Hfind. rewrite Z.sub_0_r in Hnth.
    pose proof (countable_range _ Hwf) as Hcount.
    unfold read_enum. rewrite <- (app_nil_r o2).
    apply reads_back_bind with (a := i).
    + apply reads_back_long; [lia | exact Hw].
    + simpl symbols_of. apply reads_back_lift.
      destruct (Z.leb_spec (Z.of_nat (List.length symbols)) i) as [H | _];
        [lia |].
      rewrite (py_index_nonneg symbols i symbol) by (lia || exact Hnth).
      apply reads_back_lift. apply reads_back_lift.
      replace (existsb (String.eqb symbol) symbols) with true.
      * apply reads_back_ret.
      * symmetry. apply existsb_exists. exists symbol.
        split; [eapply nth_error_In; exact Hnth | apply String.eqb_refl].
Qed.

(** ** Unions *)

Lemma existsb_first {A} (p : A -> bool) (l : list A) :
  existsb p l = true ->
  exists i x,
    nth_error l i = Some x /\ p x = true
    /\ forall j y, (j < i)%nat -> nth_error l j = Some y -> p y = false.
Proof.
  induction l as [| a l IH]; simpl; [discriminate |].
  destruct (p a) eqn:Ha; simpl.
  - intros _. exists 0%nat, a. repeat split; [exact Ha |]. intros j y Hj. lia.
  - intros H. destruct (IH H) as [i [x [Hnth [Hx Hbefore]]]].
    exists (S i), x. repeat split; [exact Hnth | exact Hx |].
    intros [| j] y Hj Hy; simpl in Hy.
    + injection Hy as <-. exact Ha.
    + apply (Hbefore j y); [lia | exact Hy].
Qed.

Lemma distinct_branches_nth (l : list schema) :
  distinct_branches l = true ->
  forall i j B s,
    (j < i)%nat -> nth_error l j = Some s -> nth_error l i = Some B ->
    type_tag_eqb (schema_type B) (schema_type s)
    && same_type_to_match_schema B s = false.
Proof.
  induction l as [| a l IH]; intros Hd i j B s Hji Hj Hi.
  - destruct j; discriminate.
  - simpl in Hd. apply andb_true_iff in Hd. destruct Hd as [Ha Hl].
    destruct i as [| i]; [lia |]. simpl in Hi.
    destruct j as [| j]; simpl in Hj.
    + injection Hj as ->. rewrite forallb_forall in Ha.
      apply negb_true_iff. apply Ha. eapply nth_error_In. exact Hi.
    + apply (IH Hl i j); [lia | exact Hj | exact Hi].
Qed.

(** A promotion leads to a schema that validates more. *)
Lemma promotion_validates (B s : schema) (datum : pyval) :
  is_promotion (schema_type B) (schema_type s) ->
  validate B datum = true -> validate s datum = true.
Proof.
  unfold is_promotion. simpl. intros Hp HB.
  assert (H31 : 2 ^ 31 < 2 ^ 63) by (apply Z.pow_lt_mono_r; lia).
  destruct B as [? [] | | | | |? [] |? [] ]; simpl in Hp;
    repeat (destruct Hp as [Hp | Hp]; [try discriminate Hp |]);
    try contradiction;
    destruct s as [? [] | | | | |? [] |? [] ]; try discriminate Hp;
    simpl in HB |- *;
    try (apply andb_true_iff in HB; destruct HB as [HB H2];
         apply andb_true_iff in HB; destruct HB as [HB H1]);
    try (rewrite HB; reflexivity);
    try exact HB.
  rewrite HB. simpl.
  unfold INT_MIN_VALUE, INT_MAX_VALUE, LONG_MIN_VALUE, LONG_MAX_VALUE in *.
  rewrite !Z.shiftl_1_l in *.
  apply Z.leb_le in H1, H2.
  apply andb_true_iff. split; apply Z.leb_le; lia.
Qed.

(** The branch that the writer selects matches no earlier branch. *)
Lemma selected_branch_unmatched (oid : nat) (t : union_type)
  (schemas : list schema) (datum : pyval) (i : nat) (B : schema) :
  well_formed (UnionSchema oid t schemas) = true ->
  nth_error schemas i = Some B ->
  validate B datum = true ->
  (forall j s, (j < i)%nat -> nth_error schemas j = Some s ->
               validate s datum = false) ->
  forall j s, (j < i)%nat -> nth_error schemas j = Some s ->
              uncached_match B s = false.
Proof.
  intros Hwf HB Hvalid Hbefore j s Hj Hs.
  simpl in Hwf. apply andb_true_iff in Hwf. destruct Hwf as [Hwf _].
  apply andb_true_iff in Hwf. destruct Hwf as [Hwf Hdistinct].
  apply andb_true_iff in Hwf. destruct Hwf as [_ Hflat].
  rewrite forallb_forall in Hflat.
  pose proof (Hbefore j s Hj Hs) as Hinvalid.
  unfold uncached_match.
  destruct (same_object B s) eqn:Hsame.
  { apply same_object_iff in Hsame. subst s. congruence. }
  unfold __match_schema__.
  pose proof (distinct_branches_nth schemas Hdistinct i j B s Hj Hs HB)
    as Hd.
  destruct (type_tag_eqb (schema_type B) (schema_type s)); [exact Hd |].
  rewrite (proj1 (negb_true_iff _) (Hflat B (nth_error_In _ _ HB))).
  rewrite (proj1 (negb_true_iff _) (Hflat s (nth_error_In _ _ Hs))).
  cbn [orb].
  destruct (existsb _ __valid_schema_promotion__) eqn:E; [| reflexivity].
  apply is_promotion_iff in E.
  rewrite (promotion_validates B s datum E Hvalid) in Hinvalid.
  discriminate.
Qed.

Lemma match_schema_dec_sound (w r : schema) (consumed rest : list byte)
  (c : match_cache) :
  cache_sound c ->
  exists c',
    match_schema_dec w r (decoding consumed rest c)
    = (Ok (uncached_match w r), decoding consumed rest c')
    /\ cache_sound c'.
Proof.
  intros Hc. unfold match_schema_dec. simpl cache.
  destruct (match_schema_sound w r c Hc) as [Hv Hc'].
  destruct (match_schema w r c) as [v c']. simpl in Hv, Hc'. subst v.
  exists c'. split; [reflexivity | exact Hc'].
Qed.

(** The loop over the reader's branches stops at the writer's branch. *)
Lemma reads_back_resolve (read : schema -> schema -> Dec pyval)
  (B U : schema) (out : list byte) (a : pyval) (schemas : list schema) :
  forall i,
    nth_error schemas i = Some B ->
    (forall j s, (j < i)%nat -> nth_error schemas j = Some s ->
                 uncached_match B s = false) ->
    reads_back (read B B) out a ->
    reads_back (resolve_readers_union read B U schemas) out a.
Proof.
  induction schemas as [| s schemas IH]; intros i Hi Hbefore Hread.
  - destruct i; discriminate.
  - intros consumed rest c Hc. simpl. unfold bind.
    destruct (match_schema_dec_sound B s consumed (out ++ rest) c Hc)
      as [c1 [Hm Hc1]].
    rewrite Hm.
    destruct i as [| i]; simpl in Hi.
    + injection Hi as ->. unfold uncached_match.
      rewrite (proj2 (same_object_iff B B) eq_refl).
      apply Hread. exact Hc1.
    + rewrite (Hbefore 0%nat s) by (simpl; (lia || reflexivity)).
      apply (IH i); [exact Hi | | exact Hread | exact Hc1].
      intros j s' Hj Hs'. apply (Hbefore (S j) s'); [lia | exact Hs'].
Qed.

Lemma read_data_unfold (py : Builtins) (fuel : nat) (w r : schema) :
  read_data py (S fuel) w r
  = read_data_body py (read_data py fuel) (skip_data fuel) w r.
Proof.
  reflexivity.
Qed.

(** Reading one schema against itself goes straight to the decoder of its
    type. *)
Lemma reads_back_same (py : Builtins) (fuel : nat) (s : schema)
  (out : list byte) (a : pyval) :
  reads_back (type_to_decoder py (read_data py fuel) (skip_data fuel) s s)
    out a ->
  reads_back (read_data py (S fuel) s s) out a.
Proof.
  intros H. rewrite read_data_unfold. unfold read_data_body.
  rewrite (proj2 (same_object_iff s s) eq_refl). simpl negb. cbv iota.
  apply reads_back_try_except. exact H.
Qed.

(** A branch of a union read against the union is read against itself. *)
Lemma reads_back_branch (py : Builtins) (fuel : nat) (oid : nat)
  (t : union_type) (schemas : list schema) (B : schema) (i : nat)
  (out : list byte) (a : pyval) :
  is_union_tag (schema_type B) = false ->
  nth_error schemas i = Some B ->
  (forall j s, (j < i)%nat -> nth_error schemas j = Some s ->
               uncached_match B s = false) ->
  reads_back (read_data py fuel B B) out a ->
  reads_back (read_data py (S fuel) B (UnionSchema oid t schemas)) out a.
Proof.
  intros Hflat Hi Hbefore Hread.
  set (U := UnionSchema oid t schemas).
  assert (HU : is_union_tag (schema_type U) = true) by (destruct t; reflexivity).
  assert (Hdiff : forall x y, is_union_tag (schema_type x) = false ->
                              is_union_tag (schema_type y) = true ->
                              same_object x y = false
                              /\ same_object y x = false).
  { intros x y Hx Hy.
    split; apply not_true_is_false; intros E; apply same_object_iff in E;
      subst; congruence. }
  destruct (Hdiff B U Hflat HU) as [HBU HUB].
  assert (Hmatch : uncached_match B U = true).
  { unfold uncached_match. rewrite HBU. unfold __match_schema__.
    destruct (type_tag_eqb (schema_type B) (schema_type U)) eqn:E.
    - apply type_tag_eqb_eq in E. rewrite E in Hflat. congruence.
    - rewrite HU, orb_true_r. reflexivity. }
  rewrite read_data_unfold. unfold read_data_body.
  rewrite HUB. simpl negb. cbv iota.
  intros consumed rest c Hc. unfold bind at 1.
  destruct (match_schema_dec_sound B U consumed (out ++ rest) c Hc)
    as [c1 [Hm Hc1]].
  rewrite Hm, Hmatch. simpl negb. cbv iota.
  rewrite Hflat, HU. simpl negb. simpl andb. cbv iota.
  unfold U at 1. simpl schemas_of. unfold bind, lift.
  apply (reads_back_resolve (read_data py fuel) B U out a schemas i);
    assumption.
Qed.

(** ** The round trip under one schema *)

Lemma Forall2_impl_In {A B} (P Q : A -> B -> Prop) (l : list A)
  (l' : list B) :
  Forall2 P l l' ->
  (forall x y, In x l -> P x y -> Q x y) ->
  Forall2 Q l l'.
Proof.
  induction 1 as [| x y l l' Hxy _ IH]; intros Himp; constructor.
  - apply Himp; [left; reflexivity | exact Hxy].
  - apply IH. intros x' y' Hin. apply Himp. right. exact Hin.
Qed.

Lemma fold_max_bound {A} (g : A -> nat) (l : list A) (x : A) :
  In x l ->
  (g x <= fold_right (fun y acc => Nat.max (g y) acc) 0%nat l)%nat.
Proof.
  induction l as [| y l IH]; simpl; [contradiction |].
  intros [-> | Hin]; [lia |]. specialize (IH Hin). lia.
Qed.

Lemma python_object_dict_get (py : Builtins) (d : list (pyval * pyval))
  (k : string) :
  python_object py (PDict d) = true ->
  python_object py (dict_get d k) = true.
Proof.
  simpl. intros H. apply andb_true_iff in H. destruct H as [_ H].
  rewrite forallb_forall in H. unfold dict_get.
  destruct (find _ d) as [kv |] eqn:E; [| reflexivity].
  apply find_some in E. destruct E as [Hin _].
  specialize (H kv Hin). apply andb_true_iff in H. tauto.
Qed.

(** What [write_array] and [write_map] write around the items. *)
Lemma framed_write_inv (n : nat) (m : Enc unit) (out : list byte) :
  enc_bind
    (if Z.of_nat n >? 0
     then enc_bind (BinaryEncoder.write_long (Z.of_nat n)) (fun _ => m)
     else enc_ret tt)
    (fun _ => BinaryEncoder.write_long 0) = (Ok tt, out) ->
  exists count items_out,
    (if Z.of_nat n >? 0
     then BinaryEncoder.write_long (Z.of_nat n) = (Ok tt, count)
          /\ m = (Ok tt, items_out)
     else count = [] /\ items_out = [] /\ n = 0%nat)
    /\ out = count ++ items_out ++ [Byte.x00].
Proof.
  intros H. apply enc_bind_inv in H.
  destruct H as [[] [o1 [o2 [H1 [H2 ->]]]]].
  change (BinaryEncoder.write_long 0) with (Ok tt, [Byte.x00]) in H2.
  injection H2 as <-.
  destruct (Z.gtb_spec (Z.of_nat n) 0) as [Hpos | Hzero].
  - apply enc_bind_inv in H1.
    destruct H1 as [[] [count [items_out [Hc [Hm ->]]]]].
    exists count, items_out. rewrite <- app_assoc. repeat split; assumption.
  - unfold enc_ret in H1. injection H1 as <-.
    exists [], []. repeat split. lia.
Qed.

(** Reading under the schema of the writing gives the normal form. *)
Lemma round_trip_schema (py : Builtins) (s : schema) :
  well_formed s = true ->
  forall datum out,
    validate s datum = true ->
    python_object py datum = true ->
    write_data py s datum = (Ok tt, out) ->
    forall fuel,
      (schema_depth s <= fuel)%nat ->
      reads_back (read_data py fuel s s) out (normalize py s datum).
Proof.
  induction s as [oid t | oid n z | oid n l | oid s IHs | oid s IHs
                  | oid t schemas IH | oid t n fields IH]
    using schema_induction;
    intros Hwf datum out Hvalid Hobj Hw fuel Hfuel;
    (destruct fuel as [| fuel]; [simpl in Hfuel; lia |]);
    apply reads_back_same.
  - apply round_trip_leaf; (exact I || assumption).
  - apply round_trip_leaf; (exact I || assumption).
  - apply round_trip_leaf; (exact I || assumption).
  - (* array *)
    apply write_data_inv in Hw. simpl in Hw, Hwf, Hfuel.
    assert (Hseq : exists l,
               (datum = PList l \/ datum = PTuple l)
               /\ forallb (validate s) l = true
               /\ countable (List.length l) = true
               /\ forallb (python_object py) l = true).
    { destruct datum; try discriminate; exists l; simpl in Hvalid, Hobj;
        apply andb_true_iff in Hobj; destruct Hobj; auto. }
    destruct Hseq as [l [Hseq [Hvalid_l [Hcount Hobj_l]]]].
    assert (Hlen : BinaryEncoder.len py datum = Ok (Z.of_nat (List.length l)))
      by (destruct Hseq as [-> | ->]; reflexivity).
    assert (Hiter : iterate py datum = Ok l)
      by (destruct Hseq as [-> | ->]; reflexivity).
    assert (Hnorm : normalize py (ArraySchema oid s) datum
                    = PList (map (normalize py s) l))
      by (destruct Hseq as [-> | ->]; reflexivity).
    rewrite Hnorm. unfold write_array in Hw.
    rewrite Hlen, enc_bind_lift_ok in Hw.
    apply framed_write_inv in Hw.
    destruct Hw as [count [items_out [Hparts ->]]].
    assert (Houts : exists outs,
               Forall2 (fun item o => write_data py s item = (Ok tt, o))
                 l outs
               /\ items_out = (if Z.of_nat (List.length l) >? 0
                               then List.concat outs else [])).
    { destruct (Z.of_nat (List.length l) >? 0).
      - destruct Hparts as [_ Hitems].
        rewrite Hiter, enc_bind_lift_ok in Hitems.
        apply enc_for_each_inv in Hitems. exact Hitems.
      - destruct Hparts as [_ [-> Hnil]].
        apply length_zero_iff_nil in Hnil. subst l.
        exists []. split; [constructor | reflexivity]. }
    destruct Houts as [outs [Houts ->]].
    unfold type_to_decoder, read_array. simpl items_of.
    apply reads_back_lift. apply reads_back_lift.
    apply (reads_back_framed (read_data py fuel s s) (normalize py s) PList
             l outs count).
    + rewrite forallb_forall in Hvalid_l, Hobj_l.
      apply (Forall2_impl_In _ _ _ _ Houts). intros item o Hin Hitem.
      apply IHs; try assumption; [apply Hvalid_l | apply Hobj_l | lia];
        exact Hin.
    + exact Hcount.
    + destruct (Z.of_nat (List.length l) >? 0); [tauto |].
      destruct Hparts as [-> [_ Hnil]].
      apply length_zero_iff_nil in Hnil. tauto.
  - (* map *)
    apply write_data_inv in Hw. simpl in Hw, Hwf, Hfuel.
    destruct datum as [| | | | | | | | d]; try discriminate.
    simpl in Hvalid, Hobj.
    apply andb_true_iff in Hvalid. destruct Hvalid as [Hkeys Hvalid_d].
    apply andb_true_iff in Hobj. destruct Hobj as [Hcount Hobj_d].
    unfold write_map in Hw. simpl BinaryEncoder.len in Hw.
    rewrite enc_bind_lift_ok in Hw.
    apply framed_write_inv in Hw.
    destruct Hw as [count [items_out [Hparts ->]]].
    assert (Houts : exists outs,
               Forall2 (fun kv o =>
                          enc_bind (BinaryEncoder.write_utf8 py (fst kv))
                            (fun _ => write_data py s (snd kv)) = (Ok tt, o))
                 d outs
               /\ items_out = (if Z.of_nat (List.length d) >? 0
                               then List.concat outs else [])).
    { destruct (Z.of_nat (List.length d) >? 0).
      - destruct Hparts as [_ Hitems].
        apply enc_for_each_inv in Hitems. exact Hitems.
      - destruct Hparts as [_ [-> Hnil]].
        apply length_zero_iff_nil in Hnil. subst d.
        exists []. split; [constructor | reflexivity]. }
    destruct Houts as [outs [Houts ->]].
    unfold type_to_decoder, read_map. simpl normalize.
    apply (reads_back_framed _
             (fun kv => (unicode_text (fst kv), normalize py s (snd kv)))
             (fun pairs => record_datum (dict_update [] pairs))
             d outs count).
    + rewrite forallb_forall in Hvalid_d, Hobj_d.
      apply (Forall2_impl_In _ _ _ _ Houts). intros [k v] o Hin Hitem.
      simpl in Hitem |- *.
      apply enc_bind_inv in Hitem.
      destruct Hitem as [[] [o1 [o2 [Hk [Hv ->]]]]].
      specialize (Hobj_d _ Hin). simpl in Hobj_d.
      apply andb_true_iff in Hobj_d. destruct Hobj_d as [Hobj_k Hobj_v].
      apply reads_back_bind with (a := PUnicode (unicode_text k)).
      * apply reads_back_utf8; assumption.
      * simpl values_of. apply reads_back_lift. apply reads_back_lift.
        rewrite <- (app_nil_r o2).
        apply reads_back_bind with (a := normalize py s v);
          [| apply reads_back_ret].
        apply IHs; try assumption; [| lia].
        exact (Hvalid_d _ Hin).
    + exact Hcount.
    + destruct (Z.of_nat (List.length d) >? 0); [tauto |].
      destruct Hparts as [-> [_ Hnil]].
      apply length_zero_iff_nil in Hnil. tauto.
  - (* union *)
    apply write_data_inv in Hw. simpl datum_to_encoder in Hw.
    set (U := UnionSchema oid t schemas) in *.
    pose proof Hwf as Hwf'. simpl in Hwf'.
    apply andb_true_iff in Hwf'. destruct Hwf' as [Hwf' Hcount].
    apply andb_true_iff in Hwf'. destruct Hwf' as [Hwf' _].
    apply andb_true_iff in Hwf'. destruct Hwf' as [Hwf_all Hflat].
    rewrite forallb_forall in Hwf_all, Hflat.
    unfold U in Hvalid. rewrite validate_union in Hvalid.
    destruct (existsb_first _ _ Hvalid) as [i [B [Hi [HB Hbefore]]]].
    pose proof (nth_error_In _ _ Hi) as HBin.
    unfold write_union in Hw.
    rewrite (resolve_union_selected _ _ _ schemas i B 0 Hi HB Hbefore) in Hw.
    apply enc_bind_inv in Hw. destruct Hw as [[] [o1 [o2 [Hindex [HwB ->]]]]].
    assert (Hnorm : normalize py U datum = normalize py B datum).
    { unfold U. simpl.
      rewrite (resolve_union_selected _ _ _ schemas i B 0 Hi HB Hbefore).
      reflexivity. }
    rewrite Hnorm.
    assert (Hrange : (i < List.length schemas)%nat).
    { apply nth_error_Some. congruence. }
    pose proof (countable_range _ Hcount) as Hbound.
    unfold type_to_decoder, U, read_union. fold U.
    apply reads_back_bind with (a := Z.of_nat i).
    + apply reads_back_long; [lia | exact Hindex].
    + simpl schemas_of. apply reads_back_lift.
      rewrite (py_index_nonneg schemas (Z.of_nat i) B)
        by (lia || (rewrite Nat2Z.id; exact Hi)).
      simpl in Hfuel.
      destruct fuel as [| fuel]; [lia |].
      apply (reads_back_branch py fuel oid t schemas B i).
      * apply negb_true_iff. apply Hflat. exact HBin.
      * exact Hi.
      * apply (selected_branch_unmatched oid t schemas datum i B);
          assumption.
      * rewrite Forall_forall in IH.
        apply (IH B HBin); try assumption; [apply Hwf_all; exact HBin |].
        pose proof (fold_max_bound schema_depth schemas B HBin). lia.
  - (* record *)
    apply write_data_inv in Hw. simpl in Hw, Hwf, Hfuel.
    destruct datum as [| | | | | | | | d]; try discriminate.
    pose proof Hobj as Hobj_d.
    simpl in Hvalid.
    apply andb_true_iff in Hwf. destruct Hwf as [Hwf_all _].
    rewrite forallb_forall in Hwf_all, Hvalid.
    unfold write_record in Hw.
    apply enc_for_each_inv in Hw. destruct Hw as [outs [Houts ->]].
    unfold type_to_decoder, read_record.
    rewrite (proj2 (same_object_iff _ _) eq_refl).
    simpl fields_of. apply reads_back_lift.
    rewrite <- (app_nil_r (List.concat outs)).
    apply reads_back_bind
      with (a := map (fun f : field =>
                        (name f,
                         normalize py (type f) (dict_get d (name f))))
                   fields);
      [| apply reads_back_ret].
    apply reads_back_for_each.
    rewrite Forall_forall in IH.
    apply (Forall2_impl_In _ _ _ _ Houts). intros f o Hin Hf.
    rewrite <- (app_nil_r o).
    apply reads_back_bind
      with (a := normalize py (type f) (dict_get d (name f)));
      [| apply reads_back_ret].
    apply (IH f Hin); try assumption.
    + apply Hwf_all. exact Hin.
    + apply Hvalid. exact Hin.
    + apply python_object_dict_get. exact Hobj_d.
    + pose proof (fold_max_bound (fun f : field => schema_depth (type f))
                    fields f Hin) as Hmax.
      cbv beta in Hmax. unfold field in Hmax. lia.
Qed.

(** ** The normal form is valid *)







(** ** The normal form of a reader's datum is itself *)





(** [write_data] turns every exception of its encoder into an
    [AvroException]: called on a union that no branch validates (without
    the check of [DatumWriter.write] before it), it reports the
    [AvroTypeException] of [write_union] as an unknown type. *)
Lemma write_data_reports_unknown_type (py : Builtins) (oid : nat)
  (t : union_type) (schemas : list schema) (datum : pyval) :
  (forall B, In B schemas -> validate B datum = false) ->
  write_data py (UnionSchema oid t schemas) datum
  = (Raise (AvroException (msg_unknown_type (union_tag t))), []).
Proof.
  intros Hnone. rewrite write_data_unfold. simpl datum_to_encoder.
  unfold write_union. rewrite resolve_union_unselected by exact Hnone.
  reflexivity.
Qed.


(** Why the branches of a union have to be distinct.  A union object of
    [array<array<int>>] and [array<array<string>>], which Avro does not
    allow and which can only be made by hand, validates the datum
    [[["a"]]] by its second branch and encodes it, but decoding the bytes
    under the same union raises a [SchemaResolutionException]: the reader
    resolves the writer's branch against the first branch of the union
    that matches it, and two arrays match when their items have the same
    type tag. *)
Lemma round_trip_fails_on_ambiguous_union :
  validate Examples.two_arrays Examples.array_of_a = true
  /\ write_data Reference.builtins Examples.two_arrays Examples.array_of_a
     = (Ok tt, [Byte.x02; Byte.x02; Byte.x02; Byte.x02; Byte.x61;
                Byte.x00; Byte.x00])
  /\ fst (read_data Reference.builtins (schema_depth Examples.two_arrays)
            Examples.two_arrays Examples.two_arrays
            (decoding []
               [Byte.x02; Byte.x02; Byte.x02; Byte.x02; Byte.x61;
                Byte.x00; Byte.x00] []))
     = Raise (SchemaResolutionException msg_schemas_do_not_match
                (ArraySchema 20 (PrimitiveSchema 19 t_string))
                (ArraySchema 17 (PrimitiveSchema 16 t_int))).
Proof.
  repeat split; vm_compute; reflexivity.
Qed.

(** More fuel does not help: the exception is raised after four nested
    calls. *)
Lemma ambiguous_union_never_decodes (fuel : nat) :
  forall d,
    fst (read_data Reference.builtins fuel
           Examples.two_arrays Examples.two_arrays
           (decoding []
              [Byte.x02; Byte.x02; Byte.x02; Byte.x02; Byte.x61;
               Byte.x00; Byte.x00] []))
    <> Ok d.
Proof.
  intros d.
  destruct fuel as [| [| [| [| fuel]]]]; vm_compute; discriminate.
Qed.



(* ================================================================== *)
(** * Further properties of the encoder and the decoder *)

(** ** Integers of any size *)

(** What [read_long] makes of the bytes of [write_long n], for any
    integer [n]. *)
Lemma write_long_read_any (n : Z) :
  exists b bs,
    BinaryEncoder.write_long n = (Ok tt, b :: bs)
    /\ forall pre rest c,
        BinaryDecoder.read_long (decoding pre ((b :: bs) ++ rest) c)
        = (Ok (Z.lxor (Z.shiftr (BinaryEncoder.zigzag n) 1)
                 (- Z.land (BinaryEncoder.zigzag n) 1)),
           decoding (pre ++ b :: bs) rest c).
Proof.
  pose proof (zigzag_sign n) as Hzz.
  unfold BinaryEncoder.write_long.
  destruct (write_long_loop_read_back
              (Z.to_nat (Z.log2 (BinaryEncoder.zigzag n)))
              (BinaryEncoder.zigzag n)) as [b [bs [Hw Hr]]].
  { split; [lia | apply fuel_of_log2; lia]. }
  exists b, bs. split; [exact Hw |].
  intros pre rest c. unfold BinaryDecoder.read_long, bind.
  simpl app. rewrite read_ord_decoding. rewrite remaining_decoding.
  specialize (Hr (S (List.length (bs ++ rest))) 0 0 pre rest c).
  rewrite Z.lor_0_l, Z.shiftl_0_r, Z.lor_0_l, Z.shiftl_0_r in Hr.
  change (0 + 7) with 7 in Hr.
  rewrite Hr; [| simpl; rewrite length_app; lia | lia].
  reflexivity.
Qed.

(** The value read back is [n] only when [n >> 63] is [0] or [-1]. *)
Lemma unzigzag_zigzag_only (n : Z) :
  Z.lxor (Z.shiftr (BinaryEncoder.zigzag n) 1)
    (- Z.land (BinaryEncoder.zigzag n) 1) = n ->
  - 2 ^ 63 <= n < 2 ^ 63.
Proof.
  unfold BinaryEncoder.zigzag. set (h := Z.shiftr n 63).
  rewrite Z.shiftr_lxor.
  rewrite Z.shiftr_shiftl_l by lia. change (1 - 1) with 0.
  rewrite Z.shiftl_0_r.
  assert (Hbit : Z.land (Z.lxor (Z.shiftl n 1) h) 1 = Z.land h 1).
  { apply Z.bits_inj'. intros i Hi.
    rewrite !Z.land_spec, Z.lxor_spec.
    destruct (Z.eq_dec i 0) as [-> | Hne].
    - rewrite Z.shiftl_spec by lia. rewrite Z.testbit_neg_r by lia.
      reflexivity.
    - change 1 with (Z.ones 1). rewrite !testbit_ones by lia.
      destruct (Z.ltb_spec i 1); [lia |]. rewrite !andb_false_r.
      reflexivity. }
  rewrite Hbit. intros H.
  assert (Hh : Z.shiftr h 1 = - Z.land h 1).
  { apply Z.lxor_eq.
    transitivity (Z.lxor n (Z.lxor (Z.lxor n (Z.shiftr h 1)) (- Z.land h 1))).
    - apply Z.bits_inj'. intros i _. rewrite !Z.lxor_spec.
      destruct (Z.testbit n i), (Z.testbit (Z.shiftr h 1) i),
        (Z.testbit (- Z.land h 1) i); reflexivity.
    - rewrite H. apply Z.lxor_nilpotent. }
  assert (Hrange : -1 <= h <= 0).
  { rewrite Z.shiftr_div_pow2 in Hh by lia.
    change 1 with (Z.ones 1) in Hh at 2. rewrite Z.land_ones in Hh by lia.
    change (2 ^ 1) with 2 in Hh.
    pose proof (Z.div_mod h 2 ltac:(lia)) as Hdm.
    pose proof (Z.mod_pos_bound h 2 ltac:(lia)) as Hm. lia. }
  unfold h in Hrange. rewrite Z.shiftr_div_pow2 in Hrange by lia.
  pose proof (Z.div_mod n (2 ^ 63) ltac:(lia)) as Hdm.
  pose proof (Z.mod_pos_bound n (2 ^ 63) ltac:(lia)) as Hm.
  nia.
Qed.

(** X1.  [BinaryEncoder.write_long] takes every integer: it checks no
    range, never raises and always ends, having written at least one byte,
    and [BinaryDecoder.read_long] reads these bytes to their end.  The
    value read back is the integer written exactly when the integer is in
    the signed 64-bit range. *)
Theorem write_long_any_integer (n : Z) :
  exists bs,
    BinaryEncoder.write_long n = (Ok tt, bs)
    /\ bs <> []
    /\ exists m,
        (forall consumed rest c,
            BinaryDecoder.read_long (decoding consumed (bs ++ rest) c)
            = (Ok m, decoding (consumed ++ bs) rest c))
        /\ (m = n <-> LONG_MIN_VALUE <= n <= LONG_MAX_VALUE).
Proof.
  destruct (write_long_read_any n) as [b [bs [Hw Hr]]].
  exists (b :: bs). split; [exact Hw |]. split; [discriminate |].
  eexists. split; [exact Hr |].
  rewrite long_range. split.
  - apply unzigzag_zigzag_only.
  - apply unzigzag_zigzag.
Qed.

(** ** Skipping an integer *)

Lemma skip_long_loop_follows (fuel : nat) :
  forall b n shift st,
    BinaryDecoder.skip_long_loop fuel b st
    = (match fst (BinaryDecoder.read_long_loop fuel b n shift st) with
       | Ok _ => Ok tt
       | Raise e => Raise e
       | Diverge => Diverge
       end,
       snd (BinaryDecoder.read_long_loop fuel b n shift st)).
Proof.
  induction fuel as [| fuel IH]; intros b n shift st; simpl.
  - reflexivity.
  - destruct (negb (Z.land b 128 =? 0)); [| reflexivity].
    unfold bind. destruct (BinaryDecoder.read_ord st) as [[b' | e |] st'];
      try reflexivity.
    apply IH.
Qed.

(** X2.  [BinaryDecoder.skip_long] moves over exactly the bytes that
    [BinaryDecoder.read_long] reads: on every source both end at the same
    position, and one returns, raises or loops exactly when the other
    does. *)
Theorem skip_long_follows_read_long (st : state) :
  snd (BinaryDecoder.skip_long st) = snd (BinaryDecoder.read_long st)
  /\ fst (BinaryDecoder.skip_long st)
     = match fst (BinaryDecoder.read_long st) with
       | Ok _ => Ok tt
       | Raise e => Raise e
       | Diverge => Diverge
       end
  /\ snd (BinaryDecoder.skip_int st) = snd (BinaryDecoder.read_int st).
Proof.
  assert (H : BinaryDecoder.skip_long st
              = (match fst (BinaryDecoder.read_long st) with
                 | Ok _ => Ok tt
                 | Raise e => Raise e
                 | Diverge => Diverge
                 end, snd (BinaryDecoder.read_long st))).
  { unfold BinaryDecoder.skip_long, BinaryDecoder.read_long, bind.
    destruct (BinaryDecoder.read_ord st) as [[b | e |] st']; try reflexivity.
    apply skip_long_loop_follows. }
  unfold BinaryDecoder.skip_int, BinaryDecoder.read_int.
  rewrite H. repeat split.
Qed.

(** ** Booleans *)

(** X3.  [BinaryEncoder.write_boolean] writes one byte for any datum, 1
    when the datum is true in a condition and 0 otherwise;
    [BinaryDecoder.read_boolean] returns [True] for the byte 1 and [False]
    for every other byte, so it reads back the truth value of the datum. *)
Theorem boolean_round_trip (datum : pyval) (consumed rest : list byte)
  (c : match_cache) :
  BinaryEncoder.write_boolean datum
  = (Ok tt, [if BinaryEncoder.truthy datum then Byte.x01 else Byte.x00])
  /\ (forall b,
         BinaryDecoder.read_boolean (decoding consumed (b :: rest) c)
         = (Ok (PBool (ord b =? 1)), decoding (consumed ++ [b]) rest c))
  /\ BinaryDecoder.read_boolean
       (decoding consumed
          ((if BinaryEncoder.truthy datum then Byte.x01 else Byte.x00)
             :: rest) c)
     = (Ok (PBool (BinaryEncoder.truthy datum)),
        decoding (consumed ++
                    [if BinaryEncoder.truthy datum then Byte.x01
                     else Byte.x00]) rest c).
Proof.
  assert (Hr : forall b,
             BinaryDecoder.read_boolean (decoding consumed (b :: rest) c)
             = (Ok (PBool (ord b =? 1)), decoding (consumed ++ [b]) rest c)).
  { intros b. unfold BinaryDecoder.read_boolean, bind.
    rewrite read_ord_decoding. reflexivity. }
  split; [| split].
  - unfold BinaryEncoder.write_boolean.
    destruct (BinaryEncoder.truthy datum); reflexivity.
  - exact Hr.
  - rewrite Hr. destruct (BinaryEncoder.truthy datum); reflexivity.
Qed.

(** ** Passing over what was written *)

Lemma passes_ret {A} (a : A) : passes (ret a) [] a.
Proof.
  intros consumed rest c. rewrite app_nil_r. reflexivity.
Qed.

Lemma passes_bind {A B} (m : Dec A) (k : A -> Dec B)
  (out out' : list byte) (a : A) (b : B) :
  passes m out a -> passes (k a) out' b -> passes (bind m k) (out ++ out') b.
Proof.
  intros Hm Hk consumed rest c. unfold bind.
  rewrite <- app_assoc, Hm, Hk, <- app_assoc. reflexivity.
Qed.

Lemma passes_bind_nil {A B} (m : Dec A) (k : A -> Dec B)
  (out : list byte) (a : A) (b : B) :
  passes m out a -> passes (k a) [] b -> passes (bind m k) out b.
Proof.
  intros Hm Hk. rewrite <- (app_nil_r out). eapply passes_bind; eassumption.
Qed.

Lemma passes_lift {A B} (a : A) (k : A -> Dec B) (out : list byte) (b : B) :
  passes (k a) out b -> passes (bind (lift (Ok a)) k) out b.
Proof.
  intros Hk. exact Hk.
Qed.

Lemma passes_try_except {A} (m h : Dec A) (E : py_error -> bool)
  (out : list byte) (a : A) :
  passes m out a -> passes (try_except m E h) out a.
Proof.
  intros Hm consumed rest c. unfold try_except. rewrite Hm. reflexivity.
Qed.

Lemma passes_repeat {A X} (m : Dec A) (f : X -> A) (l : list X)
  (outs : list (list byte)) :
  Forall2 (fun x out => passes m out (f x)) l outs ->
  passes (repeat_dec (List.length l) m) (List.concat outs) (map f l).
Proof.
  induction 1 as [| x out l outs Hx _ IH]; simpl.
  - apply passes_ret.
  - apply passes_bind with (a := f x); [exact Hx |].
    apply passes_bind_nil with (a := map f l); [exact IH |].
    apply passes_ret.
Qed.

Lemma passes_for_each {A X} (body : X -> Dec A) (f : X -> A)
  (l : list X) (outs : list (list byte)) :
  Forall2 (fun x out => passes (body x) out (f x)) l outs ->
  passes (for_each l body) (List.concat outs) (map f l).
Proof.
  induction 1 as [| x out l outs Hx _ IH]; simpl.
  - apply passes_ret.
  - apply passes_bind with (a := f x); [exact Hx |].
    apply passes_bind_nil with (a := map f l); [exact IH |].
    apply passes_ret.
Qed.

Lemma passes_read (out : list byte) (n : Z) :
  n = Z.of_nat (List.length out) -> passes (BinaryDecoder.read n) out out.
Proof.
  intros Hn consumed rest c. apply read_decoding. exact Hn.
Qed.

Lemma passes_read_long (n : Z) (out : list byte) :
  - 2 ^ 63 <= n < 2 ^ 63 ->
  BinaryEncoder.write_long n = (Ok tt, out) ->
  passes BinaryDecoder.read_long out n.
Proof.
  intros Hn Hw consumed rest c.
  destruct (write_long_read_long n Hn) as [b [bs [Hw' Hr]]].
  rewrite Hw in Hw'. injection Hw' as ->. apply Hr.
Qed.

Lemma skip_long_as_read_long (st : state) :
  BinaryDecoder.skip_long st
  = (match fst (BinaryDecoder.read_long st) with
     | Ok _ => Ok tt
     | Raise e => Raise e
     | Diverge => Diverge
     end, snd (BinaryDecoder.read_long st)).
Proof.
  unfold BinaryDecoder.skip_long, BinaryDecoder.read_long, bind.
  destruct (BinaryDecoder.read_ord st) as [[b | e |] st']; try reflexivity.
  apply skip_long_loop_follows.
Qed.

Lemma passes_skip_long (n : Z) (out : list byte) :
  passes BinaryDecoder.read_long out n -> passes BinaryDecoder.skip_long out tt.
Proof.
  intros Hr consumed rest c. rewrite skip_long_as_read_long, Hr. reflexivity.
Qed.

Lemma passes_skip (out : list byte) (n : Z) :
  n = Z.of_nat (List.length out) -> passes (BinaryDecoder.skip n) out tt.
Proof.
  intros Hn consumed rest c.
  unfold BinaryDecoder.skip, bind, BinaryDecoder.tell, BinaryDecoder.seek.
  simpl pos. simpl buf. simpl cache.
  destruct (Z.ltb_spec (Z.of_nat (List.length consumed) + n) 0) as [H | _];
    [lia |].
  replace (Z.to_nat (Z.of_nat (List.length consumed) + n))
    with (List.length consumed + List.length out)%nat by lia.
  f_equal. apply decoding_app.
Qed.

(** ** Floating point numbers *)

Lemma little_endian_bytes (n : nat) :
  forall bits out,
    BinaryEncoder.little_endian n bits = (Ok tt, out) ->
    forall i, (i < n)%nat ->
      option_map ord (nth_error out i)
      = Some (Z.land (Z.shiftr bits (8 * Z.of_nat i)) 255).
Proof.
  induction n as [| n IH]; intros bits out Hw i Hi; [lia |].
  simpl in Hw. apply enc_bind_inv in Hw.
  destruct Hw as [[] [o1 [o2 [Hb [Hrest ->]]]]].
  unfold BinaryEncoder.write_chr in Hb. apply enc_bind_inv in Hb.
  destruct Hb as [b [o3 [o4 [Hchr [Hwb ->]]]]].
  apply enc_lift_inv in Hchr. destruct Hchr as [Hchr ->].
  unfold BinaryEncoder.write in Hwb. injection Hwb as <-. simpl app.
  destruct (chr_ok (Z.land bits 255)) as [b' [Hchr' Hord]].
  { change 255 with (Z.ones 8). rewrite Z.land_ones by lia.
    change (2 ^ 8) with 256. apply Z.mod_pos_bound. lia. }
  rewrite Hchr in Hchr'. injection Hchr' as <-.
  destruct i as [| i]; simpl.
  - rewrite Hord, Z.shiftr_0_r. reflexivity.
  - rewrite (IH _ _ Hrest i) by lia.
    rewrite Z.shiftr_shiftr by lia. do 3 f_equal. lia.
Qed.

(** X4.  A double goes through [BinaryEncoder.write_double] and
    [BinaryDecoder.read_double] bit for bit: the 64-bit pattern of the
    datum is written as 8 bytes, the least significant byte first, and
    reading these bytes returns the float with the same pattern. *)
Theorem double_round_trip (py : Builtins) (datum : pyval) (bits : Z) :
  BinaryEncoder.double_bits py datum = Ok bits ->
  0 <= bits < 2 ^ 64 ->
  exists out,
    BinaryEncoder.write_double py datum = (Ok tt, out)
    /\ List.length out = 8%nat
    /\ (forall i, (i < 8)%nat ->
          option_map ord (nth_error out i)
          = Some (Z.land (Z.shiftr bits (8 * Z.of_nat i)) 255))
    /\ forall consumed rest c,
        BinaryDecoder.read_double (decoding consumed (out ++ rest) c)
        = (Ok (PFloat bits), decoding (consumed ++ out) rest c).
Proof.
  intros Hbits Hrange.
  destruct (little_endian_read_back 8 bits) as [out [Hw [Hlen Hor]]].
  exists out. split; [| split; [exact Hlen | split]].
  - unfold BinaryEncoder.write_double. rewrite Hbits, enc_bind_lift_ok.
    exact Hw.
  - apply (little_endian_bytes 8 bits out Hw).
  - intros consumed rest c. unfold BinaryDecoder.read_double, bind.
    rewrite (read_decoding 8 consumed out rest c) by (rewrite Hlen; reflexivity).
    unfold ret. rewrite Hor by lia. rewrite Z.shiftl_0_r.
    change (8 * Z.of_nat 8) with 64.
    rewrite Z.land_ones, Z.mod_small by lia. reflexivity.
Qed.

Lemma double_round_trip_witness :
  exists out,
    BinaryEncoder.write_double Reference.builtins (PInt 1) = (Ok tt, out)
    /\ List.length out = 8%nat
    /\ (forall i, (i < 8)%nat ->
          option_map ord (nth_error out i)
          = Some (Z.land (Z.shiftr 4607182418800017408 (8 * Z.of_nat i)) 255))
    /\ forall consumed rest c,
        BinaryDecoder.read_double (decoding consumed (out ++ rest) c)
        = (Ok (PFloat 4607182418800017408),
           decoding (consumed ++ out) rest c).
Proof.
  apply (double_round_trip Reference.builtins (PInt 1) 4607182418800017408).
  - reflexivity.
  - split; [discriminate | reflexivity].
Defined.

(** X5.  [BinaryEncoder.write_float] writes the 32-bit pattern that
    [struct] packs the datum to as 4 bytes, the least significant byte
    first, and [BinaryDecoder.read_float] returns the float that unpacks
    from this pattern: the datum at single precision. *)
Theorem float_round_trip (py : Builtins) (datum : pyval) (bits : Z) :
  BinaryEncoder.float_bits py datum = Ok bits ->
  0 <= bits < 2 ^ 32 ->
  exists out,
    BinaryEncoder.write_float py datum = (Ok tt, out)
    /\ List.length out = 4%nat
    /\ (forall i, (i < 4)%nat ->
          option_map ord (nth_error out i)
          = Some (Z.land (Z.shiftr bits (8 * Z.of_nat i)) 255))
    /\ forall consumed rest c,
        BinaryDecoder.read_float py (decoding consumed (out ++ rest) c)
        = (Ok (PFloat (double_of_single py bits)),
           decoding (consumed ++ out) rest c).
Proof.
  intros Hbits Hrange.
  destruct (little_endian_read_back 4 bits) as [out [Hw [Hlen Hor]]].
  exists out. split; [| split; [exact Hlen | split]].
  - unfold BinaryEncoder.write_float. rewrite Hbits, enc_bind_lift_ok.
    exact Hw.
  - apply (little_endian_bytes 4 bits out Hw).
  - intros consumed rest c. unfold BinaryDecoder.read_float, bind.
    rewrite (read_decoding 4 consumed out rest c) by (rewrite Hlen; reflexivity).
    unfold ret. rewrite Hor by lia. rewrite Z.shiftl_0_r.
    change (8 * Z.of_nat 4) with 32.
    rewrite Z.land_ones, Z.mod_small by lia. reflexivity.
Qed.

Lemma float_round_trip_witness :
  exists out,
    BinaryEncoder.write_float Reference.builtins (PFloat 4609434218613702656)
    = (Ok tt, out)
    /\ List.length out = 4%nat
    /\ (forall i, (i < 4)%nat ->
          option_map ord (nth_error out i)
          = Some (Z.land (Z.shiftr 1069547520 (8 * Z.of_nat i)) 255))
    /\ forall consumed rest c,
        BinaryDecoder.read_float Reference.builtins
          (decoding consumed (out ++ rest) c)
        = (Ok (PFloat (double_of_single Reference.builtins 1069547520)),
           decoding (consumed ++ out) rest c).
Proof.
  apply (float_round_trip Reference.builtins (PFloat 4609434218613702656)
           1069547520).
  - reflexivity.
  - split; [discriminate | reflexivity].
Defined.

(** ** Byte strings and text *)

Lemma long_max_value : LONG_MAX_VALUE = 2 ^ 63 - 1.
Proof.
  reflexivity.
Qed.

Lemma write_bytes_read_back (py : Builtins) (s : string)
  (consumed rest : list byte) (c : match_cache) :
  Z.of_nat (String.length s) <= LONG_MAX_VALUE ->
  exists count,
    BinaryEncoder.write_long (Z.of_nat (String.length s)) = (Ok tt, count)
    /\ BinaryEncoder.write_bytes py (PStr s)
       = (Ok tt, count ++ list_byte_of_string s)
    /\ BinaryDecoder.read_bytes
         (decoding consumed ((count ++ list_byte_of_string s) ++ rest) c)
       = (Ok (PStr s),
          decoding (consumed ++ count ++ list_byte_of_string s) rest c)
    /\ BinaryDecoder.skip_bytes
         (decoding consumed ((count ++ list_byte_of_string s) ++ rest) c)
       = (Ok tt,
          decoding (consumed ++ count ++ list_byte_of_string s) rest c).
Proof.
  intros Hlen. rewrite long_max_value in Hlen.
  destruct (write_long_total (Z.of_nat (String.length s)))
    as [b [bs Hcount]].
  exists (b :: bs). split; [exact Hcount |].
  assert (Hlong : passes BinaryDecoder.read_long (b :: bs)
                    (Z.of_nat (String.length s))).
  { apply passes_read_long; [lia | exact Hcount]. }
  split; [| split].
  - unfold BinaryEncoder.write_bytes, BinaryEncoder.len.
    rewrite enc_bind_lift_ok, Hcount, enc_bind_ok. reflexivity.
  - apply (passes_bind BinaryDecoder.read_long _ (b :: bs)
             (list_byte_of_string s) _ (PStr s) Hlong).
    apply passes_bind_nil with (a := list_byte_of_string s).
    + apply passes_read. rewrite length_list_byte_of_string. reflexivity.
    + rewrite string_of_list_byte_of_string. apply passes_ret.
  - apply (passes_bind BinaryDecoder.read_long _ (b :: bs)
             (list_byte_of_string s) _ tt Hlong).
    apply passes_skip. rewrite length_list_byte_of_string. reflexivity.
Qed.

(** X6.  A byte string goes through [BinaryEncoder.write_bytes] and
    [BinaryDecoder.read_bytes] unchanged: the bytes written are the length
    as a long and then the bytes of the string; [read_bytes] returns the
    string and [skip_bytes] moves to the end of these bytes. *)
Theorem bytes_round_trip (py : Builtins) (s : string)
  (consumed rest : list byte) (c : match_cache) :
  Z.of_nat (String.length s) <= LONG_MAX_VALUE ->
  exists count,
    BinaryEncoder.write_long (Z.of_nat (String.length s)) = (Ok tt, count)
    /\ BinaryEncoder.write_bytes py (PStr s)
       = (Ok tt, count ++ list_byte_of_string s)
    /\ BinaryDecoder.read_bytes
         (decoding consumed ((count ++ list_byte_of_string s) ++ rest) c)
       = (Ok (PStr s),
          decoding (consumed ++ count ++ list_byte_of_string s) rest c)
    /\ BinaryDecoder.skip_bytes
         (decoding consumed ((count ++ list_byte_of_string s) ++ rest) c)
       = (Ok tt,
          decoding (consumed ++ count ++ list_byte_of_string s) rest c).
Proof.
  apply write_bytes_read_back.
Qed.

Lemma bytes_round_trip_witness :
  exists count,
    BinaryEncoder.write_long 2 = (Ok tt, count)
    /\ BinaryEncoder.write_bytes Reference.builtins (PStr "hi")
       = (Ok tt, count ++ [Byte.x68; Byte.x69])
    /\ BinaryDecoder.read_bytes
         (decoding [] ((count ++ [Byte.x68; Byte.x69]) ++ []) [])
       = (Ok (PStr "hi"), decoding ([] ++ count ++ [Byte.x68; Byte.x69]) [] [])
    /\ BinaryDecoder.skip_bytes
         (decoding [] ((count ++ [Byte.x68; Byte.x69]) ++ []) [])
       = (Ok tt, decoding ([] ++ count ++ [Byte.x68; Byte.x69]) [] []).
Proof.
  apply (bytes_round_trip Reference.builtins "hi" [] [] []).
  vm_compute. discriminate.
Defined.

(** X7.  Text goes through [BinaryEncoder.write_utf8] and
    [BinaryDecoder.read_utf8] as a [unicode] object: a [unicode] object is
    written as the byte string of its UTF-8 encoding, a [str] of ASCII text
    is written as the [unicode] object of the same text, and [read_utf8]
    returns that [unicode] object.  Bytes that are not UTF-8 are read to
    their end and raise a [UnicodeError]. *)
Theorem utf8_round_trip (py : Builtins) (s : string)
  (consumed rest : list byte) (c : match_cache) :
  Z.of_nat (String.length s) <= LONG_MAX_VALUE ->
  exists out,
    BinaryEncoder.write_utf8 py (PUnicode s) = (Ok tt, out)
    /\ BinaryEncoder.write_bytes py (PStr s) = (Ok tt, out)
    /\ (is_ascii s = true -> BinaryEncoder.write_utf8 py (PStr s) = (Ok tt, out))
    /\ BinaryDecoder.read_utf8 py (decoding consumed (out ++ rest) c)
       = (if utf8_valid py s then Ok (PUnicode s)
          else Raise (PyError UnicodeError),
          decoding (consumed ++ out) rest c)
    /\ BinaryDecoder.skip_utf8 (decoding consumed (out ++ rest) c)
       = (Ok tt, decoding (consumed ++ out) rest c).
Proof.
  intros Hlen.
  destruct (write_bytes_read_back py s consumed rest c Hlen)
    as [count [Hcount [Hw [Hr Hs]]]].
  exists (count ++ list_byte_of_string s).
  assert (Hu : BinaryEncoder.write_utf8 py (PUnicode s)
               = (Ok tt, count ++ list_byte_of_string s)).
  { unfold BinaryEncoder.write_utf8. simpl BinaryEncoder.encode_utf8.
    rewrite enc_bind_lift_ok. exact Hw. }
  split; [exact Hu |]. split; [exact Hw |]. split; [| split].
  - intros Ha. unfold BinaryEncoder.write_utf8. simpl BinaryEncoder.encode_utf8.
    rewrite Ha, enc_bind_lift_ok. exact Hw.
  - unfold BinaryDecoder.read_utf8, bind. rewrite Hr.
    destruct (utf8_valid py s); reflexivity.
  - exact Hs.
Qed.

Lemma utf8_round_trip_witness :
  exists out,
    BinaryEncoder.write_utf8 Reference.builtins (PUnicode "hi") = (Ok tt, out)
    /\ BinaryDecoder.read_utf8 Reference.builtins (decoding [] (out ++ []) [])
       = (Ok (PUnicode "hi"), decoding ([] ++ out) [] []).
Proof.
  destruct (utf8_round_trip Reference.builtins "hi" [] [] [])
    as [out [Hu [_ [_ [Hr _]]]]].
  - vm_compute. discriminate.
  - exists out. split; [exact Hu | exact Hr].
Defined.

(** ** Checksums *)

Lemma big_endian_read_back (n : nat) :
  forall v,
  exists out,
    BinaryEncoder.big_endian n v = (Ok tt, out)
    /\ List.length out = n
    /\ forall acc, 0 <= acc ->
         BinaryDecoder.unpack_unsigned out acc
         = Z.lor (Z.shiftl acc (8 * Z.of_nat n))
             (Z.land v (Z.ones (8 * Z.of_nat n))).
Proof.
  induction n as [| n IH]; intros v.
  - exists []. repeat split. intros acc Hacc.
    change (8 * Z.of_nat 0) with 0. simpl BinaryDecoder.unpack_unsigned.
    change (Z.ones 0) with 0.
    rewrite Z.land_0_r, Z.lor_0_r, Z.shiftl_0_r. reflexivity.
  - destruct (chr_ok (Z.land (Z.shiftr v (8 * Z.of_nat n)) 255))
      as [b [Hchr Hord]].
    { change 255 with (Z.ones 8). rewrite Z.land_ones by lia.
      change (2 ^ 8) with 256. apply Z.mod_pos_bound. lia. }
    destruct (IH v) as [out [Hw [Hlen Hun]]].
    exists (b :: out). split; [| split].
    + change (BinaryEncoder.big_endian (S n) v)
        with (enc_bind
                (BinaryEncoder.write_chr
                   (Z.land (Z.shiftr v (8 * Z.of_nat n)) 255))
                (fun _ => BinaryEncoder.big_endian n v)).
      unfold BinaryEncoder.write_chr, enc_lift. rewrite Hchr.
      unfold BinaryEncoder.write. rewrite !enc_bind_ok, Hw. reflexivity.
    + simpl. f_equal. exact Hlen.
    + intros acc Hacc.
      change (BinaryDecoder.unpack_unsigned (b :: out) acc)
        with (BinaryDecoder.unpack_unsigned out
                (Z.lor (Z.shiftl acc 8) (ord b))).
      pose proof (ord_range b) as Hb.
      rewrite Hun.
      2:{ rewrite Z.lor_nonneg, Z.shiftl_nonneg. lia. }
      rewrite Hord.
      remember (8 * Z.of_nat n) as N eqn:HN.
      replace (8 * Z.of_nat (S n)) with (N + 8) by lia.
      assert (HN0 : 0 <= N) by lia. clear HN.
      change 255 with (Z.ones 8).
      apply Z.bits_inj'. intros j Hj.
      rewrite !Z.lor_spec, !Z.land_spec, !testbit_ones by lia.
      rewrite !(Z.shiftl_spec _ _ j) by lia.
      destruct (Z.leb_spec 0 j) as [_ | H]; [| lia].
      destruct (Z.ltb_spec j N) as [Hlow | Hhigh].
      * rewrite (Z.testbit_neg_r _ (j - N)) by lia.
        rewrite (Z.testbit_neg_r _ (j - (N + 8))) by lia.
        destruct (Z.ltb_spec j (N + 8)); [| lia].
        reflexivity.
      * rewrite Z.lor_spec, Z.land_spec, testbit_ones by lia.
        rewrite Z.shiftl_spec, Z.shiftr_spec by lia.
        replace (j - N - 8) with (j - (N + 8)) by lia.
        replace (j - N + N) with j by lia.
        destruct (Z.leb_spec 0 (j - N)) as [_ | H]; [| lia].
        rewrite andb_false_r, orb_false_r. cbn [andb].
        destruct (Z.ltb_spec (j - N) 8); destruct (Z.ltb_spec j (N + 8));
          try lia; reflexivity.
Qed.

(** X8.  [BinaryEncoder.write_crc32] always writes 4 bytes, the checksum
    of its argument as an unsigned integer with the most significant byte
    first.  [BinaryDecoder.check_crc32] reads 4 bytes; on the bytes written
    for a string it accepts every string with the same checksum and raises
    [AvroException("Checksum failure")] for every other one, having read
    the 4 bytes in both cases. *)
Theorem crc32_round_trip (crc32 : list byte -> Z) (bytes : list byte) :
  exists out,
    BinaryEncoder.write_crc32 crc32 bytes = (Ok tt, out)
    /\ List.length out = 4%nat
    /\ BinaryDecoder.unpack_unsigned out 0 = Z.land (crc32 bytes) 4294967295
    /\ forall bytes' consumed rest c,
        BinaryDecoder.check_crc32 crc32 bytes'
          (decoding consumed (out ++ rest) c)
        = (if Z.land (crc32 bytes') 4294967295
              =? Z.land (crc32 bytes) 4294967295
           then Ok tt
           else Raise (AvroException msg_checksum_failure),
           decoding (consumed ++ out) rest c).
Proof.
  set (v := Z.land (crc32 bytes) 4294967295).
  assert (Hv : 0 <= v < 2 ^ 32).
  { unfold v. change 4294967295 with (Z.ones 32).
    rewrite Z.land_ones by lia. apply Z.mod_pos_bound. lia. }
  destruct (big_endian_read_back 4 v) as [out [Hw [Hlen Hun]]].
  assert (Hvalue : BinaryDecoder.unpack_unsigned out 0 = v).
  { rewrite Hun by lia. rewrite Z.shiftl_0_l, Z.lor_0_l.
    change (8 * Z.of_nat 4) with 32.
    rewrite Z.land_ones, Z.mod_small by lia. reflexivity. }
  exists out. split; [| split; [exact Hlen | split; [exact Hvalue |]]].
  - unfold BinaryEncoder.write_crc32, BinaryEncoder.pack_unsigned. fold v.
    rewrite Z.shiftl_1_l.
    destruct (Z.ltb_spec v 0) as [H | _]; [lia |].
    destruct (Z.leb_spec (2 ^ 32) v) as [H | _]; [lia |].
    exact Hw.
  - intros bytes' consumed rest c.
    unfold BinaryDecoder.check_crc32, bind.
    rewrite (read_decoding 4 consumed out rest c)
      by (rewrite Hlen; reflexivity).
    rewrite Hvalue.
    destruct (Z.land (crc32 bytes') 4294967295 =? v); reflexivity.
Qed.

Lemma crc32_round_trip_witness :
  BinaryEncoder.write_crc32 Reference.crc32 (list_byte_of_string "123456789")
  = (Ok tt, [Byte.xcb; Byte.xf4; Byte.x39; Byte.x26])
  /\ forall consumed rest c,
      BinaryDecoder.check_crc32 Reference.crc32
        (list_byte_of_string "123456780")
        (decoding consumed ([Byte.xcb; Byte.xf4; Byte.x39; Byte.x26] ++ rest)
           c)
      = (Raise (AvroException msg_checksum_failure),
         decoding (consumed ++ [Byte.xcb; Byte.xf4; Byte.x39; Byte.x26])
           rest c).
Proof.
  destruct (crc32_round_trip Reference.crc32
              (list_byte_of_string "123456789"))
    as [out [Hw [_ [_ Hcheck]]]].
  assert (Hout : out = [Byte.xcb; Byte.xf4; Byte.x39; Byte.x26]).
  { assert (H : (Ok tt, out)
                = (@Ok unit tt, [Byte.xcb; Byte.xf4; Byte.x39; Byte.x26])).
    { rewrite <- Hw. vm_compute. reflexivity. }
    injection H as ->. reflexivity. }
  subst out. split; [exact Hw |].
  intros consumed rest c.
  rewrite (Hcheck (list_byte_of_string "123456780") consumed rest c).
  reflexivity.
Defined.

(** ** Skipping what was written *)

Lemma passes_skip_bytes (py : Builtins) (s : string) (out : list byte) :
  countable (String.length s) = true ->
  BinaryEncoder.write_bytes py (PStr s) = (Ok tt, out) ->
  passes BinaryDecoder.skip_bytes out tt.
Proof.
  intros Hlen Hw. unfold BinaryEncoder.write_bytes, BinaryEncoder.len in Hw.
  rewrite enc_bind_lift_ok in Hw.
  apply enc_bind_inv in Hw. destruct Hw as [[] [o1 [o2 [Hcount [Hs ->]]]]].
  unfold BinaryEncoder.write in Hs. injection Hs as <-.
  unfold BinaryDecoder.skip_bytes.
  apply passes_bind with (a := Z.of_nat (String.length s)).
  - apply passes_read_long; [apply countable_range; exact Hlen | exact Hcount].
  - apply passes_skip. rewrite length_list_byte_of_string. reflexivity.
Qed.

Lemma passes_skip_utf8 (py : Builtins) (datum : pyval) (out : list byte) :
  python_object py datum = true ->
  BinaryEncoder.write_utf8 py datum = (Ok tt, out) ->
  passes BinaryDecoder.skip_utf8 out tt.
Proof.
  intros Hobj Hw. unfold BinaryEncoder.write_utf8 in Hw.
  apply enc_bind_inv in Hw. destruct Hw as [v [o1 [o2 [Henc [Hs ->]]]]].
  apply enc_lift_inv in Henc. destruct Henc as [Henc ->]. simpl app.
  unfold BinaryDecoder.skip_utf8.
  destruct datum; simpl in Henc; try discriminate.
  - destruct (is_ascii s); [| discriminate]. injection Henc as <-.
    simpl in Hobj. eapply passes_skip_bytes; eassumption.
  - injection Henc as <-. simpl in Hobj.
    apply andb_true_iff in Hobj. destruct Hobj as [Hlen _].
    eapply passes_skip_bytes; eassumption.
Qed.

Lemma passes_skip_integer (datum : pyval) (out : list byte) :
  is_int_or_long datum = true ->
  - 2 ^ 63 <= int_value datum < 2 ^ 63 ->
  enc_bind (enc_lift (BinaryEncoder.int_operand datum))
    BinaryEncoder.write_long = (Ok tt, out) ->
  passes BinaryDecoder.skip_long out tt.
Proof.
  intros Hint Hrange Hw.
  rewrite (int_operand_value datum Hint), enc_bind_lift_ok in Hw.
  apply (passes_skip_long (int_value datum)).
  apply passes_read_long; assumption.
Qed.

Lemma passes_skip_little_endian (n : nat) (bits : Z) (out : list byte) :
  BinaryEncoder.little_endian n bits = (Ok tt, out) ->
  passes (BinaryDecoder.skip (Z.of_nat n)) out tt.
Proof.
  intros Hw.
  destruct (little_endian_read_back n bits) as [out' [Hw' [Hlen _]]].
  rewrite Hw in Hw'. injection Hw' as <-.
  apply passes_skip. rewrite Hlen. reflexivity.
Qed.

(** The schemas without nested schemas. *)
Lemma skip_passes_leaf (py : Builtins) (skip : schema -> Dec unit)
  (fuel : nat) (s : schema) (datum : pyval) (out : list byte) :
  match s with
  | PrimitiveSchema _ _ | FixedSchema _ _ _ | EnumSchema _ _ _ => True
  | _ => False
  end ->
  well_formed s = true ->
  validate s datum = true ->
  python_object py datum = true ->
  write_data py s datum = (Ok tt, out) ->
  passes (type_to_skipper skip fuel s) out tt.
Proof.
  intros Hleaf Hwf Hvalid Hobj Hw. apply write_data_inv in Hw.
  destruct s as [oid t | oid n size | oid n symbols | | | |];
    try contradiction; clear Hleaf.
  - destruct t; simpl in Hvalid, Hw |- *.
    + (* null *)
      unfold BinaryEncoder.write_null, enc_ret in Hw. injection Hw as <-.
      apply passes_ret.
    + (* boolean *)
      destruct datum as [| b | | | | | | |]; try discriminate.
      unfold BinaryEncoder.write_boolean in Hw. simpl in Hw.
      unfold BinaryDecoder.skip_boolean.
      destruct b; injection Hw as <-; apply passes_skip; reflexivity.
    + (* int *)
      apply andb_true_iff in Hvalid. destruct Hvalid as [Hvalid H2].
      apply andb_true_iff in Hvalid. destruct Hvalid as [Hint H1].
      apply (passes_skip_integer datum); [exact Hint | | exact Hw].
      apply int_range_long. left. rewrite H1, H2. reflexivity.
    + (* long *)
      apply andb_true_iff in Hvalid. destruct Hvalid as [Hvalid H2].
      apply andb_true_iff in Hvalid. destruct Hvalid as [Hint H1].
      apply (passes_skip_integer datum); [exact Hint | | exact Hw].
      apply int_range_long. right. rewrite H1, H2. reflexivity.
    + (* float *)
      unfold BinaryEncoder.write_float in Hw.
      apply enc_bind_inv in Hw. destruct Hw as [bits [o1 [o2 [Hb [Hw ->]]]]].
      apply enc_lift_inv in Hb. destruct Hb as [Hb ->].
      apply (passes_skip_little_endian 4 bits). exact Hw.
    + (* double *)
      unfold BinaryEncoder.write_double in Hw.
      apply enc_bind_inv in Hw. destruct Hw as [bits [o1 [o2 [Hb [Hw ->]]]]].
      apply enc_lift_inv in Hb. destruct Hb as [Hb ->].
      apply (passes_skip_little_endian 8 bits). exact Hw.
    + (* bytes *)
      destruct datum; try discriminate. simpl in Hobj.
      eapply passes_skip_bytes; eassumption.
    + (* string *)
      eapply passes_skip_utf8; eassumption.
  - (* fixed *)
    simpl in Hvalid, Hw |- *.
    destruct datum as [| | | | s | | | |]; try discriminate.
    apply Z.eqb_eq in Hvalid. unfold write_fixed, BinaryEncoder.write in Hw.
    injection Hw as <-.
    unfold skip_fixed. simpl size_of.
    apply passes_lift. apply passes_skip.
    rewrite length_list_byte_of_string. lia.
  - (* enum *)
    simpl in Hvalid, Hw, Hwf |- *. unfold write_enum in Hw.
    apply enc_bind_inv in Hw. destruct Hw as [i [o1 [o2 [Hi [Hw ->]]]]].
    apply enc_lift_inv in Hi. destruct Hi as [Hi ->]. simpl app.
    destruct (list_index_find _ _ _ _ Hi) as [symbol [Hfind [Hnth Hrange]]].
    pose proof (countable_range _ Hwf) as Hcount.
    unfold skip_enum, BinaryDecoder.skip_int.
    apply (passes_skip_long i).
    apply passes_read_long; [lia | exact Hw].
Qed.

(** One block with all the items, then the block of count zero. *)
Lemma passes_skip_blocks {X} (item : Dec unit) (l : list X)
  (outs : list (list byte)) (fuel : nat) :
  Forall2 (fun _ out => passes item out tt) l outs ->
  l <> [] ->
  (1 <= fuel)%nat ->
  passes (skip_blocks (S fuel) item (Z.of_nat (List.length l)))
    (List.concat outs ++ [Byte.x00]) tt.
Proof.
  intros Hitems Hne Hfuel.
  destruct fuel as [| fuel]; [lia |].
  assert (Hpos : 0 < Z.of_nat (List.length l)).
  { destruct l; [contradiction | simpl; lia]. }
  change (skip_blocks (S (S fuel)) item (Z.of_nat (List.length l)))
    with (if negb (Z.of_nat (List.length l) =? 0)
          then
            bind (if Z.of_nat (List.length l) <? 0
                  then bind BinaryDecoder.read_long BinaryDecoder.skip
                  else bind (repeat_dec (Z.to_nat (Z.of_nat (List.length l)))
                               item)
                         (fun _ => ret tt))
              (fun _ =>
                 bind BinaryDecoder.read_long
                   (fun block_count =>
                      skip_blocks (S fuel) item block_count))
          else ret tt).
  destruct (Z.eqb_spec (Z.of_nat (List.length l)) 0) as [H | _]; [lia |].
  destruct (Z.ltb_spec (Z.of_nat (List.length l)) 0) as [H | _]; [lia |].
  simpl negb. cbv iota. rewrite Nat2Z.id.
  apply passes_bind with (a := tt).
  - apply passes_bind_nil with (a := map (fun _ => tt) l);
      [| apply passes_ret].
    apply passes_repeat. exact Hitems.
  - apply passes_bind_nil with (a := 0).
    + apply passes_read_long; [lia | reflexivity].
    + apply passes_ret.
Qed.

(** The framing of [write_array] and [write_map] and the loop of
    [skip_array] and [skip_map]. *)
Lemma passes_skip_framed {X} (item : Dec unit) (l : list X)
  (outs : list (list byte)) (count : list byte) (fuel : nat) :
  Forall2 (fun _ out => passes item out tt) l outs ->
  countable (List.length l) = true ->
  (if Z.of_nat (List.length l) >? 0
   then BinaryEncoder.write_long (Z.of_nat (List.length l)) = (Ok tt, count)
   else count = [] /\ l = []) ->
  (2 <= fuel)%nat ->
  passes
    (bind BinaryDecoder.read_long
       (fun block_count => skip_blocks fuel item block_count))
    (count ++ (if Z.of_nat (List.length l) >? 0
               then List.concat outs else [])
           ++ [Byte.x00])
    tt.
Proof.
  intros Hitems Hlen Hcount Hfuel.
  destruct fuel as [| fuel]; [lia |].
  destruct (Z.gtb_spec (Z.of_nat (List.length l)) 0) as [Hpos | Hzero].
  - apply passes_bind with (a := Z.of_nat (List.length l)).
    + apply passes_read_long; [apply countable_range; exact Hlen | exact Hcount].
    + apply passes_skip_blocks; [exact Hitems | | lia].
      intros ->. simpl in Hpos. lia.
  - destruct Hcount as [-> ->]. simpl app.
    apply passes_bind_nil with (a := 0).
    + apply passes_read_long; [lia | reflexivity].
    + apply passes_ret.
Qed.

Lemma skip_data_unfold (fuel : nat) (w : schema) :
  skip_data (S fuel) w
  = try_except (type_to_skipper (skip_data fuel) fuel w)
      (fun e => match e with KeyError => true | _ => false end)
      (raise (AvroException (msg_unknown_schema_type (schema_type w)))).
Proof.
  reflexivity.
Qed.

(** Skipping under the schema of the writing passes what was written. *)
Lemma skip_passes_schema (py : Builtins) (s : schema) :
  well_formed s = true ->
  forall datum out,
    validate s datum = true ->
    python_object py datum = true ->
    write_data py s datum = (Ok tt, out) ->
    forall fuel,
      (schema_depth s + 2 <= fuel)%nat ->
      passes (skip_data fuel s) out tt.
Proof.
  induction s as [oid t | oid n z | oid n l | oid s IHs | oid s IHs
                  | oid t schemas IH | oid t n fields IH]
    using schema_induction;
    intros Hwf datum out Hvalid Hobj Hw fuel Hfuel;
    (destruct fuel as [| fuel]; [simpl in Hfuel; lia |]);
    rewrite skip_data_unfold; apply passes_try_except.
  - apply (skip_passes_leaf py _ _ _ datum); (exact I || assumption).
  - apply (skip_passes_leaf py _ _ _ datum); (exact I || assumption).
  - apply (skip_passes_leaf py _ _ _ datum); (exact I || assumption).
  - (* array *)
    apply write_data_inv in Hw. simpl in Hw, Hwf, Hfuel.
    assert (Hseq : exists l,
               (datum = PList l \/ datum = PTuple l)
               /\ forallb (validate s) l = true
               /\ countable (List.length l) = true
               /\ forallb (python_object py) l = true).
    { destruct datum; try discriminate; exists l; simpl in Hvalid, Hobj;
        apply andb_true_iff in Hobj; destruct Hobj; auto. }
    destruct Hseq as [l [Hseq [Hvalid_l [Hcount Hobj_l]]]].
    assert (Hlen : BinaryEncoder.len py datum = Ok (Z.of_nat (List.length l)))
      by (destruct Hseq as [-> | ->]; reflexivity).
    assert (Hiter : iterate py datum = Ok l)
      by (destruct Hseq as [-> | ->]; reflexivity).
    unfold write_array in Hw.
    rewrite Hlen, enc_bind_lift_ok in Hw.
    apply framed_write_inv in Hw.
    destruct Hw as [count [items_out [Hparts ->]]].
    assert (Houts : exists outs,
               Forall2 (fun item o => write_data py s item = (Ok tt, o))
                 l outs
               /\ items_out = (if Z.of_nat (List.length l) >? 0
                               then List.concat outs else [])).
    { destruct (Z.of_nat (List.length l) >? 0).
      - destruct Hparts as [_ Hitems].
        rewrite Hiter, enc_bind_lift_ok in Hitems.
        apply enc_for_each_inv in Hitems. exact Hitems.
      - destruct Hparts as [_ [-> Hnil]].
        apply length_zero_iff_nil in Hnil. subst l.
        exists []. split; [constructor | reflexivity]. }
    destruct Houts as [outs [Houts ->]].
    unfold type_to_skipper, skip_array. simpl items_of.
    apply passes_lift.
    apply (passes_skip_framed (skip_data fuel s) l outs count fuel).
    + rewrite forallb_forall in Hvalid_l, Hobj_l.
      apply (Forall2_impl_In _ _ _ _ Houts). intros item o Hin Hitem.
      apply (IHs Hwf item); try assumption;
        [apply Hvalid_l | apply Hobj_l | lia]; exact Hin.
    + exact Hcount.
    + destruct (Z.of_nat (List.length l) >? 0); [tauto |].
      destruct Hparts as [-> [_ Hnil]].
      apply length_zero_iff_nil in Hnil. tauto.
    + lia.
  - (* map *)
    apply write_data_inv in Hw. simpl in Hw, Hwf, Hfuel.
    destruct datum as [| | | | | | | | d]; try discriminate.
    simpl in Hvalid, Hobj.
    apply andb_true_iff in Hvalid. destruct Hvalid as [Hkeys Hvalid_d].
    apply andb_true_iff in Hobj. destruct Hobj as [Hcount Hobj_d].
    unfold write_map in Hw. simpl BinaryEncoder.len in Hw.
    rewrite enc_bind_lift_ok in Hw.
    apply framed_write_inv in Hw.
    destruct Hw as [count [items_out [Hparts ->]]].
    assert (Houts : exists outs,
               Forall2 (fun kv o =>
                          enc_bind (BinaryEncoder.write_utf8 py (fst kv))
                            (fun _ => write_data py s (snd kv)) = (Ok tt, o))
                 d outs
               /\ items_out = (if Z.of_nat (List.length d) >? 0
                               then List.concat outs else [])).
    { destruct (Z.of_nat (List.length d) >? 0).
      - destruct Hparts as [_ Hitems].
        apply enc_for_each_inv in Hitems. exact Hitems.
      - destruct Hparts as [_ [-> Hnil]].
        apply length_zero_iff_nil in Hnil. subst d.
        exists []. split; [constructor | reflexivity]. }
    destruct Houts as [outs [Houts ->]].
    unfold type_to_skipper, skip_map.
    apply (passes_skip_framed _ d outs count fuel).
    + rewrite forallb_forall in Hvalid_d, Hobj_d.
      apply (Forall2_impl_In _ _ _ _ Houts). intros [k v] o Hin Hitem.
      simpl in Hitem.
      apply enc_bind_inv in Hitem.
      destruct Hitem as [[] [o1 [o2 [Hk [Hv ->]]]]].
      specialize (Hobj_d _ Hin). simpl in Hobj_d.
      apply andb_true_iff in Hobj_d. destruct Hobj_d as [Hobj_k Hobj_v].
      apply passes_bind with (a := tt).
      * apply (passes_skip_utf8 py k); assumption.
      * simpl values_of. apply passes_lift.
        apply (IHs Hwf v); try assumption; [| lia].
        exact (Hvalid_d _ Hin).
    + exact Hcount.
    + destruct (Z.of_nat (List.length d) >? 0); [tauto |].
      destruct Hparts as [-> [_ Hnil]].
      apply length_zero_iff_nil in Hnil. tauto.
    + lia.
  - (* union *)
    apply write_data_inv in Hw. simpl datum_to_encoder in Hw.
    set (U := UnionSchema oid t schemas) in *.
    pose proof Hwf as Hwf'. simpl in Hwf'.
    apply andb_true_iff in Hwf'. destruct Hwf' as [Hwf' Hcount].
    apply andb_true_iff in Hwf'. destruct Hwf' as [Hwf' _].
    apply andb_true_iff in Hwf'. destruct Hwf' as [Hwf_all Hflat].
    rewrite forallb_forall in Hwf_all.
    unfold U in Hvalid. rewrite validate_union in Hvalid.
    destruct (existsb_first _ _ Hvalid) as [i [B [Hi [HB Hbefore]]]].
    pose proof (nth_error_In _ _ Hi) as HBin.
    unfold write_union in Hw.
    rewrite (resolve_union_selected _ _ _ schemas i B 0 Hi HB Hbefore) in Hw.
    apply enc_bind_inv in Hw. destruct Hw as [[] [o1 [o2 [Hindex [HwB ->]]]]].
    assert (Hrange : (i < List.length schemas)%nat).
    { apply nth_error_Some. congruence. }
    pose proof (countable_range _ Hcount) as Hbound.
    unfold type_to_skipper, U, skip_union. fold U.
    apply passes_bind with (a := Z.of_nat i).
    + apply passes_read_long; [lia | exact Hindex].
    + simpl schemas_of. apply passes_lift.
      rewrite (py_index_nonneg schemas (Z.of_nat i) B)
        by (lia || (rewrite Nat2Z.id; exact Hi)).
      simpl in Hfuel.
      rewrite Forall_forall in IH.
      apply (IH B HBin (Hwf_all B HBin) datum); try assumption.
      pose proof (fold_max_bound schema_depth schemas B HBin). lia.
  - (* record *)
    apply write_data_inv in Hw. simpl in Hw, Hwf, Hfuel.
    destruct datum as [| | | | | | | | d]; try discriminate.
    pose proof Hobj as Hobj_d.
    simpl in Hvalid.
    apply andb_true_iff in Hwf. destruct Hwf as [Hwf_all _].
    rewrite forallb_forall in Hwf_all, Hvalid.
    unfold write_record in Hw.
    apply enc_for_each_inv in Hw. destruct Hw as [outs [Houts ->]].
    unfold type_to_skipper, skip_record.
    simpl fields_of. apply passes_lift.
    apply passes_bind_nil with (a := map (fun _ : field => tt) fields);
      [| apply passes_ret].
    apply passes_for_each.
    rewrite Forall_forall in IH.
    apply (Forall2_impl_In _ _ _ _ Houts). intros f o Hin Hf.
    apply (IH f Hin (Hwf_all f Hin) (dict_get d (name f))); try assumption.
    + apply Hvalid. exact Hin.
    + apply python_object_dict_get. exact Hobj_d.
    + pose proof (fold_max_bound (fun f : field => schema_depth (type f))
                    fields f Hin) as Hmax.
      cbv beta in Hmax. unfold field in Hmax. lia.
Qed.

(** X9.  [skip_data] moves over exactly what [write_data] wrote: for a
    well-formed schema [S] and a valid datum that [write_data] encodes,
    [skip_data S] on a source that holds the bytes written returns at the
    end of these bytes, like [read_data S S] does, and leaves the match
    cache as it was. *)
Theorem skip_data_passes_encoding (py : Builtins) (S : schema)
  (datum : pyval) (out : list byte) (fuel : nat)
  (consumed rest : list byte) (c : match_cache) :
  well_formed S = true ->
  validate S datum = true ->
  python_object py datum = true ->
  write_data py S datum = (Ok tt, out) ->
  (schema_depth S + 2 <= fuel)%nat ->
  skip_data fuel S (decoding consumed (out ++ rest) c)
  = (Ok tt, decoding (consumed ++ out) rest c).
Proof.
  intros Hwf Hvalid Hobj Hw Hfuel.
  apply (skip_passes_schema py S Hwf datum out Hvalid Hobj Hw fuel Hfuel).
Qed.

Lemma skip_data_passes_encoding_witness :
  skip_data 5 Examples.null_or_string
    (decoding [] ([Byte.x02; Byte.x04; Byte.x68; Byte.x69] ++ []) [])
  = (Ok tt, decoding ([] ++ [Byte.x02; Byte.x04; Byte.x68; Byte.x69]) [] []).
Proof.
  apply (skip_data_passes_encoding Reference.builtins
           Examples.null_or_string (PUnicode "hi")).
  - reflexivity.
  - reflexivity.
  - reflexivity.
  - reflexivity.
  - simpl. lia.
Defined.

(** ** A block size that points backwards *)

Lemma skip_blocks_loops (item : Dec unit) (rest : list byte)
  (c : match_cache) :
  forall fuel,
    skip_blocks fuel item (-1)
      (decoding [Byte.x01] (Byte.x03 :: rest) c)
    = (Diverge, decoding [Byte.x01] (Byte.x03 :: rest) c).
Proof.
  induction fuel as [| fuel IH]; [reflexivity |].
  change (skip_blocks (S fuel) item (-1))
    with (bind (bind BinaryDecoder.read_long BinaryDecoder.skip)
            (fun _ =>
               bind BinaryDecoder.read_long
                 (fun block_count => skip_blocks fuel item block_count))).
  assert (Hsize : BinaryDecoder.read_long
                    (decoding [Byte.x01] (Byte.x03 :: rest) c)
                  = (Ok (-2), decoding [Byte.x01; Byte.x03] rest c)).
  { apply (passes_read_long (-2) [Byte.x03]); [lia | reflexivity]. }
  assert (Hcount : BinaryDecoder.read_long
                     (decoding [] (Byte.x01 :: Byte.x03 :: rest) c)
                   = (Ok (-1), decoding [Byte.x01] (Byte.x03 :: rest) c)).
  { apply (passes_read_long (-1) [Byte.x01]); [lia | reflexivity]. }
  unfold bind at 1 2. rewrite Hsize.
  change (BinaryDecoder.skip (-2) (decoding [Byte.x01; Byte.x03] rest c))
    with (Ok tt, decoding [] (Byte.x01 :: Byte.x03 :: rest) c).
  unfold bind. rewrite Hcount. exact IH.
Qed.

(** X10.  [skip_array] and [skip_map] follow the size of a block with a
    negative count without looking at it: on a source that starts with the
    bytes 01 03 (the count -1 and the size -2) the skip goes back to the
    start of the source and comes to the same count again, so [skip_data]
    on an array or a map schema does not end, whatever the items are and
    whatever follows. *)
Theorem skip_data_loops_on_backward_block (fuel : nat) (oid : nat)
  (inner : schema) (rest : list byte) (c : match_cache) :
  fst (skip_data fuel (ArraySchema oid inner)
         (decoding [] (Byte.x01 :: Byte.x03 :: rest) c)) = Diverge
  /\ fst (skip_data fuel (MapSchema oid inner)
            (decoding [] (Byte.x01 :: Byte.x03 :: rest) c)) = Diverge.
Proof.
  assert (Hcount : BinaryDecoder.read_long
                     (decoding [] (Byte.x01 :: Byte.x03 :: rest) c)
                   = (Ok (-1), decoding [Byte.x01] (Byte.x03 :: rest) c)).
  { apply (passes_read_long (-1) [Byte.x01]); [lia | reflexivity]. }
  destruct fuel as [| fuel]; [split; reflexivity |].
  rewrite !skip_data_unfold. unfold try_except, type_to_skipper.
  unfold skip_array, skip_map. simpl items_of. unfold bind, lift.
  rewrite Hcount, !skip_blocks_loops. split; reflexivity.
Qed.

(** ** Decoders that do not use the match cache *)

Lemma with_cache_same (st : state) : with_cache st (cache st) = st.
Proof.
  destruct st. reflexivity.
Qed.

Lemma cache_blind_ret {A} (a : A) : cache_blind (ret a).
Proof.
  intros st c. reflexivity.
Qed.

Lemma cache_blind_raise {A} (e : exn) : cache_blind (@raise A e).
Proof.
  intros st c. reflexivity.
Qed.

Lemma cache_blind_bind {A B} (m : Dec A) (k : A -> Dec B) :
  cache_blind m -> (forall a, cache_blind (k a)) -> cache_blind (bind m k).
Proof.
  intros Hm Hk st c. unfold bind. rewrite Hm.
  destruct (m st) as [[a | e |] st1]; simpl; [apply Hk | reflexivity ..].
Qed.

Lemma cache_blind_try_except {A} (m h : Dec A) (E : py_error -> bool) :
  cache_blind m -> cache_blind h -> cache_blind (try_except m E h).
Proof.
  intros Hm Hh st c. unfold try_except. rewrite Hm.
  destruct (m st) as [[a | [| | | | e] |] st1]; simpl; try reflexivity.
  destruct (E e); [apply Hh | reflexivity].
Qed.

Lemma cache_blind_read (n : Z) : cache_blind (BinaryDecoder.read n).
Proof.
  intros st c. unfold BinaryDecoder.read. simpl source.
  destruct ((n <? 0) || (Z.of_nat (List.length (remaining (source st))) <? n));
    reflexivity.
Qed.

Lemma cache_blind_read_ord : cache_blind BinaryDecoder.read_ord.
Proof.
  apply cache_blind_bind; [apply cache_blind_read |].
  intros [| b [| b' s]];
    (apply cache_blind_ret || apply cache_blind_raise).
Qed.

Lemma cache_blind_read_long_loop (fuel : nat) :
  forall b n shift, cache_blind (BinaryDecoder.read_long_loop fuel b n shift).
Proof.
  induction fuel as [| fuel IH]; intros b n shift; simpl.
  - intros st c. reflexivity.
  - destruct (negb (Z.land b 128 =? 0)); [| apply cache_blind_ret].
    apply cache_blind_bind; [apply cache_blind_read_ord |].
    intros b'. apply IH.
Qed.

Lemma cache_blind_read_long : cache_blind BinaryDecoder.read_long.
Proof.
  apply cache_blind_bind; [apply cache_blind_read_ord |].
  intros b st c. simpl source. apply cache_blind_read_long_loop.
Qed.

Lemma cache_blind_read_bytes : cache_blind BinaryDecoder.read_bytes.
Proof.
  apply cache_blind_bind; [apply cache_blind_read_long |].
  intros n. apply cache_blind_bind; [apply cache_blind_read |].
  intros s. apply cache_blind_ret.
Qed.

(** The decoder of a primitive schema does not use the cache, and it is
    the same for every reader's schema. *)
Lemma cache_blind_primitive (py : Builtins)
  (read : schema -> schema -> Dec pyval) (skip : schema -> Dec unit)
  (oid : nat) (t : prim_type) (R : schema) :
  cache_blind (type_to_decoder py read skip (PrimitiveSchema oid t) R)
  /\ type_to_decoder py read skip (PrimitiveSchema oid t) R
     = type_to_decoder py read skip (PrimitiveSchema oid t)
         (PrimitiveSchema oid t).
Proof.
  split; [| destruct t; reflexivity].
  destruct t; simpl.
  - apply cache_blind_ret.
  - apply cache_blind_bind; [apply cache_blind_read_ord |].
    intros b. apply cache_blind_ret.
  - apply cache_blind_bind; [apply cache_blind_read_long |].
    intros n. apply cache_blind_ret.
  - apply cache_blind_bind; [apply cache_blind_read_long |].
    intros n. apply cache_blind_ret.
  - apply cache_blind_bind; [apply cache_blind_read |].
    intros s. apply cache_blind_ret.
  - apply cache_blind_bind; [apply cache_blind_read |].
    intros s. apply cache_blind_ret.
  - apply cache_blind_read_bytes.
  - apply cache_blind_bind; [apply cache_blind_read_bytes |].
    intros [| | | | s | | | |]; try apply cache_blind_raise.
    destruct (utf8_valid py s);
      [apply cache_blind_ret | apply cache_blind_raise].
Qed.

(** ** Matching before reading *)

Lemma uncached_match_rules (w r : schema) :
  uncached_match w r = __match_schema__ w r.
Proof.
  unfold uncached_match. destruct (same_object w r) eqn:E; [| reflexivity].
  apply same_object_iff in E. subst r. symmetry.
  apply match_schema_same_object.
Qed.

Lemma match_schema_dec_state (w r : schema) (st : state) :
  cache_state (cache st) ->
  exists c',
    cache_state c'
    /\ match_schema_dec w r st = (Ok (__match_schema__ w r), with_cache st c').
Proof.
  intros Hc. exists (snd (match_schema w r (cache st))).
  split; [apply cache_after_match; exact Hc |].
  unfold match_schema_dec.
  destruct (match_schema_sound w r (cache st) (cache_state_sound _ Hc))
    as [Hv _].
  rewrite uncached_match_rules in Hv.
  destruct (match_schema w r (cache st)) as [v c']. simpl in Hv. subst v.
  reflexivity.
Qed.

Lemma same_object_sym (a b : schema) : same_object a b = same_object b a.
Proof.
  destruct (same_object a b) eqn:E; symmetry.
  - apply same_object_iff in E. subst b. apply same_object_iff. reflexivity.
  - apply not_true_is_false. intros E'. apply same_object_iff in E'.
    subst b. rewrite (proj2 (same_object_iff a a) eq_refl) in E.
    discriminate.
Qed.

(** X11.  Schemas that do not match are found out before anything is
    read: when the reader's schema is another object than the writer's and
    the matching rules do not hold for the pair, [read_data] raises
    [SchemaResolutionException("Schemas do not match.")] with both schemas
    and leaves the source where it was. *)
Theorem read_data_mismatch (py : Builtins) (fuel : nat) (W R : schema)
  (st : state) :
  same_object R W = false ->
  __match_schema__ W R = false ->
  cache_state (cache st) ->
  exists c',
    cache_state c'
    /\ read_data py (S fuel) W R st
       = (Raise (SchemaResolutionException msg_schemas_do_not_match W R),
          with_cache st c').
Proof.
  intros Hdiff Hrules Hc.
  destruct (match_schema_dec_state W R st Hc) as [c' [Hc' Hm]].
  exists c'. split; [exact Hc' |].
  rewrite read_data_unfold. unfold read_data_body.
  rewrite Hdiff. cbv zeta. change (negb false) with true. cbv iota.
  unfold bind. rewrite Hm, Hrules. reflexivity.
Qed.

Lemma read_data_mismatch_witness :
  exists c',
    cache_state c'
    /\ read_data Reference.builtins 1 Examples.long_schema Examples.int_schema
         (decoding [] [Byte.x02] [])
       = (Raise (SchemaResolutionException msg_schemas_do_not_match
                   Examples.long_schema Examples.int_schema),
          with_cache (decoding [] [Byte.x02] []) c').
Proof.
  apply (read_data_mismatch Reference.builtins 0 Examples.long_schema
           Examples.int_schema (decoding [] [Byte.x02] [])).
  - reflexivity.
  - reflexivity.
  - apply cache_initial.
Defined.

(** X12.  The reader's schema has no part in how a primitive value is
    decoded: once the schemas match, [read_data] for a primitive writer's
    schema and a reader's schema that is not a union returns what it
    returns for the writer's schema alone, from the same bytes.  A
    promotion converts nothing: an [int] or a [long] is returned as an
    integer also when the reader's schema is [float] or [double]. *)
Theorem primitive_read_ignores_reader (py : Builtins) (fuel : nat)
  (oid : nat) (t : prim_type) (R : schema) (st : state) :
  let W := PrimitiveSchema oid t in
  is_union_tag (schema_type R) = false ->
  __match_schema__ W R = true ->
  cache_state (cache st) ->
  fst (read_data py (S fuel) W R st) = fst (read_data py (S fuel) W W st)
  /\ source (snd (read_data py (S fuel) W R st))
     = source (snd (read_data py (S fuel) W W st))
  /\ (t = t_int \/ t = t_long ->
      forall v, fst (read_data py (S fuel) W R st) = Ok v ->
                exists n, v = PInt n).
Proof.
  intros W Hflat Hrules Hc.
  set (dispatch := fun r =>
         try_except
           (type_to_decoder py (read_data py fuel) (skip_data fuel) W r)
           (fun e => match e with KeyError => true | _ => false end)
           (raise (AvroException
                     (msg_cannot_read_unknown_schema_type (schema_type W))))).
  assert (Hsame : read_data py (S fuel) W W st = dispatch W st).
  { rewrite read_data_unfold. unfold read_data_body.
    rewrite (proj2 (same_object_iff W W) eq_refl). reflexivity. }
  assert (Hblind : cache_blind (dispatch W)).
  { apply cache_blind_try_except; [| apply cache_blind_raise].
    apply cache_blind_primitive. }
  assert (Hother : exists c',
             read_data py (S fuel) W R st = dispatch W (with_cache st c')).
  { rewrite read_data_unfold. unfold read_data_body. fold (dispatch R).
    assert (HR : dispatch R = dispatch W).
    { unfold dispatch, W.
      rewrite (proj2 (cache_blind_primitive py _ _ oid t R)). reflexivity. }
    rewrite HR.
    destruct (same_object R W) eqn:E.
    - exists (cache st). rewrite with_cache_same. reflexivity.
    - destruct (match_schema_dec_state W R st Hc) as [c' [_ Hm]].
      exists c'. change (negb false) with true. cbv iota.
      unfold bind. rewrite Hm, Hrules. change (negb true) with false.
      cbv iota. rewrite Hflat, andb_false_r. reflexivity. }
  destruct Hother as [c' Hother].
  assert (Hvalue : fst (read_data py (S fuel) W R st)
                   = fst (read_data py (S fuel) W W st)).
  { rewrite Hother, Hsame, Hblind. reflexivity. }
  split; [exact Hvalue |]. split.
  { rewrite Hother, Hsame, Hblind. reflexivity. }
  intros Ht v Hv. rewrite Hvalue, Hsame in Hv.
  unfold dispatch, try_except, W in Hv.
  destruct Ht as [-> | ->]; simpl in Hv; unfold bind in Hv;
    unfold BinaryDecoder.read_int in Hv;
    destruct (BinaryDecoder.read_long st) as [[n | e |] st1];
    simpl in Hv; try discriminate;
    try (destruct e as [| | | | []]; discriminate);
    injection Hv as <-; exists n; reflexivity.
Qed.

Lemma primitive_read_ignores_reader_witness :
  fst (read_data Reference.builtins 1 Examples.int_schema
         (PrimitiveSchema 30 t_double) (decoding [] [Byte.x02] []))
  = Ok (PInt 1).
Proof.
  destruct (primitive_read_ignores_reader Reference.builtins 0 2 t_int
              (PrimitiveSchema 30 t_double) (decoding [] [Byte.x02] []))
    as [Hvalue _].
  - reflexivity.
  - reflexivity.
  - apply cache_initial.
  - etransitivity; [exact Hvalue | reflexivity].
Defined.

(** ** A union as the reader's schema *)

Lemma with_cache_twice (st : state) (c c' : match_cache) :
  with_cache (with_cache st c) c' = with_cache st c'.
Proof.
  reflexivity.
Qed.

Lemma resolve_readers_union_first (read : schema -> schema -> Dec pyval)
  (W R : schema) (schemas : list schema) :
  forall st,
    cache_state (cache st) ->
    (forall i B,
        nth_error schemas i = Some B ->
        __match_schema__ W B = true ->
        (forall j B', (j < i)%nat -> nth_error schemas j = Some B' ->
                      __match_schema__ W B' = false) ->
        exists c',
          cache_state c'
          /\ resolve_readers_union read W R schemas st
             = read W B (with_cache st c'))
    /\ ((forall B, In B schemas -> __match_schema__ W B = false) ->
        exists c',
          cache_state c'
          /\ resolve_readers_union read W R schemas st
             = (Raise (SchemaResolutionException msg_schemas_do_not_match
                         W R), with_cache st c')).
Proof.
  induction schemas as [| s schemas IH]; intros st Hc; split.
  - intros [| i] B Hi; discriminate.
  - intros _. exists (cache st). split; [exact Hc |].
    rewrite with_cache_same. reflexivity.
  - intros i B Hi HB Hbefore. simpl. unfold bind.
    destruct (match_schema_dec_state W s st Hc) as [c1 [Hc1 Hm]].
    rewrite Hm.
    destruct i as [| i]; simpl in Hi.
    + injection Hi as ->. rewrite HB. exists c1.
      split; [exact Hc1 | reflexivity].
    + rewrite (Hbefore 0%nat s) by (simpl; (lia || reflexivity)).
      destruct (IH (with_cache st c1) Hc1) as [Hfirst _].
      destruct (Hfirst i B Hi HB) as [c2 [Hc2 Hr]].
      { intros j B' Hj HB'. apply (Hbefore (S j) B'); [lia | exact HB']. }
      exists c2. split; [exact Hc2 | exact Hr].
  - intros Hnone. simpl. unfold bind.
    destruct (match_schema_dec_state W s st Hc) as [c1 [Hc1 Hm]].
    rewrite Hm, (Hnone s) by (left; reflexivity).
    destruct (IH (with_cache st c1) Hc1) as [_ Hlast].
    destruct Hlast as [c2 [Hc2 Hr]].
    { intros B HB. apply Hnone. right. exact HB. }
    exists c2. split; [exact Hc2 | exact Hr].
Qed.

(** X13.  A writer's schema that is not a union is read against the
    first branch of a reader's union that it matches, in the order of the
    branches; when it matches no branch, [read_data] raises
    [SchemaResolutionException("Schemas do not match.")] with the writer's
    schema and the union, before anything is read. *)
Theorem reader_union_first_match (py : Builtins) (fuel : nat) (W : schema)
  (oid : nat) (t : union_type) (schemas : list schema) (st : state) :
  let R := UnionSchema oid t schemas in
  is_union_tag (schema_type W) = false ->
  cache_state (cache st) ->
  (forall i B,
      nth_error schemas i = Some B ->
      __match_schema__ W B = true ->
      (forall j B', (j < i)%nat -> nth_error schemas j = Some B' ->
                    __match_schema__ W B' = false) ->
      exists c',
        cache_state c'
        /\ read_data py (S fuel) W R st
           = read_data py fuel W B (with_cache st c'))
  /\ ((forall B, In B schemas -> __match_schema__ W B = false) ->
      exists c',
        cache_state c'
        /\ read_data py (S fuel) W R st
           = (Raise (SchemaResolutionException msg_schemas_do_not_match W R),
              with_cache st c')).
Proof.
  intros R Hflat Hc.
  assert (HR : is_union_tag (schema_type R) = true)
    by (destruct t; reflexivity).
  assert (Hdiff : same_object R W = false).
  { apply not_true_is_false. intros E. apply same_object_iff in E.
    rewrite <- E in Hflat. congruence. }
  assert (Hrules : __match_schema__ W R = true).
  { unfold __match_schema__.
    destruct (type_tag_eqb (schema_type W) (schema_type R)) eqn:E.
    - apply type_tag_eqb_eq in E. rewrite E in Hflat. congruence.
    - rewrite HR, orb_true_r. reflexivity. }
  destruct (match_schema_dec_state W R st Hc) as [c1 [Hc1 Hm]].
  assert (Hstep : read_data py (S fuel) W R st
                  = resolve_readers_union (read_data py fuel) W R schemas
                      (with_cache st c1)).
  { rewrite read_data_unfold. unfold read_data_body.
    rewrite Hdiff. cbv zeta. change (negb false) with true. cbv iota.
    unfold bind at 1. rewrite Hm, Hrules.
    change (negb true) with false. cbv iota.
    rewrite Hflat, HR. reflexivity. }
  rewrite Hstep.
  destruct (resolve_readers_union_first (read_data py fuel) W R schemas
              (with_cache st c1) Hc1) as [Hfirst Hnone].
  split.
  - intros i B Hi HB Hbefore.
    destruct (Hfirst i B Hi HB Hbefore) as [c2 [Hc2 Hr]].
    exists c2. split; [exact Hc2 | exact Hr].
  - intros Hall. destruct (Hnone Hall) as [c2 [Hc2 Hr]].
    exists c2. split; [exact Hc2 | exact Hr].
Qed.

Lemma reader_union_first_match_witness :
  exists c',
    cache_state c'
    /\ read_data Reference.builtins 2 (PrimitiveSchema 40 t_string)
         Examples.null_or_string (decoding [] [Byte.x02; Byte.x61] [])
       = read_data Reference.builtins 1 (PrimitiveSchema 40 t_string)
           Examples.string_schema
           (with_cache (decoding [] [Byte.x02; Byte.x61] []) c').
Proof.
  destruct (reader_union_first_match Reference.builtins 1
              (PrimitiveSchema 40 t_string) 6 t_union
              [Examples.null_schema; Examples.string_schema]
              (decoding [] [Byte.x02; Byte.x61] []))
    as [Hfirst _].
  - reflexivity.
  - apply cache_initial.
  - apply (Hfirst 1%nat Examples.string_schema).
    + reflexivity.
    + reflexivity.
    + intros [| j] B' Hj HB'; [| lia].
      injection HB' as <-. reflexivity.
Defined.

(** ** Enum indices out of range *)

(** X14.  [read_enum] on an index that is not below the number of the
    writer's symbols raises [SchemaResolutionException("Can't access enum
    index ...")] with both schemas.  An index below minus that number is
    not checked: indexing the symbols raises an [IndexError], which
    [read_data] lets through. *)
Theorem read_enum_index_out_of_range (py : Builtins) (fuel : nat)
  (oid : nat) (fullname : string) (symbols : list string) (R : schema)
  (i : Z) (st st' : state) :
  let W := EnumSchema oid fullname symbols in
  BinaryDecoder.read_int st = (Ok i, st') ->
  (Z.of_nat (List.length symbols) <= i ->
   read_enum W R st
   = (Raise (SchemaResolutionException
               (msg_cant_access_enum_index i
                  (Z.of_nat (List.length symbols))) W R), st')
   /\ read_data py (S fuel) W W st
      = (Raise (SchemaResolutionException
                  (msg_cant_access_enum_index i
                     (Z.of_nat (List.length symbols))) W W), st'))
  /\ (i < - Z.of_nat (List.length symbols) ->
      read_enum W R st = (Raise (PyError IndexError), st')
      /\ read_data py (S fuel) W W st = (Raise (PyError IndexError), st')).
Proof.
  intros W Hread.
  assert (Hsame : read_data py (S fuel) W W st
                  = try_except (read_enum W W)
                      (fun e => match e with KeyError => true | _ => false end)
                      (raise (AvroException
                                (msg_cannot_read_unknown_schema_type
                                   (schema_type W)))) st).
  { rewrite read_data_unfold. unfold read_data_body.
    rewrite (proj2 (same_object_iff W W) eq_refl). reflexivity. }
  split; intros Hi.
  - assert (Henum : forall r,
               read_enum W r st
               = (Raise (SchemaResolutionException
                           (msg_cant_access_enum_index i
                              (Z.of_nat (List.length symbols))) W r), st')).
    { intros r. unfold read_enum, bind. rewrite Hread. simpl symbols_of.
      unfold lift.
      destruct (Z.leb_spec (Z.of_nat (List.length symbols)) i) as [_ | H];
        [reflexivity | lia]. }
    split; [apply Henum |].
    rewrite Hsame. unfold try_except. rewrite Henum. reflexivity.
  - assert (Henum : forall r,
               read_enum W r st = (Raise (PyError IndexError), st')).
    { intros r. unfold read_enum, bind. rewrite Hread. simpl symbols_of.
      unfold lift.
      destruct (Z.leb_spec (Z.of_nat (List.length symbols)) i) as [H | _];
        [lia |].
      rewrite py_index_out_of_range by (right; exact Hi).
      reflexivity. }
    split; [apply Henum |].
    rewrite Hsame. unfold try_except. rewrite Henum. reflexivity.
Qed.

Lemma read_enum_index_out_of_range_witness :
  read_data Reference.builtins 1 Examples.enum_abc Examples.enum_abc
    (decoding [] [Byte.x07] [])
  = (Raise (PyError IndexError), decoding [Byte.x07] [] []).
Proof.
  destruct (read_enum_index_out_of_range Reference.builtins 0 7 "E"
              ["A"; "B"; "C"]%string Examples.enum_abc (-4)
              (decoding [] [Byte.x07] []) (decoding [Byte.x07] [] []))
    as [_ Hbelow].
  - reflexivity.
  - apply Hbelow. simpl. lia.
Defined.

(** ** The size of the match cache *)

Lemma cache_get_none (c : match_cache) (w r : schema) :
  cache_get c w r = None -> ~ In (w, r) (map fst c).
Proof.
  unfold cache_get. intros Hget Hin.
  destruct (find _ c) as [e |] eqn:Hfind; [discriminate |].
  apply in_map_iff in Hin. destruct Hin as [e [He Hin]].
  pose proof (find_none _ _ Hfind e Hin) as Hno. simpl in Hno.
  rewrite He in Hno. simpl in Hno.
  rewrite !(proj2 (same_object_iff _ _) eq_refl) in Hno. discriminate.
Qed.

(** X15.  The match cache stays small: in every state that the module
    can reach it holds at most [MATCH_SCHEMA_CACHE_MAX_LENGTH + 1] entries
    (it is emptied when a new pair arrives and more than
    [MATCH_SCHEMA_CACHE_MAX_LENGTH] are held), and no pair of schema
    objects is held twice. *)
Theorem match_cache_bounded (c : match_cache) :
  cache_state c ->
  Z.of_nat (List.length c) <= MATCH_SCHEMA_CACHE_MAX_LENGTH + 1
  /\ NoDup (map fst c).
Proof.
  unfold MATCH_SCHEMA_CACHE_MAX_LENGTH.
  induction 1 as [| w r c Hc [IHlen IHnd] | c Hc _].
  - split; [simpl; lia | constructor].
  - unfold match_schema.
    destruct (same_object w r); [split; assumption |].
    destruct (cache_get c w r) as [v |] eqn:Hget; [split; assumption |].
    unfold MATCH_SCHEMA_CACHE_MAX_LENGTH. simpl snd.
    destruct (Z.gtb_spec (Z.of_nat (List.length c)) 20) as [Hfull | Hroom].
    + split; [simpl; lia |]. simpl. constructor; [tauto | constructor].
    + split; [simpl List.length; lia |]. simpl. constructor; [| exact IHnd].
      apply cache_get_none. exact Hget.
  - split; [simpl; lia | constructor].
Qed.

Lemma match_cache_bounded_witness :
  Z.of_nat
    (List.length
       (snd (match_schema Examples.int_schema Examples.long_schema [])))
  <= MATCH_SCHEMA_CACHE_MAX_LENGTH + 1
  /\ NoDup
       (map fst
          (snd (match_schema Examples.int_schema Examples.long_schema []))).
Proof.
  apply (match_cache_bounded
           (snd (match_schema Examples.int_schema Examples.long_schema []))).
  apply cache_after_match, cache_initial.
Defined.

(** ** Matching and validation *)

(** X16.  Matching agrees with validation across types: when a writer's
    and a reader's schema of different types, neither of them a union,
    match, every datum that validates against the writer's schema
    validates against the reader's schema. *)
Theorem matching_extends_validation (W R : schema) (datum : pyval) :
  schema_type W <> schema_type R ->
  is_union_tag (schema_type W) = false ->
  is_union_tag (schema_type R) = false ->
  __match_schema__ W R = true ->
  validate W datum = true ->
  validate R datum = true.
Proof.
  intros Hdiff HW HR Hmatch Hvalid.
  rewrite (cross_tag_match W R Hdiff HW HR) in Hmatch.
  apply is_promotion_iff in Hmatch.
  exact (promotion_validates W R datum Hmatch Hvalid).
Qed.

Lemma matching_extends_validation_witness :
  validate Examples.long_schema (PInt 5) = true.
Proof.
  apply (matching_extends_validation Examples.int_schema
           Examples.long_schema (PInt 5)).
  - discriminate.
  - reflexivity.
  - reflexivity.
  - reflexivity.
  - reflexivity.
Defined.

(** ** The bytes of a record and of a map *)

(** X17.  A record is written as the encodings of its fields, one after
    the other in the order of the schema and with nothing between or
    around them; a field is taken from the dictionary by its name, [None]
    standing for a name that is not a key, and keys that name no field
    are not written. *)
Theorem record_encoding (py : Builtins) (oid : nat) (t : record_type)
  (fullname : string) (fields : list field) (d : list (pyval * pyval))
  (outs : list (list byte)) :
  Forall2 (fun f out =>
             write_data py (type f) (dict_get d (name f)) = (Ok tt, out))
    fields outs ->
  write_data py (RecordSchema oid t fullname fields) (PDict d)
  = (Ok tt, List.concat outs).
Proof.
  intros Hfields. rewrite write_data_unfold. simpl datum_to_encoder.
  unfold write_record. cbv beta iota.
  rewrite (enc_for_each_ok
             (fun f : field => write_data py (type f) (dict_get d (name f)))
             fields outs Hfields).
  reflexivity.
Qed.

Lemma record_encoding_witness :
  write_data Reference.builtins Examples.record_a
    (PDict [(PUnicode "z", PInt 9); (PUnicode "a", PInt 1)])
  = (Ok tt, List.concat [[Byte.x02]]).
Proof.
  apply (record_encoding Reference.builtins 9 t_record "R"
           [Field "a"%string Examples.int_schema false PNone]
           [(PUnicode "z", PInt 9); (PUnicode "a", PInt 1)] [[Byte.x02]]).
  repeat constructor.
Defined.

(** X18.  A map is written like an array: an empty dictionary as the one
    byte 0, any other one as its length, then for each item in the order
    of the dictionary the key as a string and the value under the schema
    of the values, then the byte 0. *)
Theorem map_encoding (py : Builtins) (oid : nat) (values : schema)
  (d : list (pyval * pyval)) (outs : list (list byte)) :
  Forall2 (fun kv out =>
             exists key value,
               BinaryEncoder.write_utf8 py (fst kv) = (Ok tt, key)
               /\ write_data py values (snd kv) = (Ok tt, value)
               /\ out = key ++ value) d outs ->
  (d = [] ->
   write_data py (MapSchema oid values) (PDict d) = (Ok tt, [Byte.x00]))
  /\ (d <> [] ->
      exists count,
        BinaryEncoder.write_long (Z.of_nat (List.length d)) = (Ok tt, count)
        /\ write_data py (MapSchema oid values) (PDict d)
           = (Ok tt, count ++ List.concat outs ++ [Byte.x00])).
Proof.
  intros Hitems. split.
  - intros ->. reflexivity.
  - intros Hne.
    destruct (write_long_total (Z.of_nat (List.length d))) as [b [bs Hcount]].
    exists (b :: bs). split; [exact Hcount |].
    rewrite write_data_unfold. simpl datum_to_encoder. unfold write_map.
    simpl BinaryEncoder.len. rewrite enc_bind_lift_ok.
    destruct (Z.gtb_spec (Z.of_nat (List.length d)) 0) as [_ | Hzero].
    2:{ destruct d; [contradiction | simpl in Hzero; lia]. }
    assert (Hbody : Forall2
              (fun kv out =>
                 enc_bind (BinaryEncoder.write_utf8 py (fst kv))
                   (fun _ => write_data py values (snd kv)) = (Ok tt, out))
              d outs).
    { apply (Forall2_impl_In _ _ _ _ Hitems).
      intros kv out _ [key [value [Hk [Hv ->]]]].
      rewrite Hk, enc_bind_ok, Hv. reflexivity. }
    rewrite Hcount, enc_bind_ok.
    rewrite (enc_for_each_ok _ d outs Hbody).
    change (BinaryEncoder.write_long 0) with (Ok tt, [Byte.x00]).
    simpl. rewrite <- app_assoc. reflexivity.
Qed.

Lemma map_encoding_witness :
  exists count,
    BinaryEncoder.write_long 1 = (Ok tt, count)
    /\ write_data Reference.builtins (MapSchema 50 Examples.int_schema)
         (PDict [(PUnicode "a", PInt 1)])
       = (Ok tt, count ++ List.concat [[Byte.x02; Byte.x61; Byte.x02]]
                       ++ [Byte.x00]).
Proof.
  destruct (map_encoding Reference.builtins 50 Examples.int_schema
              [(PUnicode "a", PInt 1)] [[Byte.x02; Byte.x61; Byte.x02]])
    as [_ Hfull].
  - constructor; [| constructor].
    exists [Byte.x02; Byte.x61], [Byte.x02]. repeat split.
  - apply Hfull. discriminate.
Defined.

(** ** Lists and tuples *)

Lemma existsb_agree {A} (f g : A -> bool) (l : list A) :
  (forall x, In x l -> f x = g x) -> existsb f l = existsb g l.
Proof.
  induction l as [| a l IH]; intros H; simpl; [reflexivity |].
  rewrite (H a) by (left; reflexivity). f_equal.
  apply IH. intros x Hx. apply H. right. exact Hx.
Qed.

Lemma list_index_no_key (datum : pyval) (symbols : list string) :
  (forall symbol, key_is datum symbol = false) ->
  forall i, list_index datum symbols i = Raise (PyError ValueError).
Proof.
  intros Hno. induction symbols as [| s symbols IH]; intros i; simpl.
  - reflexivity.
  - rewrite Hno. apply IH.
Qed.

Lemma resolve_union_reports (W : schema) (holds holds' : schema -> bool)
  (selected selected' : Z -> schema -> Enc unit)
  (unselected unselected' : Enc unit) (schemas : list schema) :
  Forall (fun B => holds B = holds' B
                   /\ forall i, selected i B = selected' i B) schemas ->
  unknown_type_on_exception W unselected
  = unknown_type_on_exception W unselected' ->
  forall i,
    unknown_type_on_exception W
      (resolve_union holds selected unselected schemas i)
    = unknown_type_on_exception W
        (resolve_union holds' selected' unselected' schemas i).
Proof.
  intros Hall Hun. induction Hall as [| B schemas [Hh Hs] _ IH]; intros i.
  - exact Hun.
  - simpl. rewrite <- Hh. destruct (holds B); [rewrite Hs; reflexivity |].
    apply IH.
Qed.

(** X19.  A tuple stands for the list of its items: under every schema
    a tuple validates exactly when the list does, and [write_data] does
    the same for both, with the same bytes or the same exception.  The
    one place where the object itself leaves the module is [write_fixed],
    which hands it to the writer unchecked; so this holds for writers
    that do the same with the tuple and with the list (a file and an
    [io.BytesIO] refuse both). *)
Theorem tuple_as_list (py : Builtins) (S : schema) (l : list pyval) :
  writer_write py (PTuple l) = writer_write py (PList l) ->
  validate S (PTuple l) = validate S (PList l)
  /\ write_data py S (PTuple l) = write_data py S (PList l).
Proof.
  intros Hwriter.
  induction S as [oid t | oid n z | oid n symbols | oid s IHs | oid s IHs
                  | oid t schemas IH | oid t n fields IH]
    using schema_induction.
  - destruct t; split; reflexivity.
  - split; [reflexivity |].
    rewrite !write_data_unfold. simpl datum_to_encoder. unfold write_fixed.
    rewrite Hwriter. reflexivity.
  - split; [reflexivity |].
    rewrite !write_data_unfold. simpl datum_to_encoder. unfold write_enum.
    rewrite !list_index_no_key by reflexivity. reflexivity.
  - split; reflexivity.
  - split; reflexivity.
  - split.
    + rewrite !validate_union. apply existsb_agree.
      intros B HB. rewrite Forall_forall in IH. apply (IH B HB).
    + rewrite !write_data_unfold. simpl datum_to_encoder. unfold write_union.
      apply resolve_union_reports; [| reflexivity].
      rewrite Forall_forall in IH |- *. intros B HB.
      destruct (IH B HB) as [Hv Hw]. split; [exact Hv |].
      intros i. rewrite Hw. reflexivity.
  - split; reflexivity.
Qed.

Lemma tuple_as_list_witness :
  validate Examples.array_of_int (PTuple [PInt 1; PInt 2])
  = validate Examples.array_of_int (PList [PInt 1; PInt 2])
  /\ write_data Reference.builtins Examples.array_of_int
       (PTuple [PInt 1; PInt 2])
     = write_data Reference.builtins Examples.array_of_int
         (PList [PInt 1; PInt 2]).
Proof.
  apply (tuple_as_list Reference.builtins Examples.array_of_int
           [PInt 1; PInt 2]).
  reflexivity.
Defined.

(** ** The errors of the writer *)

(** X20.  [DatumWriter.write] fails in two ways only: with
    [AvroTypeException] for the schema and the datum when the datum does
    not validate, nothing being written, or with
    [AvroException("Unknown type: ...")] naming the type of the whole
    schema when the datum validates and [write_data] fails, whatever the
    failure was and wherever in the datum. *)
Theorem datum_writer_errors (py : Builtins) (S : schema) (datum : pyval)
  (e : exn) (out : list byte) :
  DatumWriter.write py S datum = (Raise e, out) ->
  (validate S datum = false
   /\ e = AvroTypeException S datum /\ out = [])
  \/ (validate S datum = true
      /\ e = AvroException (msg_unknown_type (schema_type S))
      /\ write_data py S datum = (Raise e, out)).
Proof.
  unfold DatumWriter.write. destruct (validate S datum); simpl negb; cbv iota.
  - intros Hw. right. split; [reflexivity |].
    pose proof Hw as Hw'. rewrite write_data_unfold in Hw'.
    unfold unknown_type_on_exception in Hw'.
    destruct (datum_to_encoder py (write_data py) S datum) as [[[] | e' |] o];
      try discriminate.
    injection Hw' as <- <-. split; [reflexivity | exact Hw].
  - unfold enc_raise. intros Hw. injection Hw as <- <-.
    left. repeat split.
Qed.

Lemma datum_writer_errors_witness :
  (validate Examples.string_schema (PStr (String "255"%char EmptyString))
   = false
   /\ AvroException (msg_unknown_type tag_string)
      = AvroTypeException Examples.string_schema
          (PStr (String "255"%char EmptyString))
   /\ @nil byte = [])
  \/ (validate Examples.string_schema (PStr (String "255"%char EmptyString))
      = true
      /\ AvroException (msg_unknown_type tag_string)
         = AvroException (msg_unknown_type
                            (schema_type Examples.string_schema))
      /\ write_data Reference.builtins Examples.string_schema
           (PStr (String "255"%char EmptyString))
         = (Raise (AvroException (msg_unknown_type tag_string)), [])).
Proof.
  apply (datum_writer_errors Reference.builtins Examples.string_schema
           (PStr (String "255"%char EmptyString))
           (AvroException (msg_unknown_type tag_string)) []).
  reflexivity.
Defined.

(** ** The fields of a resolved record *)

Lemma dict_set_keeps {V} (d : list (string * V)) (k k' : string) (v : V) :
  In k' (map fst d) -> In k' (map fst (dict_set d k v)).
Proof.
  intros H. apply dict_set_keys. right. exact H.
Qed.

(** [read_data] raises no [KeyError]: the one of the dispatch on the
    type becomes an [AvroException]. *)
Lemma resolve_readers_union_no_key_error
  (read : schema -> schema -> Dec pyval) (W R : schema)
  (schemas : list schema) :
  (forall w r st, fst (read w r st) <> Raise (PyError KeyError)) ->
  forall st,
    fst (resolve_readers_union read W R schemas st)
    <> Raise (PyError KeyError).
Proof.
  intros Hread. induction schemas as [| s schemas IH]; intros st; simpl.
  - discriminate.
  - unfold bind, match_schema_dec.
    destruct (match_schema W s (cache st)) as [[] c']; [apply Hread | apply IH].
Qed.

Lemma read_data_no_key_error (py : Builtins) (fuel : nat) :
  forall W R st, fst (read_data py fuel W R st) <> Raise (PyError KeyError).
Proof.
  induction fuel as [| fuel IH]; intros W R st; [discriminate |].
  rewrite read_data_unfold. unfold read_data_body.
  set (dispatch :=
         try_except
           (type_to_decoder py (read_data py fuel) (skip_data fuel) W R)
           (fun e => match e with KeyError => true | _ => false end)
           (raise (AvroException
                     (msg_cannot_read_unknown_schema_type (schema_type W))))).
  assert (Hd : forall st, fst (dispatch st) <> Raise (PyError KeyError)).
  { intros st0. unfold dispatch, try_except.
    destruct (type_to_decoder py (read_data py fuel) (skip_data fuel) W R st0)
      as [[v | [| | | | []] |] st1]; discriminate. }
  cbv zeta. fold dispatch.
  destruct (negb (same_object R W)); [| apply Hd].
  unfold bind at 1, match_schema_dec.
  destruct (match_schema W R (cache st)) as [[] c']; simpl negb; cbv iota.
  - destruct (negb (is_union_tag (schema_type W))
              && is_union_tag (schema_type R)); [| apply Hd].
    unfold bind, lift.
    destruct (schemas_of R) as [schemas | e |] eqn:E.
    + apply resolve_readers_union_no_key_error. exact IH.
    + destruct R; simpl in E; try discriminate;
        injection E as <-; discriminate.
    + discriminate.
  - discriminate.
Qed.

(** The first loop of [read_record] binds every name that is a field of
    both schemas. *)
Lemma read_writers_fields_binds (read : schema -> schema -> Dec pyval)
  (skip : schema -> Dec unit) (readers_fields_dict : list (string * field))
  (fields : list field) :
  (forall w r st, fst (read w r st) <> Raise (PyError KeyError)) ->
  forall record st record' st',
    read_writers_fields read skip readers_fields_dict fields record st
    = (Ok record', st') ->
    (forall k, In k (map fst record) -> In k (map fst record'))
    /\ forall f, In f fields ->
                 has_key readers_fields_dict (name f) = true ->
                 In (name f) (map fst record').
Proof.
  intros Hread.
  induction fields as [| f fields IH]; intros record st record' st' Hrun.
  - simpl in Hrun. injection Hrun as <- <-. split; [tauto | contradiction].
  - simpl in Hrun. unfold bind at 1 in Hrun.
    destruct (try_except _ _ _ st) as [[record1 | e |] st1] eqn:Hstep;
      try discriminate.
    assert (Hrec1 : (forall k, In k (map fst record) ->
                               In k (map fst record1))
                    /\ (has_key readers_fields_dict (name f) = true ->
                        In (name f) (map fst record1))).
    { unfold try_except, bind, lift, ret in Hstep.
      unfold has_key.
      destruct (dict_lookup readers_fields_dict (name f)) as [rf |] eqn:Hl.
      - pose proof (Hread (type f) (type rf) st) as Hno.
        destruct (read (type f) (type rf) st) as [[v | e |] st2] eqn:Hv.
        + injection Hstep as <- <-. split.
          * intros k Hk. apply dict_set_keeps. exact Hk.
          * intros _. apply dict_set_keys. left. reflexivity.
        + destruct e as [| | | | []]; try discriminate.
          exfalso. apply Hno. reflexivity.
        + discriminate.
      - destruct (skip (type f) st) as [[[] | e' |] st3]; try discriminate.
        injection Hstep as <- <-. split; [tauto | discriminate]. }
    destruct Hrec1 as [Hkeep1 Hbind1].
    destruct (IH record1 st1 record' st' Hrun) as [Hkeep Hbind].
    split.
    + intros k Hk. apply Hkeep, Hkeep1. exact Hk.
    + intros g [<- | Hg] Hkey.
      * apply Hkeep, Hbind1. exact Hkey.
      * apply Hbind; assumption.
Qed.

(** The second loop binds the names of the reader's fields that the
    writer does not have, and no other names. *)
Lemma fill_in_defaults_keys (py : Builtins) (W R : schema)
  (writers_fields_dict : list (string * field))
  (items : list (string * field)) :
  forall record st record' st',
    fill_in_defaults py W R writers_fields_dict items record st
    = (Ok record', st') ->
    NoDup (map fst record) ->
    NoDup (map fst record')
    /\ forall k,
         In k (map fst record')
         <-> In k (map fst record)
             \/ exists k0 f, In (k0, f) items
                             /\ has_key writers_fields_dict k0 = false
                             /\ name f = k.
Proof.
  induction items as [| [k0 f] items IH];
    intros record st record' st' Hrun Hnd.
  - simpl in Hrun. injection Hrun as <- <-. split; [exact Hnd |].
    intros k. split; [tauto |]. intros [H | [k0 [f [[] _]]]]. exact H.
  - simpl in Hrun. unfold bind at 1 in Hrun.
    destruct (has_key writers_fields_dict k0) eqn:Hkey; simpl negb in Hrun;
      cbv iota in Hrun.
    + unfold ret in Hrun.
      destruct (IH _ _ _ _ Hrun Hnd) as [Hnd' Hkeys].
      split; [exact Hnd' |]. intros k. rewrite Hkeys. split.
      * intros [H | [k1 [g [Hin [Hk1 Hg]]]]]; [left; exact H |].
        right. exists k1, g. repeat split; try assumption. right. exact Hin.
      * intros [H | [k1 [g [[Heq | Hin] [Hk1 Hg]]]]]; [left; exact H | |].
        -- injection Heq as <- <-. congruence.
        -- right. exists k1, g. repeat split; assumption.
    + destruct (has_default f); [| discriminate].
      unfold bind, lift, ret in Hrun.
      destruct (read_default_value py (type f) (default f)) as [v | e |];
        try discriminate.
      fold (@bind (list (string * pyval)) (list (string * pyval))) in Hrun.
      destruct (IH _ _ _ _ Hrun (dict_set_NoDup record (name f) v Hnd))
        as [Hnd' Hkeys].
      split; [exact Hnd' |]. intros k. rewrite Hkeys, dict_set_keys. split.
      * intros [[-> | H] | [k1 [g [Hin [Hk1 Hg]]]]].
        -- right. exists k0, f. repeat split; [left; reflexivity | exact Hkey].
        -- left. exact H.
        -- right. exists k1, g. repeat split; try assumption. right. exact Hin.
      * intros [H | [k1 [g [[Heq | Hin] [Hk1 Hg]]]]].
        -- left. right. exact H.
        -- injection Heq as <- <-. left. left. symmetry. exact Hg.
        -- right. exists k1, g. repeat split; assumption.
Qed.

(** X21.  A record that is read under a reader's schema other than the
    writer's has exactly the fields of the reader's schema: when
    [read_record] returns, its result is a dictionary whose keys are the
    names of the reader's fields, each once; the fields that only the
    writer has are not in it. *)
Theorem resolved_record_fields (py : Builtins) (fuel : nat)
  (ow or : nat) (tw tr : record_type) (nw nr : string)
  (wfields rfields : list field) (st st' : state) (v : pyval) :
  let W := RecordSchema ow tw nw wfields in
  let R := RecordSchema or tr nr rfields in
  same_object R W = false ->
  read_record py (read_data py fuel) (skip_data fuel) W R st = (Ok v, st') ->
  exists record,
    v = record_datum record
    /\ NoDup (map fst record)
    /\ forall k, In k (map fst record) <-> In k (map name rfields).
Proof.
  intros W R Hdiff Hrun. unfold read_record in Hrun.
  rewrite Hdiff in Hrun. simpl fields_of in Hrun.
  unfold bind at 1 2, lift in Hrun.
  unfold bind at 1 in Hrun.
  destruct (read_writers_fields (read_data py fuel) (skip_data fuel)
              (fields_dict rfields) wfields [] st)
    as [[record1 | e |] st1] eqn:Hfirst; try discriminate.
  destruct (read_writers_fields_keys _ _ _ _ _ _ _ _ Hfirst (NoDup_nil _))
    as [Hnd1 Hsub1].
  destruct (read_writers_fields_binds _ _ _ _ (read_data_no_key_error py fuel)
              _ _ _ _ Hfirst) as [_ Hbind1].
  destruct (fields_dict_spec rfields) as [Hndr [Hnamed Hkeysr]].
  destruct (fields_dict_spec wfields) as [_ [_ Hkeysw]].
  unfold bind in Hrun.
  destruct (List.length record1 <? List.length (fields_dict rfields))%nat
    eqn:Hroom.
  - destruct (fill_in_defaults py W R (fields_dict wfields)
                (fields_dict rfields) record1 st1)
      as [[record2 | e |] st2] eqn:Hsecond; try discriminate.
    unfold ret in Hrun. injection Hrun as <- <-.
    destruct (fill_in_defaults_keys _ _ _ _ _ _ _ _ _ Hsecond Hnd1)
      as [Hnd2 Hkeys2].
    exists record2. split; [reflexivity |]. split; [exact Hnd2 |].
    intros k. rewrite Hkeys2. split.
    + intros [Hk | [k0 [f [Hin [_ Hf]]]]].
      * destruct (Hsub1 k Hk) as [[] | [_ Hkey]].
        apply Hkeysr. apply has_key_In. exact Hkey.
      * apply Hkeysr. rewrite Forall_forall in Hnamed.
        pose proof (Hnamed _ Hin) as Hname. simpl in Hname.
        rewrite <- Hf, <- Hname.
        apply in_map_iff. exists (k0, f). split; [reflexivity | exact Hin].
    + intros Hk. apply Hkeysr in Hk.
      destruct (has_key (fields_dict wfields) k) eqn:Hw.
      * left. apply has_key_In, Hkeysw, in_map_iff in Hw.
        destruct Hw as [f [<- Hf]].
        apply Hbind1; [exact Hf |]. apply has_key_In. exact Hk.
      * right. apply in_map_iff in Hk. destruct Hk as [[k0 f] [<- Hin]].
        exists k0, f. repeat split; try assumption.
        rewrite Forall_forall in Hnamed.
        symmetry. exact (Hnamed _ Hin).
  - unfold ret in Hrun. injection Hrun as <- <-.
    exists record1. split; [reflexivity |]. split; [exact Hnd1 |].
    assert (Hincl : incl (map fst record1) (map fst (fields_dict rfields))).
    { intros k Hk. destruct (Hsub1 k Hk) as [[] | [_ Hkey]].
      apply has_key_In. exact Hkey. }
    apply Nat.ltb_ge in Hroom.
    assert (Hback : incl (map fst (fields_dict rfields)) (map fst record1)).
    { apply NoDup_length_incl; [exact Hnd1 | | exact Hincl].
      rewrite !length_map. exact Hroom. }
    intros k. rewrite <- Hkeysr. split; [apply Hincl | apply Hback].
Qed.

Lemma resolved_record_fields_witness :
  exists record,
    PDict [(PUnicode "a", PInt 7); (PUnicode "b", PUnicode "x")]
    = record_datum record
    /\ NoDup (map fst record)
    /\ forall k, In k (map fst record) <-> In k ["a"; "b"]%string.
Proof.
  eapply (resolved_record_fields Reference.builtins 5 9 12 t_record t_record
            "R" "R"
            [Field "a"%string Examples.int_schema false PNone]
            [Field "a"%string (PrimitiveSchema 10 t_int) false PNone;
             Field "b"%string (PrimitiveSchema 11 t_string) true
               (PUnicode "x")]
            (decoding [] [Byte.x0e] [])).
  - reflexivity.
  - vm_compute. reflexivity.
Defined.

(** ** Blocks with a size *)

(** One block with a negative count and a size, then the block of count
    zero: the size is read and not used. *)
Lemma reads_back_sized_block {A X} (item : Dec A) (f : X -> A) (l : list X)
  (outs : list (list byte)) (size : Z) (size_bytes : list byte)
  (turns : nat) :
  Forall2 (fun x out => reads_back item out (f x)) l outs ->
  l <> [] ->
  - 2 ^ 63 <= size < 2 ^ 63 ->
  BinaryEncoder.write_long size = (Ok tt, size_bytes) ->
  (1 <= turns)%nat ->
  reads_back (read_blocks (S turns) item (- Z.of_nat (List.length l)))
    (size_bytes ++ List.concat outs ++ [Byte.x00]) (map f l).
Proof.
  intros Hitems Hne Hsize Hbytes Hturns.
  destruct turns as [| turns]; [lia |].
  assert (Hpos : 0 < Z.of_nat (List.length l)).
  { destruct l; [contradiction | simpl; lia]. }
  set (n := Z.of_nat (List.length l)) in *.
  change (read_blocks (S (S turns)) item (- n))
    with (if negb (- n =? 0)
          then
            bind (if - n <? 0
                  then bind BinaryDecoder.read_long (fun _ => ret (- - n))
                  else ret (- n))
              (fun block_count =>
                 bind (repeat_dec (Z.to_nat block_count) item)
                   (fun block =>
                      bind BinaryDecoder.read_long
                        (fun block_count =>
                           bind (read_blocks (S turns) item block_count)
                             (fun rest => ret (block ++ rest)))))
          else ret []).
  destruct (Z.eqb_spec (- n) 0) as [H | _]; [lia |].
  destruct (Z.ltb_spec (- n) 0) as [_ | H]; [| lia].
  simpl negb. cbv iota.
  apply reads_back_bind with (a := n).
  - rewrite <- (app_nil_r size_bytes).
    apply reads_back_bind with (a := size).
    + apply reads_back_long; assumption.
    + rewrite Z.opp_involutive. apply reads_back_ret.
  - unfold n. rewrite Nat2Z.id.
    apply reads_back_bind with (a := map f l);
      [apply reads_back_repeat; exact Hitems |].
    rewrite <- (app_nil_r [Byte.x00]).
    apply reads_back_bind with (a := 0).
    + apply reads_back_long; [lia | reflexivity].
    + change (read_blocks (S turns) item 0) with (@ret (list A) []).
      apply (reads_back_bind (ret []) (fun rest => ret (map f l ++ rest))
               [] [] [] (map f l)); [apply reads_back_ret |].
      rewrite app_nil_r. apply reads_back_ret.
Qed.

(** X22.  [read_array] reads a block that is written with a negative
    count and a size, a form that [write_array] never writes: the count
    [-n], any size, the [n] items and the byte 0 are read as the list of
    the [n] items, whatever the size says. *)
Theorem read_array_sized_block (py : Builtins) (fuel : nat) (oid : nat)
  (items : schema) (l : list pyval) (outs : list (list byte))
  (size : Z) (count size_bytes consumed rest : list byte)
  (c : match_cache) :
  well_formed items = true ->
  Forall (fun item => validate items item = true
                      /\ python_object py item = true) l ->
  Forall2 (fun item out => write_data py items item = (Ok tt, out)) l outs ->
  l <> [] ->
  Z.of_nat (List.length l) <= LONG_MAX_VALUE ->
  LONG_MIN_VALUE <= size <= LONG_MAX_VALUE ->
  BinaryEncoder.write_long (- Z.of_nat (List.length l)) = (Ok tt, count) ->
  BinaryEncoder.write_long size = (Ok tt, size_bytes) ->
  (schema_depth items <= fuel)%nat ->
  cache_state c ->
  exists c',
    read_data py (S fuel) (ArraySchema oid items) (ArraySchema oid items)
      (decoding consumed
         ((count ++ size_bytes ++ List.concat outs ++ [Byte.x00]) ++ rest) c)
    = (Ok (PList (map (normalize py items) l)),
       decoding
         (consumed ++ count ++ size_bytes ++ List.concat outs ++ [Byte.x00])
         rest c').
Proof.
  intros Hwf Hall Houts Hne Hlen Hsize Hcount Hbytes Hfuel Hc.
  rewrite long_max_value in Hlen. apply long_range in Hsize.
  assert (Hread : reads_back
                    (read_data py (S fuel) (ArraySchema oid items)
                       (ArraySchema oid items))
                    (count ++ size_bytes ++ List.concat outs ++ [Byte.x00])
                    (PList (map (normalize py items) l))).
  { apply reads_back_same. unfold type_to_decoder, read_array.
    simpl items_of. apply reads_back_lift. apply reads_back_lift.
    apply reads_back_bind with (a := - Z.of_nat (List.length l)).
    - apply reads_back_long; [lia | exact Hcount].
    - apply reads_back_bytes_left. intros turns Hturns.
      rewrite <- (app_nil_r (size_bytes ++ List.concat outs ++ [Byte.x00])).
      apply reads_back_bind with (a := map (normalize py items) l);
        [| apply reads_back_ret].
      apply (reads_back_sized_block _ _ l outs size size_bytes turns);
        try assumption.
      + rewrite Forall_forall in Hall.
        apply (Forall2_impl_In _ _ _ _ Houts). intros item o Hin Hitem.
        destruct (Hall item Hin) as [Hvalid Hobj].
        apply round_trip_schema; assumption.
      + rewrite !length_app in Hturns. simpl in Hturns. lia. }
  destruct (Hread consumed rest c (cache_state_sound c Hc)) as [c' [Hr _]].
  exists c'. exact Hr.
Qed.

Lemma read_array_sized_block_witness :
  exists c',
    read_data Reference.builtins 2 Examples.array_of_int Examples.array_of_int
      (decoding []
         (([Byte.x03] ++ [Byte.x64] ++ List.concat [[Byte.x02]; [Byte.x04]]
             ++ [Byte.x00]) ++ []) [])
    = (Ok (PList (map (normalize Reference.builtins Examples.int_schema)
                    [PInt 1; PInt 2])),
       decoding
         ([] ++ [Byte.x03] ++ [Byte.x64]
             ++ List.concat [[Byte.x02]; [Byte.x04]] ++ [Byte.x00]) [] c').
Proof.
  apply (read_array_sized_block Reference.builtins 1 5 Examples.int_schema
           [PInt 1; PInt 2] [[Byte.x02]; [Byte.x04]] 50).
  - reflexivity.
  - repeat constructor.
  - repeat constructor.
  - discriminate.
  - vm_compute. discriminate.
  - vm_compute. split; discriminate.
  - reflexivity.
  - reflexivity.
  - simpl. lia.
  - apply cache_initial.
Defined.

(** X23.  [skip_array] and [skip_map] trust the size of a block with a
    negative count: after such a count they move over as many bytes as the
    size says, whatever these bytes are, and go on with the next count. *)
Theorem skip_sized_block (fuel : nat) (oid : nat) (inner : schema)
  (k : Z) (count size_bytes payload consumed rest : list byte)
  (c : match_cache) :
  LONG_MIN_VALUE <= k < 0 ->
  Z.of_nat (List.length payload) <= LONG_MAX_VALUE ->
  BinaryEncoder.write_long k = (Ok tt, count) ->
  BinaryEncoder.write_long (Z.of_nat (List.length payload))
  = (Ok tt, size_bytes) ->
  (3 <= fuel)%nat ->
  skip_data fuel (ArraySchema oid inner)
    (decoding consumed
       ((count ++ size_bytes ++ payload ++ [Byte.x00]) ++ rest) c)
  = (Ok tt,
     decoding (consumed ++ count ++ size_bytes ++ payload ++ [Byte.x00])
       rest c)
  /\ skip_data fuel (MapSchema oid inner)
       (decoding consumed
          ((count ++ size_bytes ++ payload ++ [Byte.x00]) ++ rest) c)
     = (Ok tt,
        decoding (consumed ++ count ++ size_bytes ++ payload ++ [Byte.x00])
          rest c).
Proof.
  intros Hk Hlen Hcount Hbytes Hfuel.
  rewrite long_max_value in Hlen.
  assert (Hk' : - 2 ^ 63 <= k < 2 ^ 63).
  { destruct Hk as [Hlow Hneg]. unfold LONG_MIN_VALUE in Hlow.
    rewrite Z.shiftl_1_l in Hlow. lia. }
  destruct fuel as [| [| [| fuel]]]; try lia.
  assert (Hloop : forall item,
             passes
               (bind BinaryDecoder.read_long
                  (fun block_count =>
                     skip_blocks (S (S fuel)) item block_count))
               (count ++ size_bytes ++ payload ++ [Byte.x00]) tt).
  { intros item. apply passes_bind with (a := k).
    - apply passes_read_long; assumption.
    - change (skip_blocks (S (S fuel)) item k)
        with (if negb (k =? 0)
              then
                bind (if k <? 0
                      then bind BinaryDecoder.read_long BinaryDecoder.skip
                      else bind (repeat_dec (Z.to_nat k) item)
                             (fun _ => ret tt))
                  (fun _ =>
                     bind BinaryDecoder.read_long
                       (fun block_count =>
                          skip_blocks (S fuel) item block_count))
              else ret tt).
      destruct (Z.eqb_spec k 0) as [H | _]; [lia |].
      destruct (Z.ltb_spec k 0) as [_ | H]; [| lia].
      simpl negb. cbv iota.
      rewrite app_assoc.
      apply passes_bind with (a := tt).
      + apply passes_bind with (a := Z.of_nat (List.length payload)).
        * apply passes_read_long; [lia | exact Hbytes].
        * apply passes_skip. reflexivity.
      + apply passes_bind_nil with (a := 0).
        * apply passes_read_long; [lia | reflexivity].
        * apply passes_ret. }
  split; rewrite skip_data_unfold; apply passes_try_except;
    unfold type_to_skipper, skip_array, skip_map.
  - simpl items_of. apply passes_lift. apply Hloop.
  - apply Hloop.
Qed.

Lemma skip_sized_block_witness :
  skip_data 3 Examples.array_of_int
    (decoding []
       (([Byte.x03] ++ [Byte.x04] ++ [Byte.xff; Byte.xff] ++ [Byte.x00])
          ++ []) [])
  = (Ok tt,
     decoding
       ([] ++ [Byte.x03] ++ [Byte.x04] ++ [Byte.xff; Byte.xff] ++ [Byte.x00])
       [] []).
Proof.
  apply (skip_sized_block 3 5 Examples.int_schema (-2)
           [Byte.x03] [Byte.x04] [Byte.xff; Byte.xff] [] [] []).
  - vm_compute. split; [discriminate | reflexivity].
  - vm_compute. discriminate.
  - reflexivity.
  - reflexivity.
  - lia.
Defined.

(** ** The entry points together *)

(** X24.  What [DatumWriter.write] accepts, [DatumReader.read] returns:
    for a well-formed schema, the bytes that [DatumWriter.write] writes
    for a datum are read by a [DatumReader] with the same writer's schema,
    with that schema as the reader's schema or with none, as the normal
    form of the datum, and to their end.  [DatumWriter.write] has
    validated the datum itself. *)
Theorem datum_writer_reader_round_trip (py : Builtins) (S : schema)
  (datum : pyval) (out : list byte) (fuel : nat)
  (consumed rest : list byte) (c : match_cache) :
  well_formed S = true ->
  python_object py datum = true ->
  DatumWriter.write py S datum = (Ok tt, out) ->
  (schema_depth S <= fuel)%nat ->
  cache_state c ->
  validate S datum = true
  /\ (exists c',
         DatumReader.read py fuel S None
           (decoding consumed (out ++ rest) c)
         = (Ok (normalize py S datum), decoding (consumed ++ out) rest c'))
  /\ DatumReader.read py fuel S (Some S) = DatumReader.read py fuel S None.
Proof.
  intros Hwf Hobj Hw Hfuel Hc.
  unfold DatumWriter.write in Hw.
  destruct (validate S datum) eqn:Hvalid; [| discriminate].
  simpl negb in Hw. cbv iota in Hw.
  split; [reflexivity |]. split; [| reflexivity].
  destruct (round_trip_schema py S Hwf datum out Hvalid Hobj Hw fuel Hfuel
              consumed rest c (cache_state_sound c Hc)) as [c' [Hr _]].
  exists c'. exact Hr.
Qed.

Lemma datum_writer_reader_round_trip_witness :
  validate Examples.array_of_int (PTuple [PInt 1; PBool true]) = true
  /\ (exists c',
         DatumReader.read Reference.builtins 2 Examples.array_of_int None
           (decoding []
              ([Byte.x04; Byte.x02; Byte.x02; Byte.x00] ++ []) [])
         = (Ok (normalize Reference.builtins Examples.array_of_int
                  (PTuple [PInt 1; PBool true])),
            decoding ([] ++ [Byte.x04; Byte.x02; Byte.x02; Byte.x00]) [] c'))
  /\ DatumReader.read Reference.builtins 2 Examples.array_of_int
       (Some Examples.array_of_int)
     = DatumReader.read Reference.builtins 2 Examples.array_of_int None.
Proof.
  apply (datum_writer_reader_round_trip Reference.builtins
           Examples.array_of_int (PTuple [PInt 1; PBool true])
           [Byte.x04; Byte.x02; Byte.x02; Byte.x00] 2 [] [] []).
  - reflexivity.
  - reflexivity.
  - reflexivity.
  - simpl. lia.
  - apply cache_initial.
Defined.

(** ** The matching rules as a relation *)

Lemma type_tag_eqb_sym (a b : type_tag) : type_tag_eqb a b = type_tag_eqb b a.
Proof.
  destruct a, b; reflexivity.
Qed.

Lemma is_union_tag_prim (t : prim_type) : is_union_tag (prim_tag t) = false.
Proof.
  destruct t; reflexivity.
Qed.

(** X25.  The matching rules are reflexive, and they are symmetric
    except for the promotions: when the types of two schemas are not a
    promotion in either direction, the writer's schema matches the
    reader's exactly when the reader's matches the writer's. *)
Theorem matching_symmetric_but_for_promotions (W R : schema) :
  __match_schema__ W W = true
  /\ (~ is_promotion (schema_type W) (schema_type R) ->
      ~ is_promotion (schema_type R) (schema_type W) ->
      __match_schema__ R W = __match_schema__ W R).
Proof.
  split; [apply match_schema_same_object |].
  intros HWR HRW. unfold __match_schema__.
  rewrite (type_tag_eqb_sym (schema_type R) (schema_type W)).
  rewrite (orb_comm (is_union_tag (schema_type R))).
  destruct (type_tag_eqb (schema_type W) (schema_type R)) eqn:Htag.
  - apply type_tag_eqb_eq in Htag.
    destruct W as [? tw | | | | | ? tw ? | ? tw ? ?],
             R as [? tr | | | | | ? tr ? | ? tr ? ?];
      try (destruct tw); try (destruct tr);
      simpl in Htag; try discriminate Htag; simpl;
      first [ reflexivity
            | apply String.eqb_sym
            | apply type_tag_eqb_sym
            | f_equal; [apply String.eqb_sym | apply Z.eqb_sym] ].
  - destruct (is_union_tag (schema_type W) || is_union_tag (schema_type R));
      [reflexivity |].
    destruct (existsb
                (fun p => type_tag_eqb (fst p) (schema_type R)
                          && type_tag_eqb (snd p) (schema_type W))
                __valid_schema_promotion__) eqn:E1.
    + apply is_promotion_iff in E1. contradiction.
    + destruct (existsb
                  (fun p => type_tag_eqb (fst p) (schema_type W)
                            && type_tag_eqb (snd p) (schema_type R))
                  __valid_schema_promotion__) eqn:E2; [| reflexivity].
      apply is_promotion_iff in E2. contradiction.
Qed.

Lemma matching_symmetric_but_for_promotions_witness :
  __match_schema__ Examples.enum_ac Examples.enum_abc
  = __match_schema__ Examples.enum_abc Examples.enum_ac.
Proof.
  apply (matching_symmetric_but_for_promotions
           Examples.enum_abc Examples.enum_ac).
  - unfold is_promotion. simpl. intuition discriminate.
  - unfold is_promotion. simpl. intuition discriminate.
Defined.

(** ** Defaults of records *)

Lemma dict_update_keys {V} (pairs : list (string * V)) :
  forall d : list (string * V),
    NoDup (map fst d) ->
    NoDup (map fst (dict_update d pairs))
    /\ forall k, In k (map fst (dict_update d pairs))
                 <-> In k (map fst d) \/ In k (map fst pairs).
Proof.
  unfold dict_update.
  induction pairs as [| [k0 v] pairs IH]; intros d Hnd; simpl.
  - split; [exact Hnd |]. intros k. tauto.
  - destruct (IH (dict_set d k0 v) (dict_set_NoDup d k0 v Hnd))
      as [Hnd' Hkeys].
    split; [exact Hnd' |]. intros k. rewrite Hkeys, dict_set_keys.
    intuition.
Qed.

Lemma omap_list_names {A} (g : A -> outcome (string * pyval))
  (key : A -> string) (l : list A) :
  (forall x p, g x = Ok p -> fst p = key x) ->
  forall pairs, omap_list g l = Ok pairs -> map fst pairs = map key l.
Proof.
  intros Hg. induction l as [| x l IH]; intros pairs H; simpl in H.
  - injection H as <-. reflexivity.
  - destruct (g x) as [p | e |] eqn:Hx; try discriminate. simpl in H.
    destruct (omap_list g l) as [ps | e |] eqn:Hl; try discriminate.
    simpl in H. injection H as <-. simpl.
    rewrite (Hg x p Hx), (IH ps eq_refl). reflexivity.
Qed.

(** X26.  [read_default_value] knows the type [record] and not the types
    [error] and [request]: for a schema of type [record] a default that it
    reads is a dictionary with exactly the names of the fields of the
    schema as keys, and for a schema of type [error] or [request] it
    raises [AvroException("Unknown type: ...")] whatever the default
    is. *)
Theorem default_of_record (py : Builtins) (oid : nat) (t : record_type)
  (fullname : string) (fields : list field) (default_value : pyval) :
  (t = t_record ->
   forall v,
     read_default_value py (RecordSchema oid t fullname fields) default_value
     = Ok v ->
     exists record,
       v = record_datum record
       /\ NoDup (map fst record)
       /\ forall k, In k (map fst record) <-> In k (map name fields))
  /\ (t <> t_record ->
      read_default_value py (RecordSchema oid t fullname fields) default_value
      = Raise (AvroException (msg_unknown_type (record_tag t)))).
Proof.
  split.
  - intros -> v Hv. simpl in Hv.
    match type of Hv with
    | obind (omap_list ?g fields) _ = _ =>
        destruct (omap_list g fields) as [pairs | e |] eqn:Hpairs;
          try discriminate;
          pose proof (omap_list_names g name fields) as Hnames
    end.
    simpl in Hv. injection Hv as <-.
    assert (Hn : map fst pairs = map name fields).
    { apply Hnames; [| exact Hpairs].
      intros f p Hp. destruct default_value; try discriminate Hp.
      destruct (read_default_value py (type f) _) as [x | e |];
        try discriminate Hp.
      simpl in Hp. injection Hp as <-. reflexivity. }
    exists (dict_update [] pairs).
    destruct (dict_update_keys pairs [] (NoDup_nil _)) as [Hnd Hkeys].
    split; [reflexivity |]. split; [exact Hnd |].
    intros k. rewrite Hkeys, Hn. simpl. tauto.
  - intros Ht. destruct t; [contradiction | reflexivity | reflexivity].
Qed.

(** ** Reading a record under another record schema *)

Lemma passes_reads_back {A} (m : Dec A) (out : list byte) (a : A) :
  passes m out a -> reads_back m out a.
Proof.
  intros Hm consumed rest c Hc. exists c. rewrite Hm.
  split; [reflexivity | exact Hc].
Qed.

Lemma reads_back_handler {A} (m h : Dec A) (E : py_error -> bool)
  (e : py_error) (out : list byte) (a : A) :
  (forall st, m st = (Raise (PyError e), st)) ->
  E e = true ->
  reads_back h out a -> reads_back (try_except m E h) out a.
Proof.
  intros Hm He Hh consumed rest c Hc. unfold try_except.
  rewrite Hm, He. apply Hh. exact Hc.
Qed.

(** The first loop of [read_record] on what [write_record] wrote, when
    the fields that both schemas have are of the same schema: the fields
    of the reader are read, the other ones are skipped. *)
Lemma read_writers_fields_written (py : Builtins) (fuel : nat)
  (readers_fields_dict : list (string * field)) (d : list (pyval * pyval))
  (fields : list field) (outs : list (list byte)) :
  Forall2 (fun f out =>
             write_data py (type f) (dict_get d (name f)) = (Ok tt, out))
    fields outs ->
  (forall f, In f fields ->
             well_formed (type f) = true
             /\ validate (type f) (dict_get d (name f)) = true
             /\ python_object py (dict_get d (name f)) = true
             /\ (schema_depth (type f) + 2 <= fuel)%nat
             /\ forall rf, dict_lookup readers_fields_dict (name f) = Some rf ->
                           type rf = type f) ->
  forall record,
    reads_back
      (read_writers_fields (read_data py fuel) (skip_data fuel)
         readers_fields_dict fields record)
      (List.concat outs)
      (fold_left
         (fun record f =>
            if has_key readers_fields_dict (name f)
            then dict_set record (name f)
                   (normalize py (type f) (dict_get d (name f)))
            else record)
         fields record).
Proof.
  induction 1 as [| f out fields outs Hf _ IH]; intros Hall record.
  - apply reads_back_ret.
  - destruct (Hall f (or_introl eq_refl))
      as [Hwf [Hvalid [Hobj [Hfuel Htype]]]].
    simpl read_writers_fields. simpl fold_left. simpl List.concat.
    apply reads_back_bind
      with (a := if has_key readers_fields_dict (name f)
                 then dict_set record (name f)
                        (normalize py (type f) (dict_get d (name f)))
                 else record).
    + unfold has_key.
      destruct (dict_lookup readers_fields_dict (name f)) as [rf |] eqn:Hl.
      * apply reads_back_try_except. apply reads_back_lift.
        rewrite (Htype rf eq_refl).
        rewrite <- (app_nil_r out).
        apply reads_back_bind
          with (a := normalize py (type f) (dict_get d (name f)));
          [| apply reads_back_ret].
        apply round_trip_schema; try assumption. lia.
      * apply (reads_back_handler _ _ _ KeyError);
          [intros st; reflexivity | reflexivity |].
        rewrite <- (app_nil_r out).
        apply reads_back_bind with (a := tt); [| apply reads_back_ret].
        apply passes_reads_back.
        apply (skip_passes_schema py (type f) Hwf (dict_get d (name f)));
          assumption.
    + apply IH. intros g Hg. apply Hall. right. exact Hg.
Qed.

Lemma find_append {A} (p : A -> bool) (l l' : list A) :
  find p (l ++ l')
  = match find p l with Some x => Some x | None => find p l' end.
Proof.
  induction l as [| a l IH]; simpl; [reflexivity |].
  destruct (p a); [reflexivity | exact IH].
Qed.

(** What the first loop has bound. *)
Lemma resolved_fields_lookup {V} (keep : string -> bool)
  (value : field -> V) (fields : list field) :
  forall (record : list (string * V)) (k : string),
    dict_lookup
      (fold_left
         (fun record f =>
            if keep (name f) then dict_set record (name f) (value f)
            else record)
         fields record) k
    = match find (fun f => String.eqb (name f) k) (rev fields) with
      | Some f => if keep k then Some (value f) else dict_lookup record k
      | None => dict_lookup record k
      end.
Proof.
  induction fields as [| f fields IH]; intros record k; simpl fold_left.
  - reflexivity.
  - rewrite IH. simpl rev. rewrite find_append.
    destruct (find (fun f0 => String.eqb (name f0) k) (rev fields))
      as [g |] eqn:Hg.
    + destruct (keep k) eqn:Hk; [reflexivity |].
      destruct (keep (name f)) eqn:Hkf; [| reflexivity].
      apply dict_lookup_set_other. intros E. congruence.
    + simpl find. destruct (String.eqb_spec (name f) k) as [E | E].
      * subst k. destruct (keep (name f)); [| reflexivity].
        apply dict_lookup_set_same.
      * destruct (keep (name f)); [| reflexivity].
        apply dict_lookup_set_other. exact E.
Qed.

Lemma distinct_names_find (fields : list field) (f : field) :
  distinct_names (map name fields) = true ->
  In f fields ->
  find (fun g => String.eqb (name g) (name f)) (rev fields) = Some f.
Proof.
  induction fields as [| g fields IH]; intros Hd Hin; [contradiction |].
  simpl in Hd. apply andb_true_iff in Hd. destruct Hd as [Hfresh Hd].
  apply negb_true_iff in Hfresh.
  simpl rev. rewrite find_append.
  destruct Hin as [-> | Hin].
  - destruct (find (fun g => String.eqb (name g) (name f)) (rev fields))
      as [h |] eqn:Hh.
    + apply find_some in Hh. destruct Hh as [Hh_in Hh_eq].
      apply String.eqb_eq in Hh_eq.
      assert (existsb (String.eqb (name f)) (map name fields) = true).
      { apply existsb_exists. exists (name h). split.
        - apply in_map. apply in_rev. exact Hh_in.
        - rewrite Hh_eq. apply String.eqb_refl. }
      congruence.
    + simpl. rewrite String.eqb_refl. reflexivity.
  - rewrite (IH Hd Hin). reflexivity.
Qed.

(** The second loop leaves the names that the writer has as they are. *)
Lemma fill_in_defaults_shared (py : Builtins) (W R : schema)
  (writers_fields_dict : list (string * field))
  (items : list (string * field)) :
  Forall (fun kv => fst kv = name (snd kv)) items ->
  forall record st record' st',
    fill_in_defaults py W R writers_fields_dict items record st
    = (Ok record', st') ->
    forall k, has_key writers_fields_dict k = true ->
              dict_lookup record' k = dict_lookup record k.
Proof.
  induction 1 as [| [k0 f] items Hname _ IH];
    intros record st record' st' Hrun k Hk.
  - simpl in Hrun. injection Hrun as <- <-. reflexivity.
  - simpl in Hname. subst k0.
    simpl in Hrun. unfold bind at 1 in Hrun.
    destruct (has_key writers_fields_dict (name f)) eqn:Hkey;
      simpl negb in Hrun; cbv iota in Hrun.
    + unfold ret in Hrun. apply (IH _ _ _ _ Hrun k Hk).
    + destruct (has_default f); [| discriminate].
      unfold bind, lift, ret in Hrun.
      destruct (read_default_value py (type f) (default f)) as [v | e |];
        try discriminate.
      fold (@bind (list (string * pyval)) (list (string * pyval))) in Hrun.
      rewrite (IH _ _ _ _ Hrun k Hk).
      apply dict_lookup_set_other. intros E. congruence.
Qed.

Lemma distinct_names_NoDup (names : list string) :
  distinct_names names = true -> NoDup names.
Proof.
  induction names as [| n names IH]; simpl; intros H; constructor.
  - apply andb_true_iff in H. destruct H as [H _].
    apply negb_true_iff in H. intros Hin.
    assert (existsb (String.eqb n) names = true).
    { apply existsb_exists. exists n. split; [exact Hin |].
      apply String.eqb_refl. }
    congruence.
  - apply IH. apply andb_true_iff in H. tauto.
Qed.

(** With distinct names every field is found under its name. *)
Lemma fields_dict_lookup (fields : list field) (f : field) :
  distinct_names (map name fields) = true ->
  In f fields ->
  dict_lookup (fields_dict fields) (name f) = Some f.
Proof.
  intros Hd Hin.
  pose proof (resolved_fields_lookup (fun _ => true) (fun g : field => g)
                fields [] (name f)) as H.
  rewrite (distinct_names_find fields f Hd Hin) in H.
  exact H.
Qed.

Lemma dict_lookup_In {V} (d : list (string * V)) (k : string) (v : V) :
  dict_lookup d k = Some v -> In (k, v) d.
Proof.
  unfold dict_lookup. destruct (find _ d) as [[k' v'] |] eqn:E; [| discriminate].
  intros H. injection H as <-. apply find_some in E.
  destruct E as [Hin Heq]. simpl in Heq. apply String.eqb_eq in Heq.
  subst k'. exact Hin.
Qed.

(** Reading under another schema that matches and is not a union goes to
    the decoder of the writer's type. *)
Lemma read_data_matched (py : Builtins) (fuel : nat) (W R : schema)
  (st st1 : state) :
  same_object R W = false ->
  is_union_tag (schema_type R) = false ->
  match_schema_dec W R st = (Ok true, st1) ->
  read_data py (S fuel) W R st
  = try_except
      (type_to_decoder py (read_data py fuel) (skip_data fuel) W R)
      (fun e => match e with KeyError => true | _ => false end)
      (raise (AvroException
                (msg_cannot_read_unknown_schema_type (schema_type W))))
      st1.
Proof.
  intros Hdiff HR Hm.
  rewrite read_data_unfold. unfold read_data_body.
  rewrite Hdiff. cbv zeta. change (negb false) with true. cbv iota.
  unfold bind at 1. rewrite Hm.
  change (negb true) with false. cbv iota.
  rewrite HR, andb_false_r. reflexivity.
Qed.

Lemma read_record_resolving (py : Builtins)
  (read : schema -> schema -> Dec pyval) (skip : schema -> Dec unit)
  (ow or : nat) (tw tr : record_type) (nw nr : string)
  (wfields rfields : list field) (st : state) :
  let W := RecordSchema ow tw nw wfields in
  let R := RecordSchema or tr nr rfields in
  same_object R W = false ->
  read_record py read skip W R st
  = bind (read_writers_fields read skip (fields_dict rfields) wfields [])
      (fun record =>
         bind (if (List.length record
                   <? List.length (fields_dict rfields))%nat
               then fill_in_defaults py W R (fields_dict wfields)
                      (fields_dict rfields) record
               else ret record)
           (fun record => ret (record_datum record))) st.
Proof.
  intros W R Hdiff. unfold read_record. rewrite Hdiff. reflexivity.
Qed.

(** X27.  Fields can be added and removed between the writer's and the
    reader's record schema.  For two record schemas of the same type and
    name whose common fields have the same schemas, what [write_data]
    wrote for a valid datum under the writer's schema is read by
    [read_data] under the reader's schema, to its end, as a dictionary
    that binds every field of the reader: a field that the writer has to
    the normal form of the writer's value, any other field to its default
    as [read_default_value] reads it; the values of the fields that only
    the writer has are skipped. *)
Theorem record_projection (py : Builtins) (fuel : nat) (ow or : nat)
  (t : record_type) (n : string) (wfields rfields : list field)
  (d0 : list (pyval * pyval)) (out consumed rest : list byte)
  (c : match_cache) :
  let W := RecordSchema ow t n wfields in
  let R := RecordSchema or t n rfields in
  same_object R W = false ->
  well_formed W = true ->
  distinct_names (map name rfields) = true ->
  validate W (PDict d0) = true ->
  python_object py (PDict d0) = true ->
  write_data py W (PDict d0) = (Ok tt, out) ->
  (forall f g, In f wfields -> In g rfields -> name f = name g ->
               type g = type f) ->
  (forall g, In g rfields -> ~ In (name g) (map name wfields) ->
             has_default g = true
             /\ exists v, read_default_value py (type g) (default g) = Ok v) ->
  (schema_depth W + 1 <= fuel)%nat ->
  cache_state c ->
  exists d c',
    read_data py (S fuel) W R (decoding consumed (out ++ rest) c)
    = (Ok (PDict d), decoding (consumed ++ out) rest c')
    /\ forall g, In g rfields ->
         (In (name g) (map name wfields) ->
          dict_get d (name g) = normalize py (type g) (dict_get d0 (name g)))
         /\ (~ In (name g) (map name wfields) ->
             read_default_value py (type g) (default g)
             = Ok (dict_get d (name g))).
Proof.
  intros W R Hdiff Hwf Hdist_r Hvalid Hobj Hw Hshared Hdefault Hfuel Hc.
  (* the writer's side *)
  apply write_data_inv in Hw. simpl datum_to_encoder in Hw.
  unfold write_record in Hw. cbv beta iota in Hw.
  apply enc_for_each_inv in Hw. destruct Hw as [outs [Houts ->]].
  simpl in Hwf. apply andb_true_iff in Hwf. destruct Hwf as [Hwf_all Hdist_w].
  rewrite forallb_forall in Hwf_all.
  simpl in Hvalid. rewrite forallb_forall in Hvalid.
  simpl schema_depth in Hfuel.
  (* the dictionaries of the fields *)
  destruct (fields_dict_spec rfields) as [Hnd_r [Hnamed_r Hkeys_r]].
  destruct (fields_dict_spec wfields) as [_ [_ Hkeys_w]].
  pose proof (fields_dict_In rfields) as Hin_r.
  rewrite Forall_forall in Hnamed_r, Hin_r.
  assert (Htype : forall f, In f wfields ->
                  forall rf, dict_lookup (fields_dict rfields) (name f)
                             = Some rf -> type rf = type f).
  { intros f Hf rf Hl. apply dict_lookup_In in Hl.
    pose proof (Hnamed_r _ Hl) as Hname. pose proof (Hin_r _ Hl) as Hrf.
    simpl in Hname, Hrf. apply (Hshared f rf Hf Hrf). exact Hname. }
  (* the first loop *)
  pose proof (read_writers_fields_written py fuel (fields_dict rfields) d0
                wfields outs Houts) as Hloop.
  assert (Hall : forall f, In f wfields ->
             well_formed (type f) = true
             /\ validate (type f) (dict_get d0 (name f)) = true
             /\ python_object py (dict_get d0 (name f)) = true
             /\ (schema_depth (type f) + 2 <= fuel)%nat
             /\ forall rf, dict_lookup (fields_dict rfields) (name f)
                           = Some rf -> type rf = type f).
  { intros f Hf. split; [apply Hwf_all; exact Hf |].
    split; [apply Hvalid; exact Hf |].
    split; [apply python_object_dict_get; exact Hobj |].
    split; [| apply Htype; exact Hf].
    pose proof (fold_max_bound (fun f : field => schema_depth (type f))
                  wfields f Hf) as Hmax.
    cbv beta in Hmax. unfold field in Hmax. lia. }
  specialize (Hloop Hall []).
  set (record1 :=
         fold_left
           (fun record f =>
              if has_key (fields_dict rfields) (name f)
              then dict_set record (name f)
                     (normalize py (type f) (dict_get d0 (name f)))
              else record) wfields []) in Hloop.
  (* matching *)
  assert (Hmatch : uncached_match W R = true).
  { rewrite uncached_match_rules. unfold __match_schema__, W, R. simpl.
    destruct t; simpl; try apply String.eqb_refl; reflexivity. }
  destruct (match_schema_dec_sound W R consumed (List.concat outs ++ rest) c
              (cache_state_sound c Hc)) as [c1 [Hm Hc1]].
  destruct (Hloop consumed rest c1 Hc1) as [c2 [Hfirst Hc2]].
  (* what the first loop has bound *)
  assert (Hbound : forall g f, In g rfields -> In f wfields ->
             name f = name g ->
             dict_lookup record1 (name g)
             = Some (normalize py (type g) (dict_get d0 (name g)))).
  { intros g f Hg Hf Hname. unfold record1.
    rewrite (resolved_fields_lookup
               (fun k => has_key (fields_dict rfields) k)
               (fun f : field => normalize py (type f) (dict_get d0 (name f)))
               wfields [] (name g)).
    rewrite <- Hname.
    rewrite (distinct_names_find wfields f Hdist_w Hf).
    assert (Hkey : has_key (fields_dict rfields) (name f) = true).
    { apply has_key_In, Hkeys_r. rewrite Hname.
      exact (in_map (@name schema) rfields g Hg). }
    rewrite Hkey. rewrite (Hshared f g Hf Hg Hname). reflexivity. }
  assert (Hwriter : forall g : field, In (name g) (map name wfields) ->
             has_key (fields_dict wfields) (name g) = true).
  { intros g Hg. apply has_key_In, Hkeys_w. exact Hg. }
  assert (Hreader : forall g : field, ~ In (name g) (map name wfields) ->
             has_key (fields_dict wfields) (name g) = false).
  { intros g Hg. apply not_true_is_false. intros H. apply Hg.
    apply Hkeys_w, has_key_In. exact H. }
  (* the run of [read_data] up to the second loop *)
  assert (HR : is_union_tag (schema_type R) = false)
    by (unfold R; destruct t; reflexivity).
  rewrite Hmatch in Hm.
  rewrite (read_data_matched py fuel W R _ _ Hdiff HR Hm).
  unfold try_except.
  change (type_to_decoder py (read_data py fuel) (skip_data fuel) W R)
    with (read_record py (read_data py fuel) (skip_data fuel) W R).
  rewrite (read_record_resolving py _ _ ow or t t n n wfields rfields _ Hdiff).
  fold W. fold R. unfold bind at 1. rewrite Hfirst. fold record1.
  destruct (List.length record1 <? List.length (fields_dict rfields))%nat
    eqn:Hroom.
  - (* defaults are filled in *)
    destruct (fill_in_defaults_ok py W R (fields_dict wfields)
                (fields_dict rfields) record1
                (decoding (consumed ++ List.concat outs) rest c2))
      as [record2 Hsecond].
    { intros k g Hin Hkey.
      pose proof (Hnamed_r _ Hin) as Hname. pose proof (Hin_r _ Hin) as Hg.
      simpl in Hname, Hg. subst k. apply (Hdefault g Hg).
      intros Hw. rewrite (Hwriter g Hw) in Hkey. discriminate. }
    unfold bind. rewrite Hsecond. unfold ret.
    exists (map (fun kv => (PUnicode (fst kv), snd kv)) record2), c2.
    split; [reflexivity |].
    intros g Hg. rewrite dict_get_record_datum. split.
    + intros Hw. destruct (proj1 (in_map_iff _ _ _) Hw) as [f [Hname Hf]].
      rewrite (fill_in_defaults_shared py W R (fields_dict wfields)
                 (fields_dict rfields)
                 (proj2 (Forall_forall _ _) Hnamed_r)
                 _ _ _ _ Hsecond (name g) (Hwriter g Hw)).
      rewrite (Hbound g f Hg Hf Hname). reflexivity.
    + intros Hr.
      assert (Hnd_items : NoDup (map (fun kv : string * field => name (snd kv))
                                   (fields_dict rfields))).
      { assert (Hsame : map (fun kv : string * field => name (snd kv))
                          (fields_dict rfields)
                        = map fst (fields_dict rfields)).
        { apply map_ext_in. intros kv Hkv. symmetry. apply Hnamed_r. exact Hkv. }
        rewrite Hsame. exact Hnd_r. }
      destruct (fill_in_defaults_binds py W R (fields_dict wfields)
                  (fields_dict rfields) _ _ _ _ Hsecond Hnd_items
                  (name g) g
                  (dict_lookup_In _ _ _
                     (fields_dict_lookup rfields g Hdist_r Hg))
                  (Hreader g Hr)) as [v [Hv Hl]].
      rewrite Hl. exact Hv.
  - (* nothing to fill in: the writer has every field of the reader *)
    unfold bind, ret.
    exists (map (fun kv => (PUnicode (fst kv), snd kv)) record1), c2.
    split; [reflexivity |].
    intros g Hg. rewrite dict_get_record_datum. split.
    + intros Hw. destruct (proj1 (in_map_iff _ _ _) Hw) as [f [Hname Hf]].
      rewrite (Hbound g f Hg Hf Hname). reflexivity.
    + intros Hr. exfalso. apply Hr.
      destruct (read_writers_fields_keys _ _ _ _ _ _ _ _ Hfirst (NoDup_nil _))
        as [Hnd1 Hsub1].
      fold record1 in Hnd1, Hsub1.
      assert (Hincl : incl (map fst record1) (map fst (fields_dict rfields))).
      { intros k Hk. destruct (Hsub1 k Hk) as [[] | [_ Hkey]].
        apply has_key_In. exact Hkey. }
      apply Nat.ltb_ge in Hroom.
      assert (Hback : incl (map fst (fields_dict rfields)) (map fst record1)).
      { apply NoDup_length_incl; [exact Hnd1 | | exact Hincl].
        rewrite !length_map. exact Hroom. }
      assert (Hk : In (name g) (map fst record1)).
      { apply Hback, Hkeys_r. exact (in_map (@name schema) rfields g Hg). }
      destruct (Hsub1 _ Hk) as [[] | [Hw _]]. exact Hw.
Qed.

Lemma record_projection_witness :
  exists d c',
    read_data Reference.builtins 4
      (RecordSchema 60 t_record "R"
         [Field "a"%string Examples.int_schema false PNone;
          Field "z"%string Examples.string_schema false PNone])
      (RecordSchema 61 t_record "R"
         [Field "b"%string Examples.string_schema true (PUnicode "x");
          Field "a"%string Examples.int_schema false PNone])
      (decoding [] ([Byte.x0e; Byte.x04; Byte.x68; Byte.x69] ++ []) [])
    = (Ok (PDict d),
       decoding ([] ++ [Byte.x0e; Byte.x04; Byte.x68; Byte.x69]) [] c')
    /\ dict_get d "a" = PInt 7
    /\ dict_get d "b" = PUnicode "x".
Proof.
  destruct (record_projection Reference.builtins 3 60 61 t_record "R"
              [Field "a"%string Examples.int_schema false PNone;
               Field "z"%string Examples.string_schema false PNone]
              [Field "b"%string Examples.string_schema true (PUnicode "x");
               Field "a"%string Examples.int_schema false PNone]
              [(PUnicode "a", PInt 7); (PUnicode "z", PUnicode "hi")]
              [Byte.x0e; Byte.x04; Byte.x68; Byte.x69] [] [] [])
    as [d [c' [Hread Hfields]]].
  - reflexivity.
  - reflexivity.
  - reflexivity.
  - reflexivity.
  - reflexivity.
  - reflexivity.
  - intros f g [<- | [<- | []]] [<- | [<- | []]] Hname;
      try reflexivity; discriminate Hname.
  - intros g [<- | [<- | []]] Hnot.
    + split; [reflexivity | eexists; reflexivity].
    + exfalso. apply Hnot. left. reflexivity.
  - simpl. lia.
  - apply cache_initial.
  - exists d, c'. split; [exact Hread |].
    destruct (Hfields (Field "a"%string Examples.int_schema false PNone))
      as [Ha _]; [right; left; reflexivity |].
    destruct (Hfields (Field "b"%string Examples.string_schema true
                         (PUnicode "x"))) as [_ Hb]; [left; reflexivity |].
    split.
    + apply Ha. left. reflexivity.
    + assert (H : Ok (PUnicode "x") = Ok (dict_get d "b")).
      { apply Hb. simpl. intros [E | [E | []]]; discriminate E. }
      injection H as <-. reflexivity.
Defined.

(** ** A union as the writer's schema *)

Lemma try_except_no_key_error {A} (m h : Dec A) (st : state) :
  fst (m st) <> Raise (PyError KeyError) ->
  try_except m (fun e => match e with KeyError => true | _ => false end) h st
  = m st.
Proof.
  intros Hno. unfold try_except.
  destruct (m st) as [[a | [| | | | []] |] st1]; try reflexivity.
  exfalso. apply Hno. reflexivity.
Qed.

Lemma read_long_with_cache (st st' : state) (i : Z) (c : match_cache) :
  BinaryDecoder.read_long st = (Ok i, st') ->
  BinaryDecoder.read_long (with_cache st c) = (Ok i, with_cache st' c).
Proof.
  intros H. rewrite cache_blind_read_long, H. reflexivity.
Qed.

Lemma read_long_keeps_cache (st st' : state) (i : Z) :
  BinaryDecoder.read_long st = (Ok i, st') -> cache st' = cache st.
Proof.
  intros H. pose proof (read_long_with_cache st st' i (cache st) H) as H'.
  rewrite with_cache_same, H in H'. injection H' as H'.
  rewrite H'. reflexivity.
Qed.

(** X28.  A value that was written under a union is read under the
    branch that the index on the wire selects: [read_data] for a writer's
    union reads the index and goes on with the writer's branch of that
    index against the same reader's schema, whatever the reader's schema
    is. *)
Theorem writer_union_branch (py : Builtins) (fuel : nat) (oid : nat)
  (t : union_type) (schemas : list schema) (R : schema) (i : Z) (B : schema)
  (st st' : state) :
  let W := UnionSchema oid t schemas in
  cache_state (cache st) ->
  BinaryDecoder.read_long st = (Ok i, st') ->
  0 <= i ->
  nth_error schemas (Z.to_nat i) = Some B ->
  exists c',
    cache_state c'
    /\ read_data py (S fuel) W R st = read_data py fuel B R (with_cache st' c').
Proof.
  intros W Hc Hread Hi HB.
  assert (HW : is_union_tag (schema_type W) = true)
    by (unfold W; destruct t; reflexivity).
  assert (Hbranch : forall c,
             try_except (type_to_decoder py (read_data py fuel)
                           (skip_data fuel) W R)
               (fun e => match e with KeyError => true | _ => false end)
               (raise (AvroException
                         (msg_cannot_read_unknown_schema_type
                            (schema_type W))))
               (with_cache st c)
             = read_data py fuel B R (with_cache st' c)).
  { intros c.
    assert (Hstep : type_to_decoder py (read_data py fuel) (skip_data fuel)
                      W R (with_cache st c)
                    = read_data py fuel B R (with_cache st' c)).
    { unfold type_to_decoder, W. unfold read_union, bind.
      rewrite (read_long_with_cache st st' i c Hread).
      simpl schemas_of. unfold lift.
      rewrite (py_index_nonneg schemas i B Hi HB). reflexivity. }
    rewrite try_except_no_key_error; [exact Hstep |].
    rewrite Hstep. apply read_data_no_key_error. }
  rewrite read_data_unfold. unfold read_data_body. cbv zeta.
  destruct (same_object R W) eqn:Hsame.
  - change (negb true) with false. cbv iota.
    exists (cache st). split; [exact Hc |].
    rewrite <- (Hbranch (cache st)), with_cache_same. reflexivity.
  - change (negb false) with true. cbv iota.
    destruct (match_schema_dec_state W R st Hc) as [c1 [Hc1 Hm]].
    assert (Hrules : __match_schema__ W R = true).
    { unfold __match_schema__.
      destruct (type_tag_eqb (schema_type W) (schema_type R)) eqn:E.
      - unfold W. reflexivity.
      - rewrite HW. reflexivity. }
    exists c1. split; [exact Hc1 |].
    unfold bind at 1. rewrite Hm, Hrules.
    change (negb true) with false. cbv iota.
    rewrite HW. simpl negb. simpl andb. cbv iota.
    apply Hbranch.
Qed.

Lemma writer_union_branch_witness :
  exists c',
    cache_state c'
    /\ read_data Reference.builtins 2 Examples.null_or_string
         Examples.string_schema (decoding [] [Byte.x02; Byte.x02; Byte.x61] [])
       = read_data Reference.builtins 1 Examples.string_schema
           Examples.string_schema
           (with_cache (decoding [Byte.x02] [Byte.x02; Byte.x61] []) c').
Proof.
  apply (writer_union_branch Reference.builtins 1 6 t_union
           [Examples.null_schema; Examples.string_schema]
           Examples.string_schema 1 Examples.string_schema
           (decoding [] [Byte.x02; Byte.x02; Byte.x61] [])
           (decoding [Byte.x02] [Byte.x02; Byte.x61] [])).
  - apply cache_initial.
  - reflexivity.
  - lia.
  - reflexivity.
Defined.

(** ** Integers that are written in more bytes than needed *)

(** The loop of [read_long] over bytes with the continuation bit, up to
    a byte without it. *)
Lemma read_long_loop_run (cs : list byte) :
  forall (b0 last : byte) (acc shift : Z) (fuel : nat) (pre rest : list byte)
         (c : match_cache),
    Forall (fun x => 128 <= ord x) (b0 :: cs) ->
    ord last < 128 ->
    (List.length cs + 2 <= fuel)%nat ->
    BinaryDecoder.read_long_loop fuel (ord b0) acc shift
      (decoding pre ((cs ++ [last]) ++ rest) c)
    = (Ok (let n := fold_left
                      (fun a x => (Z.lor (fst a)
                                     (Z.shiftl (Z.land (ord x) 127) (snd a)),
                                   snd a + 7))
                      (cs ++ [last]) (acc, shift) in
           Z.lxor (Z.shiftr (fst n) 1) (- Z.land (fst n) 1)),
       decoding (pre ++ cs ++ [last]) rest c).
Proof.
  assert (Hbit : forall x, 128 <= ord x -> negb (Z.land (ord x) 128 =? 0) = true).
  { intros x Hx. pose proof (ord_range x) as Hr.
    apply negb_true_iff, Z.eqb_neq. intros E.
    assert (Ht : Z.testbit (Z.land (ord x) 128) 7 = false)
      by (rewrite E; apply Z.bits_0).
    rewrite Z.land_spec in Ht. change (Z.testbit 128 7) with true in Ht.
    rewrite andb_true_r in Ht.
    assert (Hlow : ord x = Z.land (ord x) (Z.ones 7)).
    { apply Z.bits_inj'. intros j Hj. rewrite Z.land_spec, testbit_ones by lia.
      destruct (Z.leb_spec 0 j) as [_ | H]; [| lia].
      destruct (Z.ltb_spec j 7) as [_ | Hhigh];
        [rewrite andb_true_r; reflexivity |].
      rewrite andb_false_r.
      destruct (Z.eq_dec j 7) as [-> | Hne]; [exact Ht |].
      apply Z.bits_above_log2; [lia |].
      destruct (Z.eq_dec (ord x) 0) as [E0 | E0]; [lia |].
      apply Z.log2_lt_pow2; [lia |].
      apply Z.lt_le_trans with (2 ^ 8); [change (2 ^ 8) with 256; lia |].
      apply Z.pow_le_mono_r; lia. }
    rewrite Z.land_ones in Hlow by lia.
    pose proof (Z.mod_pos_bound (ord x) (2 ^ 7) ltac:(lia)) as Hm.
    change (2 ^ 7) with 128 in *. lia. }
  assert (Hlast : forall x, ord x < 128 -> negb (Z.land (ord x) 128 =? 0) = false).
  { intros x Hx. pose proof (ord_range x) as Hr.
    apply negb_false_iff, Z.eqb_eq.
    apply Z.bits_inj'. intros j Hj. rewrite Z.land_spec, Z.bits_0.
    destruct (Z.eq_dec j 7) as [-> | Hne].
    - rewrite andb_comm. change (Z.testbit 128 7) with true.
      rewrite andb_true_l.
      destruct (Z.eq_dec (ord x) 0) as [E0 | E0];
        [rewrite E0; reflexivity |].
      apply Z.bits_above_log2; [lia |].
      apply Z.log2_lt_pow2; [lia |]. change (2 ^ 7) with 128. lia.
    - change 128 with (2 ^ 7). rewrite Z.pow2_bits_eqb by lia.
      destruct (Z.eqb_spec 7 j) as [E | _]; [lia |].
      apply andb_false_r. }
  induction cs as [| b1 cs IH];
    intros b0 last acc shift fuel pre rest c Hall Hl Hfuel.
  - destruct fuel as [| [| fuel]]; try (simpl in Hfuel; lia).
    inversion Hall as [| ? ? Hb0 _]; subst.
    simpl app. simpl fold_left.
    change (BinaryDecoder.read_long_loop (S (S fuel)) (ord b0) acc shift)
      with (if negb (Z.land (ord b0) 128 =? 0)
            then bind BinaryDecoder.read_ord
                   (fun b => BinaryDecoder.read_long_loop (S fuel) b
                               (Z.lor acc (Z.shiftl (Z.land b 127) shift))
                               (shift + 7))
            else ret (Z.lxor (Z.shiftr acc 1) (- Z.land acc 1))).
    rewrite (Hbit b0 Hb0). unfold bind. rewrite read_ord_decoding.
    simpl BinaryDecoder.read_long_loop. rewrite (Hlast last Hl).
    reflexivity.
  - destruct fuel as [| fuel]; try (simpl in Hfuel; lia).
    inversion Hall as [| ? ? Hb0 Hrest]; subst.
    change (BinaryDecoder.read_long_loop (S fuel) (ord b0) acc shift)
      with (if negb (Z.land (ord b0) 128 =? 0)
            then bind BinaryDecoder.read_ord
                   (fun b => BinaryDecoder.read_long_loop fuel b
                               (Z.lor acc (Z.shiftl (Z.land b 127) shift))
                               (shift + 7))
            else ret (Z.lxor (Z.shiftr acc 1) (- Z.land acc 1))).
    rewrite (Hbit b0 Hb0). unfold bind.
    change (((b1 :: cs) ++ [last]) ++ rest)
      with (b1 :: (cs ++ [last]) ++ rest).
    rewrite read_ord_decoding.
    rewrite (IH b1 last _ _ fuel (pre ++ [b1]) rest c Hrest Hl)
      by (simpl in Hfuel; lia).
    simpl fold_left. rewrite <- app_assoc. reflexivity.
Qed.

Lemma low_bits_of_continued (x y : byte) :
  ord y = ord x + 128 -> Z.land (ord y) 127 = Z.land (ord x) 127.
Proof.
  intros H. change 127 with (Z.ones 7). rewrite !Z.land_ones by lia.
  rewrite H. change (2 ^ 7) with 128.
  replace (ord x + 128) with (ord x + 1 * 128) by lia.
  apply Z.mod_add. lia.
Qed.

Lemma read_long_group_step (cs : list byte) (x : byte) (acc shift : Z) :
  fold_left
    (fun a y => (Z.lor (fst a) (Z.shiftl (Z.land (ord y) 127) (snd a)),
                 snd a + 7))
    (cs ++ [x]) (acc, shift)
  = (let a := fold_left
                (fun a y => (Z.lor (fst a)
                               (Z.shiftl (Z.land (ord y) 127) (snd a)),
                             snd a + 7))
                cs (acc, shift) in
     (Z.lor (fst a) (Z.shiftl (Z.land (ord x) 127) (snd a)), snd a + 7)).
Proof.
  rewrite fold_left_app. reflexivity.
Qed.

(** X29.  [BinaryDecoder.read_long] reads a run of bytes with the high
    bit set that ends in a byte without it, to its end.  It checks neither
    the number of bytes nor that the last group is needed: with the high
    bit set in the last byte and a zero byte appended, the longer run is
    read to its end as the same integer, so one integer has more than one
    encoding that is accepted. *)
Theorem read_long_accepts_padding (cs : list byte) (last padded : byte)
  (consumed rest : list byte) (c : match_cache) :
  Forall (fun x => 128 <= ord x) cs ->
  ord last < 128 ->
  ord padded = ord last + 128 ->
  exists n,
    BinaryDecoder.read_long (decoding consumed ((cs ++ [last]) ++ rest) c)
    = (Ok n, decoding (consumed ++ cs ++ [last]) rest c)
    /\ BinaryDecoder.read_long
         (decoding consumed ((cs ++ [padded; Byte.x00]) ++ rest) c)
       = (Ok n, decoding (consumed ++ cs ++ [padded; Byte.x00]) rest c).
Proof.
  intros Hcs Hlast Hpadded.
  assert (Hp : 128 <= ord padded) by (pose proof (ord_range last); lia).
  assert (Hzero : ord Byte.x00 < 128) by reflexivity.
  assert (Hp1 : Forall (fun x => 128 <= ord x) [padded])
    by (constructor; [exact Hp | constructor]).
  pose proof (low_bits_of_continued last padded Hpadded) as Hlow.
  destruct cs as [| b0 cs].
  - eexists. split.
    + unfold BinaryDecoder.read_long, bind. simpl app.
      rewrite read_ord_decoding. rewrite remaining_decoding.
      simpl BinaryDecoder.read_long_loop.
      replace (negb (Z.land (ord last) 128 =? 0)) with false; [reflexivity |].
      symmetry. apply negb_false_iff, Z.eqb_eq.
      pose proof (ord_range last) as Hr.
      apply Z.bits_inj'. intros j Hj. rewrite Z.land_spec, Z.bits_0.
      change 128 with (2 ^ 7). rewrite Z.pow2_bits_eqb by lia.
      destruct (Z.eqb_spec 7 j) as [<- | _]; [| apply andb_false_r].
      rewrite andb_true_r.
      destruct (Z.eq_dec (ord last) 0) as [E0 | E0];
        [rewrite E0; reflexivity |].
      apply Z.bits_above_log2; [lia |].
      apply Z.log2_lt_pow2; [lia |]. change (2 ^ 7) with 128. lia.
    + unfold BinaryDecoder.read_long, bind.
      change (([] ++ [padded; Byte.x00]) ++ rest)
        with (padded :: ([] ++ [Byte.x00]) ++ rest).
      rewrite read_ord_decoding. rewrite remaining_decoding.
      rewrite (read_long_loop_run [] padded Byte.x00 _ _ _ (consumed ++ [padded])
                 rest c Hp1 Hzero)
        by (simpl; lia).
      simpl fold_left. cbv zeta. simpl fst.
      rewrite Z.lor_0_r, Hlow.
      rewrite <- app_assoc. reflexivity.
  - inversion Hcs as [| ? ? Hb0 Hrest]; subst.
    eexists. split.
    + unfold BinaryDecoder.read_long, bind.
      change (((b0 :: cs) ++ [last]) ++ rest)
        with (b0 :: (cs ++ [last]) ++ rest).
      rewrite read_ord_decoding. rewrite remaining_decoding.
      rewrite (read_long_loop_run cs b0 last _ _ _ (consumed ++ [b0]) rest c
                 Hcs Hlast)
        by (rewrite !length_app; simpl; lia).
      rewrite <- app_assoc. reflexivity.
    + unfold BinaryDecoder.read_long, bind.
      change (((b0 :: cs) ++ [padded; Byte.x00]) ++ rest)
        with (b0 :: (cs ++ [padded; Byte.x00]) ++ rest).
      rewrite read_ord_decoding. rewrite remaining_decoding.
      replace (cs ++ [padded; Byte.x00])
        with ((cs ++ [padded]) ++ [Byte.x00])
        by (rewrite <- app_assoc; reflexivity).
      rewrite (read_long_loop_run (cs ++ [padded]) b0 Byte.x00 _ _ _
                 (consumed ++ [b0]) rest c)
        by (first [ apply Forall_cons;
                    [exact Hb0
                    | apply Forall_app; split;
                      [exact Hrest | exact Hp1]]
                  | exact Hzero
                  | rewrite !length_app; simpl; lia ]).
      rewrite (read_long_group_step (cs ++ [padded]) Byte.x00).
      rewrite (read_long_group_step cs padded).
      rewrite (read_long_group_step cs last).
      cbv zeta. cbv beta iota delta [fst snd].
      change (Z.land (ord Byte.x00) 127) with 0.
      rewrite Z.shiftl_0_l, Z.lor_0_r, Hlow.
      rewrite <- !app_assoc. reflexivity.
Qed.

Lemma read_long_accepts_padding_witness :
  exists n,
    BinaryDecoder.read_long
      (decoding [] (([Byte.x80] ++ [Byte.x01]) ++ []) [])
    = (Ok n, decoding ([] ++ [Byte.x80] ++ [Byte.x01]) [] [])
    /\ BinaryDecoder.read_long
         (decoding [] (([Byte.x80] ++ [Byte.x81; Byte.x00]) ++ []) [])
       = (Ok n, decoding ([] ++ [Byte.x80] ++ [Byte.x81; Byte.x00]) [] []).
Proof.
  apply (read_long_accepts_padding [Byte.x80] Byte.x01 Byte.x81 [] [] []).
  - constructor; [cbv; discriminate | constructor].
  - reflexivity.
  - reflexivity.
Defined.
